(** * hx711-multi: the HX711 driver and its per-device aggregation

    A shallow embedding of [src/hx711_multi/adc.py] (class [ADC]) and
    [src/hx711_multi/hx711.py] (class [HX711]), and the properties of the
    specification proved, or refuted, on it.

    Numbers.  Python integers are [Z].  Python floats are read with their
    real-number meaning: the values that matter here are means, medians and
    differences of integers, which are rationals, kept exactly in [Qc]
    (canonical rationals, so that [=] is equality of values).  The one
    irrational operation, [statistics.stdev], is kept exactly as well: its
    result is the non-negative square root of the sample variance, a
    rational, and is stored as that root (type [root]); every use the code
    makes of it (a comparison with a rational, a test against zero, a
    quotient [dev / stdev] that is compared in turn) is decided on the
    radicand. *)

From Stdlib Require Import String ZArith QArith Qcanon List Bool Lia.
Import ListNotations.

Open Scope Z_scope.

(* ------------------------------------------------------------------ *)
(** ** Rationals and square roots of rationals                          *)
(* ------------------------------------------------------------------ *)

Module Num.

Definition of_Z (z : Z) : Qc := Q2Qc (inject_Z z).

Definition ltb (x y : Qc) : bool :=
  match (x ?= y)%Qc with Lt => true | _ => false end.

Definition leb (x y : Qc) : bool :=
  match (x ?= y)%Qc with Gt => false | _ => true end.

Definition eqb (x y : Qc) : bool :=
  match (x ?= y)%Qc with Eq => true | _ => false end.

(** Python's [abs]. *)
Definition abs (x : Qc) : Qc := if ltb x 0%Qc then (- x)%Qc else x.

Definition sq (x : Qc) : Qc := (x * x)%Qc.

Definition sum (xs : list Qc) : Qc := fold_right Qcplus 0%Qc xs.

Definition of_nat (n : nat) : Qc := of_Z (Z.of_nat n).

(** [Sqrt v] is the non-negative real square root of [v] (for [0 <= v]). *)
Inductive root : Type := Sqrt (radicand : Qc).

Definition radicand (r : root) : Qc := match r with Sqrt v => v end.

(** [sqrt v > q]: true when [q] is negative, else [v > q * q]. *)
Definition root_gtb (r : root) (q : Qc) : bool :=
  if ltb q 0%Qc then true else ltb (sq q) (radicand r).

(** [sqrt v <= q], the negation of the above. *)
Definition root_leb (r : root) (q : Qc) : bool := negb (root_gtb r q).

(** Truth value of a float: it is not zero. *)
Definition root_nonzero (r : root) : bool := negb (eqb (radicand r) 0%Qc).

(** [dev / sqrt v] for a non-negative rational [dev] and [sqrt v <> 0]:
    the root of [dev * dev / v]. *)
Definition div_root (dev : Qc) (r : root) : root :=
  Sqrt (sq dev / radicand r)%Qc.

End Num.

(* ------------------------------------------------------------------ *)
(** ** Python's [statistics]: [mean], [median], [stdev]                 *)
(* ------------------------------------------------------------------ *)

Module Statistics.

Import Num.

Fixpoint insert_sorted (x : Z) (l : list Z) : list Z :=
  match l with
  | [] => [x]
  | y :: l' => if x <=? y then x :: l else y :: insert_sorted x l'
  end.

(** [sorted(data)] *)
Definition sorted (l : list Z) : list Z := fold_right insert_sorted [] l.

(** [mean(data)] of integers: the exact quotient. *)
Definition mean (data : list Z) : Qc :=
  (sum (map of_Z data) / of_nat (length data))%Qc.

(** [median(data)]: the middle element of the sorted data, or the mean of
    the two middle elements when the length is even. *)
Definition median (data : list Z) : Qc :=
  let s := sorted data in
  let n := length s in
  let i := Nat.div n 2 in
  if Nat.even n
  then ((of_Z (nth (Nat.pred i) s 0%Z) + of_Z (nth i s 0%Z)) / of_Z 2)%Qc
  else of_Z (nth i s 0%Z).

(** Sample variance: the sum of squared distances to the mean over
    [n - 1]. *)
Definition variance (data : list Qc) : Qc :=
  let n := length data in
  let m := (sum data / of_nat n)%Qc in
  (sum (map (fun x => sq (x - m)%Qc) data) / of_nat (Nat.pred n))%Qc.

(** [stdev(data)]: the square root of the sample variance. *)
Definition stdev (data : list Qc) : root := Sqrt (variance data).

End Statistics.

(* ------------------------------------------------------------------ *)
(** ** Exceptions                                                       *)
(* ------------------------------------------------------------------ *)

Inductive exn : Type :=
| ValueError
| TypeError
| IndexError
| ZeroDivisionError
| Exception.

Inductive result (A : Type) : Type :=
| Ok (a : A)
| Raise (e : exn).

Arguments Ok {A} a.
Arguments Raise {A} e.

(* ------------------------------------------------------------------ *)
(** ** The outside world: GPIO lines, the clock, the log                *)
(* ------------------------------------------------------------------ *)

(** [RPi.GPIO], [time] and the logger are outside the program.  The world
    carries what they answer (the level of every data line and whether a
    clock pulse overruns, both as functions of the instant) and the trace of
    what the program did to them.  The instant is the number of events so
    far.  Of the log stream only the controller's readiness and pulse
    messages are kept. *)
Module GPIO.

Inductive direction : Type := IN | OUT.

Inductive message : Type :=
| ReadyAfter (iterations : nat)
| NotReadyAfter (iterations : nat)
| PulseTooLong.

Inductive event : Type :=
| Setup (pin : Z) (d : direction)
| Output (pin : Z) (level : bool)
| Input (pin : Z) (level : bool)
| Sleep (ms : Z)
| Log (m : message).

Record World : Type := mkWorld {
  levels : nat -> Z -> bool;
  overrun : nat -> bool;
  trace : list event
}.

(** The trace is kept latest event first. *)
Definition emit (e : event) (w : World) : World :=
  mkWorld (levels w) (overrun w) (e :: trace w).

Definition now (w : World) : nat := length (trace w).

(** [GPIO.setup(pin, direction)] *)
Definition setup (pin : Z) (d : direction) (w : World) : World :=
  emit (Setup pin d) w.

(** [GPIO.output(pin, level)] *)
Definition output (pin : Z) (level : bool) (w : World) : World :=
  emit (Output pin level) w.

(** [GPIO.input(pin)]: [true] is HIGH (1), [false] is LOW (0). *)
Definition input (pin : Z) (w : World) : bool * World :=
  let level := levels w (now w) pin in
  (level, emit (Input pin level) w).

(** [sleep(seconds)], in milliseconds. *)
Definition sleep (ms : Z) (w : World) : World := emit (Sleep ms) w.

Definition log (m : message) (w : World) : World := emit (Log m) w.

(** Whether [perf_counter] measures 60 microseconds or more over the
    pulse that starts now. *)
Definition pulse_overruns (w : World) : bool := overrun w (now w).

Definition is_pulse (sck : Z) (e : event) : bool :=
  match e with
  | Output pin true => pin =? sck
  | _ => false
  end.

(** Number of times the clock line was driven high. *)
Definition pulses (sck : Z) (tr : list event) : nat :=
  length (filter (is_pulse sck) tr).

Definition is_sleep (e : event) : bool :=
  match e with Sleep _ => true | _ => false end.

Definition sleeps (tr : list event) : nat := length (filter is_sleep tr).

(** The levels read on the line [pin], the latest first. *)
Fixpoint levels_read (pin : Z) (tr : list event) : list bool :=
  match tr with
  | [] => []
  | Input p level :: tr' =>
      if p =? pin then level :: levels_read pin tr' else levels_read pin tr'
  | _ :: tr' => levels_read pin tr'
  end.

(** Number of times the line [pin] was read. *)
Definition inputs (pin : Z) (tr : list event) : nat :=
  length (levels_read pin tr).

(** An event that is the read of a line. *)
Definition is_read (e : event) : Prop :=
  match e with Input _ _ => True | _ => False end.

(** Polling rounds that each ended in the 10 ms sleep, as the trace
    shows them: the latest round first, and of each round the sleep
    first, then what the round did, latest first. *)
Definition rounds_trace (rounds : list (list event)) : list event :=
  flat_map (fun round => Sleep 10 :: round) rounds.

Definition is_overrun (e : event) : bool :=
  match e with Log PulseTooLong => true | _ => false end.

(** Number of reports of a clock pulse that lasted too long. *)
Definition overruns (tr : list event) : nat :=
  length (filter is_overrun tr).

(** Number of clock pulses that overran by the clock [ov]: a pulse is
    measured at its instant, the number of events before it. *)
Fixpoint late_pulses (ov : nat -> bool) (sck : Z) (tr : list event) : nat :=
  match tr with
  | [] => O
  | e :: tr' =>
      ((if is_pulse sck e && ov (length tr') then 1 else 0) +
       late_pulses ov sck tr')%nat
  end.

(** A clock on which no pulse ever overruns. *)
Definition steady (w : World) : Prop := forall t, overrun w t = false.

(** The level the line [pin] was last driven to, if it was driven. *)
Fixpoint last_output (pin : Z) (tr : list event) : option bool :=
  match tr with
  | [] => None
  | Output p level :: tr' =>
      if p =? pin then Some level else last_output pin tr'
  | _ :: tr' => last_output pin tr'
  end.

(** An event that sets no line up and drives no line but [pin]. *)
Definition spares (pin : Z) (e : event) : Prop :=
  match e with
  | Setup _ _ => False
  | Output p _ => p = pin
  | _ => True
  end.

End GPIO.

(* ------------------------------------------------------------------ *)
(** ** class ADC ([adc.py])                                             *)
(* ------------------------------------------------------------------ *)

Module ADC.

Import Num.

Record t : Type := mk {
  _dout_pin : Z;
  _zero_offset : Qc;
  _weight_multiple : Qc;
  _ready : bool;
  _current_raw_read : Z;
  raw_reads : list Z;
  reads : list (option Z);
  _max_stdev : Qc;
  _reads_filtered : list Z;
  _max_number_of_stdev_from_med : Qc;
  _read_med : option Qc;
  _devs_from_med : list Qc;
  _read_stdev : root;
  _ratios_to_stdev : list root;
  measurement : option Qc;
  measurement_from_zero : option Qc;
  weight : option Qc
}.

(** [ADC.__init__] *)
Definition init (dout_pin : Z) : t := {|
  _dout_pin := dout_pin;
  _zero_offset := 0%Qc;
  _weight_multiple := 1%Qc;
  _ready := false;
  _current_raw_read := 0;
  raw_reads := [];
  reads := [];
  _max_stdev := of_Z 100;
  _reads_filtered := [];
  _max_number_of_stdev_from_med := of_Z 2;
  _read_med := None;
  _devs_from_med := [];
  _read_stdev := Sqrt 0%Qc;
  _ratios_to_stdev := [];
  measurement := None;
  measurement_from_zero := None;
  weight := None
|}.

(** Field updates, one per attribute the methods assign. *)
Definition set_zero_offset (v : Qc) (a : t) : t :=
  mk (_dout_pin a) v (_weight_multiple a) (_ready a) (_current_raw_read a)
     (raw_reads a) (reads a) (_max_stdev a) (_reads_filtered a)
     (_max_number_of_stdev_from_med a) (_read_med a) (_devs_from_med a)
     (_read_stdev a) (_ratios_to_stdev a) (measurement a)
     (measurement_from_zero a) (weight a).

Definition set_weight_multiple (v : Qc) (a : t) : t :=
  mk (_dout_pin a) (_zero_offset a) v (_ready a) (_current_raw_read a)
     (raw_reads a) (reads a) (_max_stdev a) (_reads_filtered a)
     (_max_number_of_stdev_from_med a) (_read_med a) (_devs_from_med a)
     (_read_stdev a) (_ratios_to_stdev a) (measurement a)
     (measurement_from_zero a) (weight a).

Definition set_ready (v : bool) (a : t) : t :=
  mk (_dout_pin a) (_zero_offset a) (_weight_multiple a) v
     (_current_raw_read a) (raw_reads a) (reads a) (_max_stdev a)
     (_reads_filtered a) (_max_number_of_stdev_from_med a) (_read_med a)
     (_devs_from_med a) (_read_stdev a) (_ratios_to_stdev a) (measurement a)
     (measurement_from_zero a) (weight a).

Definition set_current_raw_read (v : Z) (a : t) : t :=
  mk (_dout_pin a) (_zero_offset a) (_weight_multiple a) (_ready a) v
     (raw_reads a) (reads a) (_max_stdev a) (_reads_filtered a)
     (_max_number_of_stdev_from_med a) (_read_med a) (_devs_from_med a)
     (_read_stdev a) (_ratios_to_stdev a) (measurement a)
     (measurement_from_zero a) (weight a).

Definition set_raw_reads (v : list Z) (a : t) : t :=
  mk (_dout_pin a) (_zero_offset a) (_weight_multiple a) (_ready a)
     (_current_raw_read a) v (reads a) (_max_stdev a) (_reads_filtered a)
     (_max_number_of_stdev_from_med a) (_read_med a) (_devs_from_med a)
     (_read_stdev a) (_ratios_to_stdev a) (measurement a)
     (measurement_from_zero a) (weight a).

Definition set_reads (v : list (option Z)) (a : t) : t :=
  mk (_dout_pin a) (_zero_offset a) (_weight_multiple a) (_ready a)
     (_current_raw_read a) (raw_reads a) v (_max_stdev a) (_reads_filtered a)
     (_max_number_of_stdev_from_med a) (_read_med a) (_devs_from_med a)
     (_read_stdev a) (_ratios_to_stdev a) (measurement a)
     (measurement_from_zero a) (weight a).

Definition set_reads_filtered (v : list Z) (a : t) : t :=
  mk (_dout_pin a) (_zero_offset a) (_weight_multiple a) (_ready a)
     (_current_raw_read a) (raw_reads a) (reads a) (_max_stdev a) v
     (_max_number_of_stdev_from_med a) (_read_med a) (_devs_from_med a)
     (_read_stdev a) (_ratios_to_stdev a) (measurement a)
     (measurement_from_zero a) (weight a).

Definition set_read_med (v : option Qc) (a : t) : t :=
  mk (_dout_pin a) (_zero_offset a) (_weight_multiple a) (_ready a)
     (_current_raw_read a) (raw_reads a) (reads a) (_max_stdev a)
     (_reads_filtered a) (_max_number_of_stdev_from_med a) v
     (_devs_from_med a) (_read_stdev a) (_ratios_to_stdev a) (measurement a)
     (measurement_from_zero a) (weight a).

Definition set_devs_from_med (v : list Qc) (a : t) : t :=
  mk (_dout_pin a) (_zero_offset a) (_weight_multiple a) (_ready a)
     (_current_raw_read a) (raw_reads a) (reads a) (_max_stdev a)
     (_reads_filtered a) (_max_number_of_stdev_from_med a) (_read_med a) v
     (_read_stdev a) (_ratios_to_stdev a) (measurement a)
     (measurement_from_zero a) (weight a).

Definition set_read_stdev (v : root) (a : t) : t :=
  mk (_dout_pin a) (_zero_offset a) (_weight_multiple a) (_ready a)
     (_current_raw_read a) (raw_reads a) (reads a) (_max_stdev a)
     (_reads_filtered a) (_max_number_of_stdev_from_med a) (_read_med a)
     (_devs_from_med a) v (_ratios_to_stdev a) (measurement a)
     (measurement_from_zero a) (weight a).

Definition set_ratios_to_stdev (v : list root) (a : t) : t :=
  mk (_dout_pin a) (_zero_offset a) (_weight_multiple a) (_ready a)
     (_current_raw_read a) (raw_reads a) (reads a) (_max_stdev a)
     (_reads_filtered a) (_max_number_of_stdev_from_med a) (_read_med a)
     (_devs_from_med a) (_read_stdev a) v (measurement a)
     (measurement_from_zero a) (weight a).

Definition set_measurement (v : option Qc) (a : t) : t :=
  mk (_dout_pin a) (_zero_offset a) (_weight_multiple a) (_ready a)
     (_current_raw_read a) (raw_reads a) (reads a) (_max_stdev a)
     (_reads_filtered a) (_max_number_of_stdev_from_med a) (_read_med a)
     (_devs_from_med a) (_read_stdev a) (_ratios_to_stdev a) v
     (measurement_from_zero a) (weight a).

Definition set_measurement_from_zero (v : option Qc) (a : t) : t :=
  mk (_dout_pin a) (_zero_offset a) (_weight_multiple a) (_ready a)
     (_current_raw_read a) (raw_reads a) (reads a) (_max_stdev a)
     (_reads_filtered a) (_max_number_of_stdev_from_med a) (_read_med a)
     (_devs_from_med a) (_read_stdev a) (_ratios_to_stdev a) (measurement a)
     v (weight a).

Definition set_weight (v : option Qc) (a : t) : t :=
  mk (_dout_pin a) (_zero_offset a) (_weight_multiple a) (_ready a)
     (_current_raw_read a) (raw_reads a) (reads a) (_max_stdev a)
     (_reads_filtered a) (_max_number_of_stdev_from_med a) (_read_med a)
     (_devs_from_med a) (_read_stdev a) (_ratios_to_stdev a) (measurement a)
     (measurement_from_zero a) v.

(** [_init_raw_read]: clear the ready flag and the accumulator. *)
Definition _init_raw_read (a : t) : t :=
  set_current_raw_read 0 (set_ready false a).

(** [_init_set_of_reads]: the reset before a batch.  The assignment to
    [weight] is commented out in the source, so [weight] is kept. *)
Definition _init_set_of_reads (a : t) : t :=
  _init_raw_read
    (set_measurement_from_zero None
    (set_measurement None
    (set_ratios_to_stdev []
    (set_read_stdev (Sqrt 0%Qc)
    (set_devs_from_med []
    (set_read_med None
    (set_reads_filtered []
    (set_reads []
    (set_raw_reads [] a))))))))).

(** [convert_to_signed_value]: [None] on the three reserved codes, else
    the two's-complement value of the 24-bit pattern. *)
Definition convert_to_signed_value (raw_value : Z) : option Z :=
  if existsb (Z.eqb raw_value) [0x800000; 0x7FFFFF; 0xFFFFFF]
  then None
  else if negb (Z.land raw_value 0x800000 =? 0)
       then Some (- (Z.lxor raw_value 0xffffff + 1))
       else Some raw_value.

(** [_is_ready]: true if already ready, else ready when the data line
    reads 0. *)
Definition _is_ready (a : t) (w : GPIO.World) : bool * t * GPIO.World :=
  if _ready a then (true, a, w)
  else
    let '(level, w1) := GPIO.input (_dout_pin a) w in
    let a1 := set_ready (Z.b2z level =? 0) a in
    (_ready a1, a1, w1).

(** The accumulator after one more bit: shifted left by one, the new bit
    in the lowest place. *)
Definition shift_in (level : bool) (a : t) : t :=
  set_current_raw_read
    (Z.lor (Z.shiftl (_current_raw_read a) 1) (Z.b2z level)) a.

(** [_shift_and_read] *)
Definition _shift_and_read (a : t) (w : GPIO.World) : t * GPIO.World :=
  let '(level, w1) := GPIO.input (_dout_pin a) w in
  (shift_in level a, w1).

(** [_finish_raw_read]: append the accumulator to [raw_reads] and its
    signed value (or [None]) to [reads]. *)
Definition _finish_raw_read (a : t) : t :=
  let a1 := set_raw_reads (raw_reads a ++ [_current_raw_read a]) a in
  set_reads (reads a1 ++ [convert_to_signed_value (_current_raw_read a1)]) a1.

(** [zero(offset)] *)
Definition zero (offset : option Qc) (a : t) : result unit * t :=
  match offset with
  | Some o => (Ok tt, set_zero_offset o a)
  | None => (Raise ValueError, a)
  end.

(** [zero_from_last_measurement]: the test [if self.measurement] is false
    for [None] and for a measurement equal to zero. *)
Definition zero_from_last_measurement (a : t) : result unit * t :=
  match measurement a with
  | Some m => if eqb m 0%Qc then (Raise ValueError, a) else zero (Some m) a
  | None => (Raise ValueError, a)
  end.

Definition get_zero_offset (a : t) : Qc := _zero_offset a.

(** [[r for r in self.reads if (r is not None) and (type(r) is int)]] *)
Definition valid_reads (rs : list (option Z)) : list Z :=
  flat_map (fun r => match r with Some v => [v] | None => [] end) rs.

(** The loop over [zip(self._reads_filtered, self._ratios_to_stdev)]: it
    stops with the shorter list and keeps the reads whose ratio is at most
    the limit. *)
Fixpoint filter_by_ratio (limit : Qc) (vals : list Z) (ratios : list root)
  : list Z :=
  match vals, ratios with
  | v :: vals', r :: ratios' =>
      if root_leb r limit
      then v :: filter_by_ratio limit vals' ratios'
      else filter_by_ratio limit vals' ratios'
  | _, _ => []
  end.

(** The tail of [_calculate_measurement], from the filtering loop on.  The
    division by [_weight_multiple] raises when the multiple is zero. *)
Definition filter_and_average (a : t) : result bool * t :=
  let a1 :=
    set_reads_filtered
      (filter_by_ratio (_max_number_of_stdev_from_med a)
                       (_reads_filtered a) (_ratios_to_stdev a)) a in
  match _reads_filtered a1 with
  | [] => (Ok false, a1)
  | _ :: _ =>
      let m := Statistics.mean (_reads_filtered a1) in
      let a2 := set_measurement (Some m) a1 in
      let mfz := (m - _zero_offset a2)%Qc in
      let a3 := set_measurement_from_zero (Some mfz) a2 in
      if eqb (_weight_multiple a3) 0%Qc
      then (Raise ZeroDivisionError, a3)
      else (Ok true, set_weight (Some (mfz / _weight_multiple a3)%Qc) a3)
  end.

(** [[abs(r - med) for r in vals]] *)
Definition deviations (med : Qc) (vals : list Z) : list Qc :=
  map (fun r => abs (of_Z r - med)%Qc) vals.

(** [_calculate_measurement].  In the branch where the deviation is over
    [_max_stdev] the source clears [_ready], warns and goes on to the
    filtering loop with [_ratios_to_stdev] as it stands. *)
Definition _calculate_measurement (a : t) : result bool * t :=
  let a1 := set_reads_filtered (valid_reads (reads a)) a in
  match _reads_filtered a1 with
  | [] => (Ok false, a1)
  | [r] => (Ok true, set_measurement (Some (of_Z r)) a1)
  | _ :: _ :: _ =>
      let med := Statistics.median (_reads_filtered a1) in
      let a2 := set_read_med (Some med) a1 in
      let a3 :=
        set_devs_from_med (deviations med (_reads_filtered a2)) a2 in
      let a4 := set_read_stdev (Statistics.stdev (_devs_from_med a3)) a3 in
      if root_gtb (_read_stdev a4) (_max_stdev a4)
      then filter_and_average (set_ready false a4)
      else if root_nonzero (_read_stdev a4)
      then filter_and_average
             (set_ratios_to_stdev
                (map (fun dev => div_root dev (_read_stdev a4))
                     (_devs_from_med a4)) a4)
      else (Ok true, set_measurement (_read_med a4) a4)
  end.

(** *** Device states inside a batch *)

(** What one cycle of [HX711._read] can do to a device. *)
Inductive cycle_step : t -> t -> Prop :=
| step_init_raw_read a : cycle_step a (_init_raw_read a)
| step_is_ready a w : cycle_step a (snd (fst (_is_ready a w)))
| step_shift a level : cycle_step a (shift_in level a)
| step_finish_raw_read a : cycle_step a (_finish_raw_read a).

(** The states a device goes through between the reset that opens a batch
    and the aggregation that closes it. *)
Inductive in_batch : t -> Prop :=
| batch_reset a : in_batch (_init_set_of_reads a)
| batch_step a a' : in_batch a -> cycle_step a a' -> in_batch a'.

(** The 24 bits of a pattern, highest first, as the chip sends them. *)
Definition bits24 (v : Z) : list bool :=
  map (fun i => Z.testbit v (Z.of_nat i)) (rev (seq 0 24)).

(** A cycle in which the device is ready and its line sends [v]. *)
Definition cycle_of (v : Z) (a : t) : t :=
  _finish_raw_read
    (fold_left (fun a1 level => shift_in level a1) (bits24 v)
               (set_ready true (_init_raw_read a))).

(** A whole batch: the reset, then one such cycle per pattern. *)
Definition batch_of (raws : list Z) (a : t) : t :=
  fold_left (fun a1 v => cycle_of v a1) raws (_init_set_of_reads a).

(** The device after the levels [bits] were read by as many
    [_shift_and_read], the first level first. *)
Definition shift_bits (bits : list bool) (a : t) : t :=
  fold_left (fun a1 level => shift_in level a1) bits a.

(** The standard deviation the aggregation compares with [_max_stdev]:
    that of the distances of the valid reads to their median. *)
Definition spread (a : t) : root :=
  let vals := valid_reads (reads a) in
  Statistics.stdev (deviations (Statistics.median vals) vals).

(** The batch has exactly one valid read: the first early return. *)
Definition single_valid (a : t) : bool :=
  match valid_reads (reads a) with
  | [_] => true
  | _ => false
  end.

(** The batch has two valid reads or more, its spread is not over
    [_max_stdev] and is zero: the second early return. *)
Definition zero_spread (a : t) : bool :=
  match valid_reads (reads a) with
  | _ :: _ :: _ =>
      negb (root_gtb (spread a) (_max_stdev a)) &&
      negb (root_nonzero (spread a))
  | _ => false
  end.

End ADC.

(** Vocabulary for the properties of a cycle. *)
Module Effects.

(** Several cycle steps in a row. *)
Inductive cycle_steps : ADC.t -> ADC.t -> Prop :=
| steps_done a : cycle_steps a a
| steps_more a a1 a2 :
    cycle_steps a a1 -> ADC.cycle_step a1 a2 -> cycle_steps a a2.

(** What readiness polling may do to a device, the lines answering as
    [lv] says: only the ready flag changes, it is never withdrawn, and it
    is not granted to a device whose line never reads 0. *)
Definition polled (lv : nat -> Z -> bool) (a a' : ADC.t) : Prop :=
  ADC.set_ready true a' = ADC.set_ready true a /\
  (ADC._ready a = true -> ADC._ready a' = true) /\
  ((forall t, lv t (ADC._dout_pin a) = true) ->
   ADC._ready a = false -> ADC._ready a' = false).

(** Polling as a run of cycle steps. *)
Definition polling (lv : nat -> Z -> bool) (a a' : ADC.t) : Prop :=
  polled lv a a' /\ cycle_steps a a'.

(** What a batch does to a device: from the reset through cycle steps to
    a state [a]; then the aggregation, if [a] is ready and if it does not
    raise. *)
Definition aggregated (a0 a' : ADC.t) : Prop :=
  exists a,
    cycle_steps (ADC._init_set_of_reads a0) a /\
    ((ADC._ready a = true /\
      a' = snd (ADC._calculate_measurement a) /\
      exists b, fst (ADC._calculate_measurement a) = Ok b) \/
     (ADC._ready a = false /\ a' = a)).

(** The program reads the outside world, it does not change what the
    lines and the clock will answer. *)
Definition same_lines (w w' : GPIO.World) : Prop :=
  GPIO.levels w' = GPIO.levels w /\ GPIO.overrun w' = GPIO.overrun w.

End Effects.

(** Vocabulary for the history a device keeps: the raw patterns and their
    signed values. *)
Module History.

(** A 24-bit pattern. *)
Definition pattern (v : Z) : Prop := 0 <= v < 2 ^ 24.

(** The patterns [vs] were appended to the history of the device, each
    with its signed value; with no pattern the history is as it was. *)
Definition appended (vs : list Z) (a a' : ADC.t) : Prop :=
  ADC.raw_reads a' = ADC.raw_reads a ++ vs /\
  ADC.reads a' = ADC.reads a ++ map ADC.convert_to_signed_value vs.

(** What the 24-bit loop of a cycle does to a device: levels are read
    into the accumulator, none on a device that is not ready, and [n] of
    them on a ready device when the loop runs to its end ([whole]). *)
Definition shifts (n : nat) (whole : bool) (a a' : ADC.t) : Prop :=
  exists bits,
    a' = ADC.shift_bits bits a /\
    (ADC._ready a = false -> bits = []) /\
    (whole = true -> ADC._ready a = true -> length bits = n).

(** The same with the line: the levels shifted in are those read on the
    line of the device between the traces [tr] and [tr'], the first
    level read first. *)
Definition shifts_line (n : nat) (whole : bool) (tr tr' : list GPIO.event)
  (a a' : ADC.t) : Prop :=
  exists bits,
    a' = ADC.shift_bits bits a /\
    (ADC._ready a = false -> bits = []) /\
    (whole = true -> ADC._ready a = true -> length bits = n) /\
    GPIO.levels_read (ADC._dout_pin a) tr' =
      rev bits ++ GPIO.levels_read (ADC._dout_pin a) tr.

(** What one cycle does to the history of a device, [ok] being what the
    cycle returns: the history is kept (and then, if the cycle succeeded,
    the device was not ready), or the device is ready and took one 24-bit
    pattern, the one left in its accumulator. *)
Definition cycled (ok : bool) (a a' : ADC.t) : Prop :=
  (appended [] a a' /\ (ok = true -> ADC._ready a' = false)) \/
  (exists v, pattern v /\ appended [v] a a' /\
             ADC._ready a' = true /\ ADC._current_raw_read a' = v).

(** What a run of cycles does to the history of a device: some 24-bit
    patterns are appended, [n] at most. *)
Definition took (n : nat) (a a' : ADC.t) : Prop :=
  exists vs, (length vs <= n)%nat /\ Forall pattern vs /\ appended vs a a'.

End History.

(** Worlds to run the model in: every data line always low, a clock that
    never overruns ([quiet]); every data line always high ([stuck]). *)
Module Worlds.

Definition quiet : GPIO.World :=
  GPIO.mkWorld (fun _ _ => false) (fun _ => false) [].

Definition stuck : GPIO.World :=
  GPIO.mkWorld (fun _ _ => true) (fun _ => false) [].

(** Every data line low except at the instant [t0], where all read high;
    a clock that never overruns. *)
Definition blip (t0 : nat) : GPIO.World :=
  GPIO.mkWorld (fun t _ => Nat.eqb t t0) (fun _ => false) [].

(** The line of pin 5 high up to the instant 351, then low except at the
    instants 465 and 582; every other line low up to 351 except at the
    instant 114, then high; a clock that never overruns.  With the
    devices of [Examples.two_devices] and batches of three cycles, the
    first batch ends at 351. *)
Definition handover : GPIO.World :=
  GPIO.mkWorld
    (fun t pin =>
       if pin =? 5
       then Nat.ltb t 351 || Nat.eqb t 465 || Nat.eqb t 582
       else Nat.eqb t 114 || Nat.leb 351 t)
    (fun _ => false) [].

End Worlds.

(* ------------------------------------------------------------------ *)
(** ** class HX711 ([hx711.py])                                         *)
(* ------------------------------------------------------------------ *)

(** What [read_raw] and [read_weight] return and what [zero] holds in
    [readings]: [None], a number, or a list of numbers and [None]s. *)
Inductive pyval : Type :=
| PNone
| PNum (q : Qc)
| PList (l : list (option Qc)).

Definition of_option (o : option Qc) : pyval :=
  match o with Some q => PNum q | None => PNone end.

Definition is_None (o : option Qc) : bool :=
  match o with None => true | Some _ => false end.

(** [None in v]: a membership test, defined on lists only. *)
Definition contains_None (v : pyval) : result bool :=
  match v with
  | PList l => Ok (existsb is_None l)
  | _ => Raise TypeError
  end.

(** [[r_new if r_new is not None else r_old for r_new, r_old in zip(new, old)]] *)
Fixpoint merge (new old : list (option Qc)) : list (option Qc) :=
  match new, old with
  | r_new :: new', r_old :: old' =>
      (match r_new with Some _ => r_new | None => r_old end) :: merge new' old'
  | _, _ => []
  end.

(** The same on values: [zip] needs two iterables. *)
Definition merge_readings (new old : pyval) : result pyval :=
  match new, old with
  | PList n, PList o => Ok (PList (merge n o))
  | _, _ => Raise TypeError
  end.

(** The readings [zero] holds after the batches [news] have come in, the
    earliest first, on top of the readings [old]. *)
Definition merge_all (old : list (option Qc))
  (news : list (list (option Qc))) : list (option Qc) :=
  fold_left (fun readings new => merge new readings) news old.

(** The latest reading that is present among [rs], the earliest first;
    [None] when none is. *)
Fixpoint latest (rs : list (option Qc)) : option Qc :=
  match rs with
  | [] => None
  | r :: rest =>
      match latest rest with
      | Some x => Some x
      | None => r
      end
  end.

Module HX711.

Record t : Type := mk {
  _all_or_nothing : bool;
  _single_adc : bool;
  _dout_pins : list Z;
  _sck_pin : Z;
  _channel_A_gain : Z;
  _channel_select : string;
  _adcs : list ADC.t
}.

Definition set_adcs (adcs : list ADC.t) (h : t) : t :=
  mk (_all_or_nothing h) (_single_adc h) (_dout_pins h) (_sck_pin h)
     (_channel_A_gain h) (_channel_select h) adcs.

(** The settings fixed at construction. *)
Definition same_config (h h' : t) : Prop :=
  set_adcs [] h' = set_adcs [] h.

(** The controller and the world it acts on. *)
Record state : Type := mkState { self : t; world : GPIO.World }.

(** Methods: state transformers that return a value or raise. *)
Definition M (A : Type) : Type := state -> result A * state.

Definition ret {A} (a : A) : M A := fun s => (Ok a, s).

Definition raise {A} (e : exn) : M A := fun s => (Raise e, s).

Definition bind {A B} (m : M A) (k : A -> M B) : M B :=
  fun s =>
    match m s with
    | (Ok a, s1) => k a s1
    | (Raise e, s1) => (Raise e, s1)
    end.

Declare Scope hx_scope.
Delimit Scope hx_scope with hx.
Notation "x <- m ;; k" := (bind m (fun x => k))
  (at level 61, m at next level, right associativity) : hx_scope.
Notation "m ;; k" := (bind m (fun _ => k))
  (at level 61, right associativity) : hx_scope.
Local Open Scope hx_scope.

Definition get : M t := fun s => (Ok (self s), s).

Definition lift {A} (r : result A) : M A := fun s => (r, s).

(** An action on the world alone. *)
Definition act (f : GPIO.World -> GPIO.World) : M unit :=
  fun s => (Ok tt, mkState (self s) (f (world s))).

Definition ask {A} (f : GPIO.World -> A) : M A :=
  fun s => (Ok (f (world s)), s).

(** [for adc in self._adcs: ...] for a body without input or output. *)
Definition each_adc (f : ADC.t -> ADC.t) : M unit :=
  fun s => (Ok tt, mkState (set_adcs (map f (_adcs (self s))) (self s)) (world s)).

(** [[adc._is_ready() for adc in self._adcs]] *)
Fixpoint poll (adcs : list ADC.t) (w : GPIO.World)
  : list bool * list ADC.t * GPIO.World :=
  match adcs with
  | [] => ([], [], w)
  | a :: rest =>
      let '(r, a1, w1) := ADC._is_ready a w in
      let '(rs, rest1, w2) := poll rest w1 in
      (r :: rs, a1 :: rest1, w2)
  end.

Definition poll_adcs : M (list bool) :=
  fun s =>
    let '(rs, adcs, w) := poll (_adcs (self s)) (world s) in
    (Ok rs, mkState (set_adcs adcs (self s)) w).

(** [for adc in self._adcs: if adc._ready: adc._shift_and_read()] *)
Fixpoint shift (adcs : list ADC.t) (w : GPIO.World)
  : list ADC.t * GPIO.World :=
  match adcs with
  | [] => ([], w)
  | a :: rest =>
      let '(a1, w1) :=
        if ADC._ready a then ADC._shift_and_read a w else (a, w) in
      let '(rest1, w2) := shift rest w1 in
      (a1 :: rest1, w2)
  end.

Definition shift_adcs : M unit :=
  fun s =>
    let '(adcs, w) := shift (_adcs (self s)) (world s) in
    (Ok tt, mkState (set_adcs adcs (self s)) w).

(** [for adc in self._adcs: if adc._ready: adc.f()] for a method that can
    raise: the devices after the one that raises are left as they are. *)
Fixpoint for_ready {A} (f : ADC.t -> result A * ADC.t) (adcs : list ADC.t)
  : result unit * list ADC.t :=
  match adcs with
  | [] => (Ok tt, [])
  | a :: rest =>
      if ADC._ready a
      then match f a with
           | (Ok _, a1) =>
               let '(r, rest1) := for_ready f rest in (r, a1 :: rest1)
           | (Raise e, a1) => (Raise e, a1 :: rest)
           end
      else let '(r, rest1) := for_ready f rest in (r, a :: rest1)
  end.

Definition each_ready_adc {A} (f : ADC.t -> result A * ADC.t) : M unit :=
  fun s =>
    let '(r, adcs) := for_ready f (_adcs (self s)) in
    (r, mkState (set_adcs adcs (self s)) (world s)).

(** The loop of [_prepare_to_read]: at most [n] rounds, each polling every
    device and sleeping 10 ms when not all are ready.  The value is the
    number of rounds run, the [i+1] of the log message. *)
Fixpoint poll_loop (n : nat) : M nat :=
  match n with
  | O => ret O
  | S n' =>
      rs <- poll_adcs ;;
      if forallb id rs
      then ret 1%nat
      else act (GPIO.sleep 10) ;; k <- poll_loop n' ;; ret (S k)
  end.

(** [_prepare_to_read] *)
Definition _prepare_to_read : M bool :=
  h <- get ;;
  act (GPIO.output (_sck_pin h) false) ;;
  rounds <- poll_loop 20 ;;
  h1 <- get ;;
  let ready := forallb ADC._ready (_adcs h1) in
  act (GPIO.log (if ready then GPIO.ReadyAfter rounds
                 else GPIO.NotReadyAfter rounds)) ;;
  ret ready.

(** [_pulse_sck_high]: clock high then low; false when the pulse lasted
    60 microseconds or more. *)
Definition _pulse_sck_high : M bool :=
  h <- get ;;
  late <- ask GPIO.pulse_overruns ;;
  act (GPIO.output (_sck_pin h) true) ;;
  act (GPIO.output (_sck_pin h) false) ;;
  if late
  then act (GPIO.log GPIO.PulseTooLong) ;; ret false
  else ret true.

(** [for _ in range(n): if not self._pulse_sck_high(): return False] *)
Fixpoint pulse_times (n : nat) : M bool :=
  match n with
  | O => ret true
  | S n' =>
      ok <- _pulse_sck_high ;;
      if ok then pulse_times n' else ret false
  end.

Definition num_pulses (h : t) : nat :=
  if (_channel_select h =? "A")%string && (_channel_A_gain h =? 128)
  then 1%nat
  else if (_channel_select h =? "A")%string && (_channel_A_gain h =? 64)
  then 3%nat
  else 2%nat.

(** [_write_channel_gain] *)
Definition _write_channel_gain : M bool :=
  h <- get ;;
  pulse_times (num_pulses h).

(** The 24-bit loop of [_read]: false when a pulse overran. *)
Fixpoint read_bits (n : nat) : M bool :=
  match n with
  | O => ret true
  | S n' =>
      ok <- _pulse_sck_high ;;
      if ok then shift_adcs ;; read_bits n' else ret false
  end.

(** [_read]: one cycle over all devices. *)
Definition _read : M bool :=
  each_adc ADC._init_raw_read ;;
  ready <- _prepare_to_read ;;
  h <- get ;;
  if negb ready && _all_or_nothing h
  then ret false
  else
    ok <- read_bits 24 ;;
    if negb ok then ret false
    else
      each_adc (fun a => if ADC._ready a then ADC._finish_raw_read a else a) ;;
      ok' <- _write_channel_gain ;;
      if negb ok' then ret false else ret true.

(** [for _ in range(n): self._read()] *)
Fixpoint read_times (n : nat) : M unit :=
  match n with
  | O => ret tt
  | S n' => _read ;; read_times n'
  end.

Definition in_range (readings_to_average : Z) : bool :=
  (1 <=? readings_to_average) && (readings_to_average <=? 10000).

(** The value returned for a list of per-device values: the first one
    when the controller was built from a single pin, else the list. *)
Definition returned (h : t) (values : list (option Qc)) : M pyval :=
  if _single_adc h
  then match values with
       | v :: _ => ret (of_option v)
       | [] => raise IndexError
       end
  else ret (PList values).

(** [read_raw] *)
Definition read_raw (readings_to_average : Z) : M pyval :=
  if negb (in_range readings_to_average)
  then raise ValueError
  else
    each_adc ADC._init_set_of_reads ;;
    read_times (Z.to_nat readings_to_average) ;;
    each_ready_adc ADC._calculate_measurement ;;
    h <- get ;;
    returned h (map ADC.measurement_from_zero (_adcs h)).

(** [read_weight] *)
Definition read_weight (readings_to_average : Z) (use_prev_read : bool)
  : M pyval :=
  if negb (in_range readings_to_average)
  then raise ValueError
  else
    (if negb use_prev_read
     then read_raw readings_to_average ;; ret tt
     else ret tt) ;;
    h <- get ;;
    returned h (map ADC.weight (_adcs h)).

(** [power_down] *)
Definition power_down : M unit :=
  h <- get ;;
  act (GPIO.output (_sck_pin h) false) ;;
  act (GPIO.output (_sck_pin h) true) ;;
  act (GPIO.sleep 10).

(** [power_up] *)
Definition power_up : M bool :=
  h <- get ;;
  act (GPIO.output (_sck_pin h) false) ;;
  result <- _read ;;
  act (GPIO.sleep 400) ;;
  ret result.

(** [reset] *)
Definition reset : M bool := power_down ;; power_up.

(** The retry loop of [zero]; [readings] starts as [None]. *)
Fixpoint zero_loop (retries : nat) (readings_to_average : Z)
  (readings : pyval) : M pyval :=
  match retries with
  | O => ret readings
  | S retries' =>
      readings_new <- read_raw readings_to_average ;;
      readings1 <-
        match readings with
        | PNone => ret readings_new
        | _ => lift (merge_readings readings_new readings)
        end ;;
      missing <- lift (contains_None readings1) ;;
      if negb missing
      then ret readings1
      else zero_loop retries' readings_to_average readings1
  end.

(** [zero] *)
Definition zero (readings_to_average retry_limit : Z) : M unit :=
  readings <- zero_loop (Z.to_nat retry_limit) readings_to_average PNone ;;
  missing <- lift (contains_None readings) ;;
  if missing
  then raise Exception
  else each_ready_adc ADC.zero_from_last_measurement.

(** The batches the loop of [zero] reads after the first one: with the
    readings [old] in hand and one of them missing, [read_raw] returns the
    list [new], and the loop goes on from the merged readings. *)
Inductive retried (n : Z)
  : list (option Qc) -> state -> list (list (option Qc)) -> state -> Prop :=
| retried_none old s : retried n old s [] s
| retried_more old s new s1 news s2 :
    existsb is_None old = true ->
    read_raw n s = (Ok (PList new), s1) ->
    retried n (merge new old) s1 news s2 ->
    retried n old s (new :: news) s2.

(** Modelled from the spec: [utils.convert_to_list] is not among the
    sources.  By the docstring of the [_dout_pins] setter an int becomes a
    one-element list and a list of ints is kept. *)
Definition convert_to_list (dout_pins : Z + list Z) : list Z :=
  match dout_pins with
  | inl pin => [pin]
  | inr pins => pins
  end.

(** [_init_gpio] *)
Definition _init_gpio (sck_pin : Z) (dout_pins : list Z) (w : GPIO.World)
  : GPIO.World :=
  fold_left (fun w1 dout => GPIO.setup dout GPIO.IN w1) dout_pins
            (GPIO.setup sck_pin GPIO.OUT w).

(** [__init__]: the setters check gain and channel after the GPIO set-up;
    the first cycle selects channel and gain; then 400 ms of settling. *)
Definition __init__ (dout_pins : Z + list Z) (sck_pin channel_A_gain : Z)
  (channel_select : string) (all_or_nothing : bool) (w : GPIO.World)
  : result unit * state :=
  let pins := convert_to_list dout_pins in
  let single := match dout_pins with inl _ => true | inr _ => false end in
  let h0 := mk all_or_nothing single pins sck_pin channel_A_gain
               channel_select [] in
  let w1 := _init_gpio sck_pin pins w in
  if negb (existsb (Z.eqb channel_A_gain) [128; 64])
  then (Raise TypeError, mkState h0 w1)
  else if negb (existsb (String.eqb channel_select) ["A"; "B"]%string)
  then (Raise TypeError, mkState h0 w1)
  else (_read ;; act (GPIO.sleep 400))
         (mkState (set_adcs (map ADC.init pins) h0) w1).

(** Modelled from the spec: [utils.convert_to_list] with [_type=None], as
    [set_weight_multiples] calls it on the multiples.  By the docstring of
    [set_weight_multiples] a float becomes a one-element list and a list
    of floats is kept. *)
Definition convert_to_list_any {A} (x : A + list A) : list A :=
  match x with
  | inl v => [v]
  | inr l => l
  end.

(** Whether [set_weight_multiples] picks the device [a] at index [i]: by
    its pin when [dout_pins] is given, else by its index. *)
Definition picked (adc_indices : list Z) (dout_pins : option (list Z))
  (i : nat) (a : ADC.t) : bool :=
  match dout_pins with
  | Some pins => existsb (Z.eqb (ADC._dout_pin a)) pins
  | None => existsb (Z.eqb (Z.of_nat i)) adc_indices
  end.

(** [for adc, weight_multiple in zip(adcs, weight_multiples)], [adcs]
    being the devices picked out of [self._adcs], in the order of
    [self._adcs]: the devices are walked from index [i] on, each picked
    one takes the next multiple, and the loop ends with the shorter list. *)
Fixpoint assign_multiples (pick : nat -> ADC.t -> bool) (i : nat)
  (adcs : list ADC.t) (weight_multiples : list Qc) : list ADC.t :=
  match adcs with
  | [] => []
  | a :: rest =>
      if pick i a
      then match weight_multiples with
           | m :: ms =>
               ADC.set_weight_multiple m a ::
               assign_multiples pick (S i) rest ms
           | [] => a :: rest
           end
      else a :: assign_multiples pick (S i) rest weight_multiples
  end.

(** [set_weight_multiples]: with neither indices nor pins the indices are
    [range(len(weight_multiples))]; pins, when given, take precedence. *)
Definition set_weight_multiples (weight_multiples : Qc + list Qc)
  (adc_indices dout_pins : option (Z + list Z)) : M unit :=
  fun s =>
    let ms := convert_to_list_any weight_multiples in
    let indices :=
      match adc_indices, dout_pins with
      | None, None => map Z.of_nat (seq 0 (length ms))
      | Some x, _ => convert_to_list x
      | None, Some _ => []
      end in
    let pick := picked indices (option_map convert_to_list dout_pins) in
    (Ok tt,
     mkState (set_adcs (assign_multiples pick 0 (_adcs (self s)) ms) (self s))
             (world s)).

(** A controller built from a scalar pin has exactly one device. *)
Definition well_formed (h : t) : Prop :=
  _single_adc h = true -> length (_adcs h) = 1%nat.

(** The value [read_raw] returned for the device at index [i]. *)
Definition value_at (v : pyval) (i : nat) : option (option Qc) :=
  match v, i with
  | PList l, _ => nth_error l i
  | PNone, O => Some None
  | PNum q, O => Some (Some q)
  | _, _ => None
  end.

(** What running a method does to the state when every device is taken
    from [a] to some [a'] with [R a a']: the configuration and the
    answers of the world are kept. *)
Definition runs (R : ADC.t -> ADC.t -> Prop) (s s' : state) : Prop :=
  same_config (self s) (self s') /\
  Effects.same_lines (world s) (world s') /\
  Forall2 R (_adcs (self s)) (_adcs (self s')).

(** A device that is not ready and whose line never reads 0. *)
Definition stuck (lv : nat -> Z -> bool) (a : ADC.t) : Prop :=
  ADC._ready a = false /\ forall t, lv t (ADC._dout_pin a) = true.

(** Number of clock pulses and of sleeps so far. *)
Definition pulses (s : state) : nat :=
  GPIO.pulses (_sck_pin (self s)) (GPIO.trace (world s)).

Definition sleeps (s : state) : nat := GPIO.sleeps (GPIO.trace (world s)).

(** Number of devices on the line [pin]. *)
Definition devices_on (pin : Z) (adcs : list ADC.t) : nat :=
  length (filter (fun a => ADC._dout_pin a =? pin) adcs).

(** Number of overrun reports so far, and of clock pulses that overran
    by the clock of the world. *)
Definition overruns (s : state) : nat := GPIO.overruns (GPIO.trace (world s)).

Definition late_pulses (s : state) : nat :=
  GPIO.late_pulses (GPIO.overrun (world s)) (_sck_pin (self s))
                   (GPIO.trace (world s)).

(** The last thing done was a clock pulse that overran by the clock, and
    the report of it. *)
Definition stopped_late (s : state) : Prop :=
  exists evs,
    GPIO.trace (world s) =
      GPIO.Log GPIO.PulseTooLong :: GPIO.Output (_sck_pin (self s)) false ::
      GPIO.Output (_sck_pin (self s)) true :: evs /\
    GPIO.overrun (world s) (length evs) = true.

(** What a run of at most [n] clock pulses did from [s] to [s'], [ok]
    being what it returned: all [n] pulses, none of them late and none
    reported; or it stopped at the first late pulse, after [n] pulses at
    most. *)
Definition clocked (n : nat) (ok : bool) (s s' : state) : Prop :=
  if ok
  then pulses s' = (pulses s + n)%nat /\
       late_pulses s' = late_pulses s /\ overruns s' = overruns s
  else (pulses s < pulses s' <= pulses s + n)%nat /\
       late_pulses s' = S (late_pulses s) /\
       overruns s' = S (overruns s) /\ stopped_late s'.

End HX711.

(** Controllers to run the model on: two devices on pins 5 and 6, or a
    single device given as a scalar pin 5; the clock on pin 11, channel A
    at gain 128. *)
Module Examples.

Definition two_devices (all_or_nothing : bool) : HX711.t :=
  HX711.mk all_or_nothing false [5; 6] 11 128 "A"
           [ADC.init 5; ADC.init 6].

Definition one_device : HX711.t :=
  HX711.mk true true [5] 11 128 "A" [ADC.init 5].

(** A single device given as the list [[5]]. *)
Definition one_in_list : HX711.t :=
  HX711.mk true false [5] 11 128 "A" [ADC.init 5].

End Examples.

(* ================================================================== *)
(** * Properties                                                        *)
(* ================================================================== *)

(* ------------------------------------------------------------------ *)
(** ** Conversion of the 24-bit pattern                                 *)
(* ------------------------------------------------------------------ *)

Section Conversion.

(** The test [raw_value & 0x800000] looks at bit 23. *)
Lemma sign_bit_test (v : Z) :
  (Z.land v 0x800000 =? 0) = negb (Z.testbit v 23).
Proof.
  change 0x800000 with (2 ^ 23).
  destruct (Z.testbit v 23) eqn:Hb; cbn [negb].
  - apply Z.eqb_neq. intro H0.
    assert (Hc : Z.testbit (Z.land v (2 ^ 23)) 23 = true).
    { rewrite Z.land_spec, Hb, Z.pow2_bits_true by lia. reflexivity. }
    rewrite H0, Z.bits_0 in Hc. discriminate.
  - apply Z.eqb_eq. apply Z.bits_inj'. intros n Hn.
    rewrite Z.land_spec, Z.bits_0.
    destruct (Z.eq_dec n 23) as [-> | Hne].
    + rewrite Hb. reflexivity.
    + rewrite (Z.pow2_bits_false 23 n) by lia. apply andb_false_r.
Qed.

Lemma reserved_codes (v : Z) :
  existsb (Z.eqb v) [0x800000; 0x7FFFFF; 0xFFFFFF] = true <->
  v = 0x800000 \/ v = 0x7FFFFF \/ v = 0xFFFFFF.
Proof.
  cbn [existsb]. rewrite !orb_true_iff, !Z.eqb_eq. intuition discriminate.
Qed.

Lemma high_bits_clear (v n : Z) :
  0 <= v < 2 ^ 24 -> 24 <= n -> Z.testbit v n = false.
Proof.
  intros Hv Hn. rewrite <- (Z.mod_small v (2 ^ 24)) by lia.
  apply Z.mod_pow2_bits_high. lia.
Qed.

(** Flipping the 24 bits of a 24-bit pattern. *)
Lemma lxor_24_ones (v : Z) :
  0 <= v < 2 ^ 24 -> Z.lxor v 0xffffff = 0xffffff - v.
Proof.
  intros Hv.
  change 0xffffff with (Z.ones 24).
  assert (Hdis : Z.land v (Z.lxor v (Z.ones 24)) = 0).
  { apply Z.bits_inj'. intros n Hn.
    rewrite Z.land_spec, Z.lxor_spec, Z.bits_0.
    destruct (Z_lt_le_dec n 24).
    - rewrite Z.ones_spec_low by lia. destruct (Z.testbit v n); reflexivity.
    - rewrite high_bits_clear by lia. reflexivity. }
  apply Z.add_nocarry_lxor in Hdis.
  rewrite <- Z.lxor_assoc, Z.lxor_nilpotent, Z.lxor_0_l in Hdis.
  lia.
Qed.

(** C2.  For every 24-bit pattern [v], [convert_to_signed_value] returns
    [None] exactly on the three reserved codes 0x800000, 0x7FFFFF and
    0xFFFFFF; on any other pattern it returns [-((v xor 0xFFFFFF) + 1)]
    when bit 23 of [v] is set and [v] itself when it is clear.  The
    negative value is the two's-complement reading [v - 2^24]. *)
Theorem convert_to_signed_value_law (v : Z) :
  0 <= v < 2 ^ 24 ->
  (ADC.convert_to_signed_value v = None <->
   v = 0x800000 \/ v = 0x7FFFFF \/ v = 0xFFFFFF) /\
  (~ (v = 0x800000 \/ v = 0x7FFFFF \/ v = 0xFFFFFF) ->
   ADC.convert_to_signed_value v =
     if Z.testbit v 23
     then Some (- (Z.lxor v 0xFFFFFF + 1))
     else Some v) /\
  (Z.testbit v 23 = true -> - (Z.lxor v 0xFFFFFF + 1) = v - 2 ^ 24).
Proof.
  intros Hv. unfold ADC.convert_to_signed_value.
  rewrite sign_bit_test, negb_involutive.
  split; [ | split ].
  - destruct (existsb _ _) eqn:He.
    + apply reserved_codes in He. tauto.
    + split; [ destruct (Z.testbit v 23); discriminate | ].
      intros Hr. apply reserved_codes in Hr. congruence.
  - intros Hn. destruct (existsb _ _) eqn:He.
    + apply reserved_codes in He. contradiction.
    + destruct (Z.testbit v 23); reflexivity.
  - intros _. rewrite lxor_24_ones by exact Hv. lia.
Qed.

Lemma convert_to_signed_value_law_witness :
  0 <= 0x800001 < 2 ^ 24 /\
  ADC.convert_to_signed_value 0x800001 = Some (-8388607).
Proof.
  assert (Hv : 0 <= 0x800001 < 2 ^ 24) by lia.
  split; [ exact Hv | ].
  destruct (convert_to_signed_value_law 0x800001 Hv) as (_ & Hval & _).
  rewrite Hval; [ reflexivity | ].
  intros [H | [H | H]]; discriminate H.
Defined.

(** The examples of the specification. *)
Example convert_examples :
  ADC.convert_to_signed_value 0x000001 = Some 1 /\
  ADC.convert_to_signed_value 0xFFFFFE = Some (-2) /\
  ADC.convert_to_signed_value 0x800001 = Some (-8388607) /\
  ADC.convert_to_signed_value 0x800000 = None /\
  ADC.convert_to_signed_value 0x7FFFFF = None /\
  ADC.convert_to_signed_value 0xFFFFFF = None.
Proof. repeat split. Qed.

End Conversion.

(* ------------------------------------------------------------------ *)
(** ** The reset before a batch                                         *)
(* ------------------------------------------------------------------ *)

Section Reset.

(** C8, amended.  [_init_set_of_reads] empties the batch history
    ([raw_reads], [reads], the filtered reads and the statistics kept with
    them) and clears [measurement] and [measurement_from_zero], also the
    ready flag and the accumulator; it leaves [_zero_offset] and
    [_weight_multiple] as they are, and [weight] as well, which is not
    cleared, for every device state. *)
Theorem init_set_of_reads_frame (a : ADC.t) :
  let a' := ADC._init_set_of_reads a in
  (ADC.raw_reads a' = [] /\ ADC.reads a' = [] /\
   ADC._reads_filtered a' = [] /\ ADC._read_med a' = None /\
   ADC._devs_from_med a' = [] /\ ADC._read_stdev a' = Num.Sqrt 0%Qc /\
   ADC._ratios_to_stdev a' = []) /\
  (ADC.measurement a' = None /\ ADC.measurement_from_zero a' = None) /\
  (ADC._ready a' = false /\ ADC._current_raw_read a' = 0) /\
  (ADC._zero_offset a' = ADC._zero_offset a /\
   ADC._weight_multiple a' = ADC._weight_multiple a) /\
  (ADC.weight a' = ADC.weight a /\ ADC._dout_pin a' = ADC._dout_pin a /\
   ADC._max_stdev a' = ADC._max_stdev a /\
   ADC._max_number_of_stdev_from_med a' =
     ADC._max_number_of_stdev_from_med a).
Proof. cbv zeta. repeat split. Qed.

End Reset.

(* ------------------------------------------------------------------ *)
(** ** Aggregation of a batch                                           *)
(* ------------------------------------------------------------------ *)

Section Aggregation.

Import ADC.

(** Reduction through the record updates, the statistics left folded. *)
Ltac run :=
  lazy -[Statistics.median Statistics.stdev Statistics.mean Num.root_gtb
         Num.root_leb Num.root_nonzero Num.eqb Num.div_root Num.of_Z
         deviations valid_reads filter_by_ratio Qcminus Qcdiv Qcplus Q2Qc
         length Nat.leb].

Ltac settle :=
  repeat (run; match goal with
               | H : ?l = _ |- context [?l] => rewrite H
               end);
  run; try reflexivity.

Lemma cycle_step_frame a a' :
  cycle_step a a' ->
  _ratios_to_stdev a' = _ratios_to_stdev a /\
  measurement a' = measurement a /\
  measurement_from_zero a' = measurement_from_zero a /\
  weight a' = weight a /\
  _zero_offset a' = _zero_offset a /\
  _weight_multiple a' = _weight_multiple a /\
  _max_stdev a' = _max_stdev a /\
  _max_number_of_stdev_from_med a' = _max_number_of_stdev_from_med a /\
  _dout_pin a' = _dout_pin a.
Proof.
  intros [a0 | a0 w | a0 level | a0]; try (cbn; tauto).
  unfold _is_ready. destruct (_ready a0); cbn; tauto.
Qed.

(** Between the reset and the aggregation nothing is measured yet and
    no ratio is at hand. *)
Lemma in_batch_fields a :
  in_batch a ->
  _ratios_to_stdev a = [] /\ measurement a = None /\
  measurement_from_zero a = None.
Proof.
  induction 1 as [a0 | a0 a1 _ IH Hstep].
  - cbn. tauto.
  - apply cycle_step_frame in Hstep.
    destruct Hstep as (-> & -> & -> & _). exact IH.
Qed.

Lemma in_batch_shift_bits bits a :
  in_batch a ->
  in_batch (fold_left (fun a1 level => shift_in level a1) bits a).
Proof.
  revert a. induction bits as [| b bits IH]; intros a Ha; cbn [fold_left].
  - exact Ha.
  - apply IH. eapply batch_step; [ exact Ha | constructor ].
Qed.

Lemma in_batch_cycle_of v a : in_batch a -> in_batch (cycle_of v a).
Proof.
  intros Ha. unfold cycle_of.
  eapply batch_step; [ | apply step_finish_raw_read ].
  apply in_batch_shift_bits.
  eapply batch_step;
    [ | exact (step_is_ready (_init_raw_read a) Worlds.quiet) ].
  eapply batch_step; [ exact Ha | constructor ].
Qed.

Lemma in_batch_cycles raws a :
  in_batch a -> in_batch (fold_left (fun a1 v => cycle_of v a1) raws a).
Proof.
  revert a. induction raws as [| v raws IH]; intros a Ha; cbn [fold_left].
  - exact Ha.
  - apply IH, in_batch_cycle_of, Ha.
Qed.

Lemma in_batch_batch_of raws a : in_batch (batch_of raws a).
Proof. apply in_batch_cycles. constructor. Qed.

Lemma valid_reads_map_Some l : valid_reads (map Some l) = l.
Proof.
  induction l as [| v l IH]; [ reflexivity | ].
  cbn. unfold valid_reads in IH. rewrite IH. reflexivity.
Qed.

(** The branch taken when the spread is over [_max_stdev]: with no ratios
    at hand the loop keeps nothing and the aggregation fails. *)
Lemma calculate_over_max a :
  _ratios_to_stdev a = [] ->
  (2 <= length (valid_reads (reads a)))%nat ->
  Num.root_gtb (spread a) (_max_stdev a) = true ->
  fst (_calculate_measurement a) = Ok false /\
  _ready (snd (_calculate_measurement a)) = false /\
  _reads_filtered (snd (_calculate_measurement a)) = [] /\
  measurement (snd (_calculate_measurement a)) = measurement a /\
  measurement_from_zero (snd (_calculate_measurement a)) =
    measurement_from_zero a /\
  weight (snd (_calculate_measurement a)) = weight a.
Proof.
  intros Hratios Hlen Hover. unfold spread in Hover.
  destruct a as [pin zo wm rdy cur raws rs maxsd filt maxn med devs sd
                 ratios m mfz w].
  cbn [reads _ratios_to_stdev _max_stdev] in *. subst ratios.
  run.
  destruct (valid_reads rs) as [| r1 [| r2 l]];
    [ cbn in Hlen; lia | cbn in Hlen; lia | ].
  settle. repeat split.
Qed.

(** The two early returns: a measurement, and nothing else touched. *)
Lemma calculate_early a :
  single_valid a = true \/ zero_spread a = true ->
  fst (_calculate_measurement a) = Ok true /\
  (exists m, measurement (snd (_calculate_measurement a)) = Some m) /\
  measurement_from_zero (snd (_calculate_measurement a)) =
    measurement_from_zero a /\
  weight (snd (_calculate_measurement a)) = weight a /\
  _ready (snd (_calculate_measurement a)) = _ready a.
Proof.
  unfold single_valid, zero_spread, spread.
  destruct a as [pin zo wm rdy cur raws rs maxsd filt maxn med devs sd
                 ratios m mfz w].
  cbn [reads _max_stdev]. run.
  destruct (valid_reads rs) as [| r1 [| r2 l]]; run.
  - intros [H | H]; discriminate H.
  - intros _. repeat split. eexists. reflexivity.
  - intros [H | H]; [ discriminate H | ].
    apply andb_true_iff in H. destruct H as [H1 H2].
    apply negb_true_iff in H1, H2.
    settle. repeat split. eexists. reflexivity.
Qed.

(** [_calculate_measurement] by cases on the valid reads. *)
Lemma calculate_unfold a :
  _calculate_measurement a =
  match valid_reads (reads a) with
  | [] => (Ok false, set_reads_filtered [] a)
  | [r] => (Ok true, set_measurement (Some (Num.of_Z r))
                       (set_reads_filtered [r] a))
  | vals =>
      let med := Statistics.median vals in
      let devs := deviations med vals in
      let sd := Statistics.stdev devs in
      let a4 := set_read_stdev sd (set_devs_from_med devs
                  (set_read_med (Some med) (set_reads_filtered vals a))) in
      if Num.root_gtb sd (_max_stdev a)
      then filter_and_average (set_ready false a4)
      else if Num.root_nonzero sd
      then filter_and_average
             (set_ratios_to_stdev
                (map (fun dev => Num.div_root dev sd) devs) a4)
      else (Ok true, set_measurement (Some med) a4)
  end.
Proof.
  destruct a as [pin zo wm rdy cur raws rs maxsd filt maxn med devs sd
                 ratios m mfz w].
  unfold _calculate_measurement. run.
  destruct (valid_reads rs) as [| r1 [| r2 l]]; reflexivity.
Qed.

(** Aggregating again leaves the outcome and the device as they are: the
    computation starts from [reads], which it does not change. *)
Lemma calculate_again a :
  _calculate_measurement (snd (_calculate_measurement a)) =
  _calculate_measurement a.
Proof.
  rewrite (calculate_unfold (snd (_calculate_measurement a))).
  rewrite (calculate_unfold a).
  destruct a as [pin zo wm rdy cur raws rs maxsd filt maxn med devs sd
                 ratios m mfz w].
  cbn [reads _max_stdev].
  destruct (valid_reads rs) as [| r1 [| r2 l]] eqn:Hv; [ settle | settle | ].
  cbv zeta.
  match goal with
  | |- context [Num.root_gtb ?x maxsd] =>
      destruct (Num.root_gtb x maxsd) eqn:Hover
  end.
  - unfold filter_and_average at 2. run.
    destruct (filter_by_ratio maxn (r1 :: r2 :: l) ratios) eqn:Hf;
      [ settle | ].
    destruct (Num.eqb wm _) eqn:Hw; settle.
  - match goal with
    | |- context [Num.root_nonzero ?x] =>
        destruct (Num.root_nonzero x) eqn:Hnz
    end; [ | settle ].
    unfold filter_and_average at 2. run.
    match goal with
    | |- context [filter_by_ratio maxn ?v ?r] =>
        destruct (filter_by_ratio maxn v r) eqn:Hf
    end; [ settle | ].
    destruct (Num.eqb wm _) eqn:Hw; settle.
Qed.

(** What the outcome and the measurement depend on. *)
Lemma calculate_depends a b :
  valid_reads (reads a) = valid_reads (reads b) ->
  _ratios_to_stdev a = _ratios_to_stdev b ->
  _max_stdev a = _max_stdev b ->
  _max_number_of_stdev_from_med a = _max_number_of_stdev_from_med b ->
  _zero_offset a = _zero_offset b ->
  _weight_multiple a = _weight_multiple b ->
  measurement a = measurement b ->
  fst (_calculate_measurement a) = fst (_calculate_measurement b) /\
  measurement (snd (_calculate_measurement a)) =
    measurement (snd (_calculate_measurement b)) /\
  _reads_filtered (snd (_calculate_measurement a)) =
    _reads_filtered (snd (_calculate_measurement b)).
Proof.
  destruct a as [pin zo wm rdy cur raws rs maxsd filt maxn med devs sd
                 ratios m mfz w].
  destruct b as [pin' zo' wm' rdy' cur' raws' rs' maxsd' filt' maxn' med'
                 devs' sd' ratios' m' mfz' w'].
  cbn [reads _ratios_to_stdev _max_stdev _max_number_of_stdev_from_med
       _zero_offset _weight_multiple measurement].
  intros Hv <- <- <- <- <- <-. run. rewrite <- Hv. clear Hv.
  destruct (valid_reads rs) as [| r1 [| r2 l]]; settle;
    [ repeat split | repeat split | ].
  destruct (Num.root_gtb _ maxsd) eqn:Hover; settle.
  - destruct (filter_by_ratio maxn (r1 :: r2 :: l) ratios) eqn:Hf; settle;
      [ repeat split | ].
    destruct (Num.eqb wm _) eqn:Hw; settle; repeat split.
  - destruct (Num.root_nonzero _) eqn:Hnz; settle; [ | repeat split ].
    match goal with
    | |- context [filter_by_ratio maxn ?v ?r] =>
        destruct (filter_by_ratio maxn v r) eqn:Hf
    end; settle; [ repeat split | ].
    destruct (Num.eqb wm _) eqn:Hw; settle; repeat split.
Qed.

Ltac qc_eq := apply Qc_is_canon; vm_compute; reflexivity.

(** Canonical rationals are equal when their fractions are. *)
Lemma some_qc_eq (o : option Qc) (q : Qc) :
  option_map this o = Some (this q) -> o = Some q.
Proof.
  destruct o as [x |]; cbn; [ | discriminate ].
  intros H. injection H as H. f_equal. apply Qc_is_canon.
  rewrite H. reflexivity.
Qed.

Ltac value := apply some_qc_eq; vm_compute; reflexivity.

(** C1, as stated, fails.  The batch [10, 12, 1000] has median 12 and
    distances [2, 0, 988]; their standard deviation, the root of 324724,
    is over the ceiling of 100, so the aggregation does not reach the
    ratio filter: it fails, and no measurement of 11 is produced. *)
Lemma aggregation_10_12_1000_counterexample :
  let a := batch_of [10; 12; 1000] (init 5) in
  reads a = [Some 10; Some 12; Some 1000] /\
  ~ (fst (_calculate_measurement a) = Ok true /\
     measurement (snd (_calculate_measurement a)) = Some (Num.of_Z 11)).
Proof.
  cbv zeta. split; [ vm_compute; reflexivity | ].
  intros [H _]. vm_compute in H. discriminate H.
Qed.

(** C1, amended.  On a device inside a batch whose signed reads are
    [10, 12, 1000] the spread is the root of 324724, which is over 100:
    the aggregation clears the ready flag and fails, keeps no read and
    leaves [measurement] at [None]. *)
Theorem aggregation_10_12_1000 (a : t) :
  in_batch a ->
  _max_stdev a = Num.of_Z 100 ->
  reads a = [Some 10; Some 12; Some 1000] ->
  spread a = Num.Sqrt (Num.of_Z 324724) /\
  Num.root_gtb (spread a) (Num.of_Z 100) = true /\
  fst (_calculate_measurement a) = Ok false /\
  _ready (snd (_calculate_measurement a)) = false /\
  _reads_filtered (snd (_calculate_measurement a)) = [] /\
  measurement (snd (_calculate_measurement a)) = None.
Proof.
  intros Hb Hmax Hr.
  destruct (in_batch_fields a Hb) as (Hratios & Hm & _).
  assert (Hs : spread a = Num.Sqrt (Num.of_Z 324724)).
  { unfold spread. rewrite Hr. unfold Statistics.stdev. f_equal. qc_eq. }
  assert (Ho : Num.root_gtb (spread a) (Num.of_Z 100) = true).
  { rewrite Hs. vm_compute. reflexivity. }
  destruct (calculate_over_max a Hratios) as (H1 & H2 & H3 & H4 & _).
  - rewrite Hr. cbn. lia.
  - rewrite Hmax. exact Ho.
  - rewrite H4, Hm. tauto.
Qed.

Lemma aggregation_10_12_1000_witness :
  let a := batch_of [10; 12; 1000] (init 5) in
  in_batch a /\
  fst (_calculate_measurement a) = Ok false /\
  measurement (snd (_calculate_measurement a)) = None.
Proof.
  cbv zeta.
  split; [ apply in_batch_batch_of | ].
  destruct (aggregation_10_12_1000 (batch_of [10; 12; 1000] (init 5)))
    as (_ & _ & H1 & _ & _ & H2).
  - apply in_batch_batch_of.
  - vm_compute. reflexivity.
  - vm_compute. reflexivity.
  - split; assumption.
Defined.

(** C6.  For a device inside a batch with two valid signed reads or more,
    whenever the standard deviation of their distances to the median is
    over 100, the aggregation clears the ready flag and fails: it returns
    false and leaves [measurement] and [measurement_from_zero] at
    [None]. *)
Theorem excessive_spread_fails (a : t) :
  in_batch a ->
  _max_stdev a = Num.of_Z 100 ->
  (2 <= length (valid_reads (reads a)))%nat ->
  Num.root_gtb (spread a) (Num.of_Z 100) = true ->
  fst (_calculate_measurement a) = Ok false /\
  _ready (snd (_calculate_measurement a)) = false /\
  measurement (snd (_calculate_measurement a)) = None /\
  measurement_from_zero (snd (_calculate_measurement a)) = None.
Proof.
  intros Hb Hmax Hlen Hover.
  destruct (in_batch_fields a Hb) as (Hratios & Hm & Hz).
  rewrite <- Hmax in Hover.
  destruct (calculate_over_max a Hratios Hlen Hover)
    as (H1 & H2 & _ & H4 & H5 & _).
  rewrite H4, H5, Hm, Hz. tauto.
Qed.

Lemma excessive_spread_fails_witness :
  let a := batch_of [0; 0; 500] (init 5) in
  reads a = [Some 0; Some 0; Some 500] /\
  fst (_calculate_measurement a) = Ok false /\
  _ready (snd (_calculate_measurement a)) = false /\
  measurement (snd (_calculate_measurement a)) = None /\
  measurement_from_zero (snd (_calculate_measurement a)) = None.
Proof.
  cbv zeta. split; [ vm_compute; reflexivity | ].
  apply (excessive_spread_fails (batch_of [0; 0; 500] (init 5))).
  - apply in_batch_batch_of.
  - vm_compute. reflexivity.
  - vm_compute. lia.
  - vm_compute. reflexivity.
Defined.

(** C7, as stated, fails.  The batch [0, 0, 0, 0, 1, 10] aggregates to
    1/5 with survivors [0, 0, 0, 0, 1]; a batch made of these survivors
    aggregates to 0, the second pass excluding the 1. *)
Lemma filter_rerun_counterexample :
  let a := batch_of [0; 0; 0; 0; 1; 10] (init 5) in
  let a1 := snd (_calculate_measurement a) in
  let b := batch_of (_reads_filtered a1) a1 in
  fst (_calculate_measurement a) = Ok true /\
  _reads_filtered a1 = [0; 0; 0; 0; 1] /\
  reads b = map Some (_reads_filtered a1) /\
  fst (_calculate_measurement b) = Ok true /\
  measurement a1 = Some (Num.of_Z 1 / Num.of_Z 5)%Qc /\
  measurement (snd (_calculate_measurement b)) = Some (Num.of_Z 0) /\
  measurement (snd (_calculate_measurement b)) <> measurement a1.
Proof.
  cbv zeta.
  assert (H1 : measurement
                 (snd (_calculate_measurement
                         (batch_of [0; 0; 0; 0; 1; 10] (init 5)))) =
               Some (Num.of_Z 1 / Num.of_Z 5)%Qc).
  { value. }
  assert (H2 : measurement
                 (snd (_calculate_measurement
                    (batch_of
                       (_reads_filtered
                          (snd (_calculate_measurement
                                  (batch_of [0; 0; 0; 0; 1; 10] (init 5)))))
                       (snd (_calculate_measurement
                               (batch_of [0; 0; 0; 0; 1; 10] (init 5))))))) =
               Some (Num.of_Z 0)).
  { value. }
  split; [ vm_compute; reflexivity | ].
  split; [ vm_compute; reflexivity | ].
  split; [ vm_compute; reflexivity | ].
  split; [ vm_compute; reflexivity | ].
  split; [ exact H1 | ].
  split; [ exact H2 | ].
  rewrite H1, H2. intros H. injection H as H. vm_compute in H.
  discriminate H.
Qed.

(** When the first run succeeds and its filter excludes no value,
    aggregating a batch made of the survivors succeeds with the same
    measurement. *)
Lemma rerun_when_nothing_excluded (a b : t) :
  in_batch a -> in_batch b ->
  _max_stdev b = _max_stdev a ->
  _max_number_of_stdev_from_med b = _max_number_of_stdev_from_med a ->
  _zero_offset b = _zero_offset a ->
  _weight_multiple b = _weight_multiple a ->
  fst (_calculate_measurement a) = Ok true ->
  _reads_filtered (snd (_calculate_measurement a)) = valid_reads (reads a) ->
  reads b = map Some (_reads_filtered (snd (_calculate_measurement a))) ->
  fst (_calculate_measurement b) = Ok true /\
  measurement (snd (_calculate_measurement b)) =
    measurement (snd (_calculate_measurement a)).
Proof.
  intros Ha Hb Hsd Hn Hzo Hwm Hok Hkept Hreads.
  destruct (in_batch_fields a Ha) as (Hra & Hma & _).
  destruct (in_batch_fields b Hb) as (Hrb & Hmb & _).
  destruct (calculate_depends b a) as (H1 & H2 & _); try congruence.
  - rewrite Hreads, valid_reads_map_Some. exact Hkept.
  - rewrite H1, H2. split; [ exact Hok | reflexivity ].
Qed.

(** C9, as stated, fails for [weight].  After a batch [4, 5, 6] has set
    the weight to 5, a batch with the single read 7 takes the early return:
    [measurement] is 7, [measurement_from_zero] is [None], and [weight] is
    still 5, not [None]. *)
Lemma early_return_weight_counterexample :
  let a0 := snd (_calculate_measurement (batch_of [4; 5; 6] (init 5))) in
  let a := batch_of [7] a0 in
  in_batch a /\ single_valid a = true /\
  fst (_calculate_measurement a) = Ok true /\
  measurement (snd (_calculate_measurement a)) = Some (Num.of_Z 7) /\
  measurement_from_zero (snd (_calculate_measurement a)) = None /\
  weight (snd (_calculate_measurement a)) = Some (Num.of_Z 5) /\
  weight (snd (_calculate_measurement a)) <> None.
Proof.
  cbv zeta.
  assert (Hw : weight
                 (snd (_calculate_measurement
                    (batch_of [7]
                       (snd (_calculate_measurement
                               (batch_of [4; 5; 6] (init 5))))))) =
               Some (Num.of_Z 5)) by value.
  split; [ apply in_batch_batch_of | ].
  split; [ vm_compute; reflexivity | ].
  split; [ vm_compute; reflexivity | ].
  split; [ value | ].
  split; [ vm_compute; reflexivity | ].
  split; [ exact Hw | ].
  rewrite Hw. discriminate.
Qed.

(** C8, as stated, fails for [weight], which the specification counts
    among the measurement fields: a device that a batch [4, 5, 6] has
    left with the weight 5 still has the weight 5 after the reset, while
    [measurement] and [measurement_from_zero] are cleared. *)
Lemma init_set_of_reads_weight_counterexample :
  let a := snd (_calculate_measurement (batch_of [4; 5; 6] (init 5))) in
  weight a = Some (Num.of_Z 5) /\
  measurement (_init_set_of_reads a) = None /\
  measurement_from_zero (_init_set_of_reads a) = None /\
  weight (_init_set_of_reads a) = Some (Num.of_Z 5) /\
  weight (_init_set_of_reads a) <> None.
Proof.
  cbv zeta.
  assert (Hw : weight
                 (snd (_calculate_measurement (batch_of [4; 5; 6] (init 5))))
               = Some (Num.of_Z 5)) by value.
  split; [ exact Hw | ].
  assert (Hm : forall x, measurement (_init_set_of_reads x) = None)
    by reflexivity.
  assert (Hz : forall x, measurement_from_zero (_init_set_of_reads x) = None)
    by reflexivity.
  assert (Hkeep : forall x, weight (_init_set_of_reads x) = weight x)
    by reflexivity.
  rewrite Hm, Hz, Hkeep, Hw.
  split; [ reflexivity | ]. split; [ reflexivity | ].
  split; [ reflexivity | discriminate ].
Qed.

End Aggregation.

(* ------------------------------------------------------------------ *)
(** ** One read cycle                                                   *)
(* ------------------------------------------------------------------ *)

Section Cycle.

Import HX711 Effects.

Lemma same_lines_refl w : same_lines w w.
Proof. split; reflexivity. Qed.

Lemma same_lines_trans w1 w2 w3 :
  same_lines w1 w2 -> same_lines w2 w3 -> same_lines w1 w3.
Proof. intros [H1 H2] [H3 H4]. split; congruence. Qed.

Lemma same_lines_emit e w : same_lines w (GPIO.emit e w).
Proof. split; reflexivity. Qed.

Lemma cycle_steps_one a b : ADC.cycle_step a b -> cycle_steps a b.
Proof. intros H. eapply steps_more; [ apply steps_done | exact H ]. Qed.

Lemma cycle_steps_trans a b c :
  cycle_steps a b -> cycle_steps b c -> cycle_steps a c.
Proof.
  intros Hab Hbc. induction Hbc as [| b c1 c2 _ IH Hstep].
  - exact Hab.
  - eapply steps_more; [ apply IH, Hab | exact Hstep ].
Qed.

Lemma polled_refl lv a : polled lv a a.
Proof. repeat split; auto. Qed.

Lemma polled_trans lv a b c : polled lv a b -> polled lv b c -> polled lv a c.
Proof.
  intros (H1 & H2 & H3) (H4 & H5 & H6).
  assert (Hpin : ADC._dout_pin b = ADC._dout_pin a).
  { apply (f_equal ADC._dout_pin) in H1. exact H1. }
  split; [ congruence | ]. split; [ auto | ].
  intros Hs Hr. apply H6; [ rewrite Hpin; exact Hs | auto ].
Qed.

Lemma Forall2_same {A} (R : A -> A -> Prop) l :
  (forall a, R a a) -> Forall2 R l l.
Proof. intros H. induction l; constructor; auto. Qed.

Lemma Forall2_map_right {A} (R : A -> A -> Prop) f l :
  (forall a, R a (f a)) -> Forall2 R l (map f l).
Proof. intros H. induction l; cbn; constructor; auto. Qed.

Lemma Forall2_chain {A} (R : A -> A -> Prop) l1 l2 l3 :
  (forall a b c, R a b -> R b c -> R a c) ->
  Forall2 R l1 l2 -> Forall2 R l2 l3 -> Forall2 R l1 l3.
Proof.
  intros Ht H12. revert l3.
  induction H12 as [| a b l1 l2 Hab _ IH]; intros l3 H23;
    inversion H23; subst; constructor; eauto.
Qed.

Lemma Forall2_weaken {A} (R S : A -> A -> Prop) l1 l2 :
  (forall a b, R a b -> S a b) -> Forall2 R l1 l2 -> Forall2 S l1 l2.
Proof. intros H H12. induction H12; constructor; auto. Qed.

Lemma same_config_refl h : same_config h h.
Proof. reflexivity. Qed.

Lemma same_config_set_adcs adcs h : same_config h (set_adcs adcs h).
Proof. reflexivity. Qed.

Lemma same_config_trans h1 h2 h3 :
  same_config h1 h2 -> same_config h2 h3 -> same_config h1 h3.
Proof. unfold same_config. congruence. Qed.

Lemma same_config_fields h h' :
  same_config h h' ->
  _sck_pin h' = _sck_pin h /\ _all_or_nothing h' = _all_or_nothing h /\
  _single_adc h' = _single_adc h /\
  _channel_select h' = _channel_select h /\
  _channel_A_gain h' = _channel_A_gain h.
Proof.
  unfold same_config. intros H.
  repeat split;
    [ apply (f_equal _sck_pin) in H | apply (f_equal _all_or_nothing) in H
    | apply (f_equal _single_adc) in H
    | apply (f_equal _channel_select) in H
    | apply (f_equal _channel_A_gain) in H ]; exact H.
Qed.

Lemma runs_refl (R : ADC.t -> ADC.t -> Prop) s :
  (forall a, R a a) -> runs R s s.
Proof.
  intros H. split; [ reflexivity | ].
  split; [ apply same_lines_refl | apply Forall2_same, H ].
Qed.

Lemma runs_trans (R : ADC.t -> ADC.t -> Prop) s1 s2 s3 :
  (forall a b c, R a b -> R b c -> R a c) ->
  runs R s1 s2 -> runs R s2 s3 -> runs R s1 s3.
Proof.
  intros Ht (H1 & H2 & H3) (H4 & H5 & H6).
  split; [ eapply same_config_trans; eassumption | ].
  split; [ eapply same_lines_trans; eassumption | ].
  eapply Forall2_chain; eassumption.
Qed.

Lemma runs_weaken (R S : ADC.t -> ADC.t -> Prop) s s' :
  (forall a b, R a b -> S a b) -> runs R s s' -> runs S s s'.
Proof.
  intros H (H1 & H2 & H3). split; [ exact H1 | ].
  split; [ exact H2 | eapply Forall2_weaken; eassumption ].
Qed.

(** *** Polling *)

Lemma polling_refl lv a : polling lv a a.
Proof. split; [ apply polled_refl | apply steps_done ]. Qed.

Lemma polling_trans lv a b c :
  polling lv a b -> polling lv b c -> polling lv a c.
Proof.
  intros [H1 H2] [H3 H4].
  split; [ eapply polled_trans | eapply cycle_steps_trans ]; eassumption.
Qed.

Lemma is_ready_spec a w :
  exists r a' w',
    ADC._is_ready a w = (r, a', w') /\
    r = ADC._ready a' /\
    polling (GPIO.levels w) a a' /\
    same_lines w w' /\
    (forall sck, GPIO.pulses sck (GPIO.trace w') =
                 GPIO.pulses sck (GPIO.trace w)) /\
    GPIO.sleeps (GPIO.trace w') = GPIO.sleeps (GPIO.trace w).
Proof.
  assert (Hstep : ADC.cycle_step a (snd (fst (ADC._is_ready a w))))
    by constructor.
  unfold ADC._is_ready in *. destruct (ADC._ready a) eqn:Hr.
  - exists true, a, w. cbn in Hstep.
    repeat split; auto using polling_refl, same_lines_refl.
    + apply steps_done.
  - cbn in Hstep |- *. eexists _, _, _. split; [ reflexivity | ].
    split; [ reflexivity | ]. split; [ | repeat split ].
    split; [ | apply cycle_steps_one, Hstep ].
    split; [ reflexivity | ]. split; [ congruence | ].
    intros Hs _. cbn. unfold GPIO.now. rewrite Hs. reflexivity.
Qed.

Lemma poll_spec adcs w :
  exists rs adcs' w',
    poll adcs w = (rs, adcs', w') /\
    rs = map ADC._ready adcs' /\
    Forall2 (polling (GPIO.levels w)) adcs adcs' /\
    same_lines w w' /\
    (forall sck, GPIO.pulses sck (GPIO.trace w') =
                 GPIO.pulses sck (GPIO.trace w)) /\
    GPIO.sleeps (GPIO.trace w') = GPIO.sleeps (GPIO.trace w).
Proof.
  revert w. induction adcs as [| a adcs IH]; intros w; cbn [poll].
  - exists [], [], w. repeat split; auto using same_lines_refl.
  - destruct (is_ready_spec a w)
      as (r & a1 & w1 & E1 & Hr & Hp & Hl & Hpu & Hsl).
    rewrite E1.
    destruct (IH w1) as (rs & adcs1 & w2 & E2 & Hrs & Hf & Hl2 & Hpu2 & Hsl2).
    rewrite E2. exists (r :: rs), (a1 :: adcs1), w2.
    split; [ reflexivity | ]. split; [ cbn; congruence | ].
    split.
    { constructor; [ exact Hp | ].
      destruct Hl as [Hlv _]. rewrite Hlv in Hf. exact Hf. }
    split; [ eapply same_lines_trans; eassumption | ].
    split; [ intros sck; rewrite Hpu2; apply Hpu | congruence ].
Qed.

Lemma poll_adcs_spec s :
  exists rs s',
    poll_adcs s = (Ok rs, s') /\
    rs = map ADC._ready (_adcs (self s')) /\
    runs (polling (GPIO.levels (world s))) s s' /\
    pulses s' = pulses s /\ sleeps s' = sleeps s.
Proof.
  unfold poll_adcs.
  destruct (poll_spec (_adcs (self s)) (world s))
    as (rs & adcs1 & w1 & E & Hrs & Hf & Hl & Hpu & Hsl).
  rewrite E. eexists _, _. split; [ reflexivity | ].
  split; [ exact Hrs | ]. split; [ | split; [ apply Hpu | exact Hsl ] ].
  split; [ apply same_config_set_adcs | ]. split; assumption.
Qed.

Lemma stuck_stays lv adcs adcs' :
  Forall2 (polling lv) adcs adcs' ->
  Exists (stuck lv) adcs -> Exists (stuck lv) adcs'.
Proof.
  induction 1 as [| a a' adcs adcs' [(Hset & _ & Hst) _] _ IH];
    intros Hex; inversion Hex as [? ? [Hr Hs] | ? ? Hrest]; subst.
  - apply Exists_cons_hd. split; [ auto | ].
    apply (f_equal ADC._dout_pin) in Hset. cbn in Hset.
    rewrite Hset. exact Hs.
  - apply Exists_cons_tl, IH, Hrest.
Qed.

Lemma stuck_not_all_ready lv adcs :
  Exists (stuck lv) adcs -> forallb ADC._ready adcs = false.
Proof.
  induction 1 as [a adcs [Hr _] | a adcs _ IH]; cbn.
  - rewrite Hr. reflexivity.
  - rewrite IH. apply andb_false_r.
Qed.

Lemma forallb_id_map {A} (f : A -> bool) l :
  forallb id (map f l) = forallb f l.
Proof. induction l; cbn; [ | rewrite IHl ]; reflexivity. Qed.

(** The polling loop: at most [n] rounds; all [n] of them, each followed
    by a sleep, when a device is stuck. *)
Lemma poll_loop_spec n s :
  exists k s',
    poll_loop n s = (Ok k, s') /\
    runs (polling (GPIO.levels (world s))) s s' /\
    pulses s' = pulses s /\
    (k <= n)%nat /\
    (Exists (stuck (GPIO.levels (world s))) (_adcs (self s)) ->
     k = n /\ sleeps s' = (sleeps s + n)%nat).
Proof.
  revert s. induction n as [| n IH]; intros s; cbn [poll_loop].
  - exists O, s. split; [ reflexivity | ].
    split; [ apply runs_refl, polling_refl | ].
    repeat split; auto with arith.
  - unfold bind at 1.
    destruct (poll_adcs_spec s) as (rs & s1 & E1 & Hrs & Hrun & Hpu & Hsl).
    rewrite E1. rewrite Hrs, forallb_id_map.
    destruct (forallb ADC._ready (_adcs (self s1))) eqn:Hall.
    + exists 1%nat, s1. split; [ reflexivity | ].
      split; [ exact Hrun | ]. split; [ exact Hpu | ].
      split; [ auto with arith | ].
      intros Hex. destruct Hrun as (_ & _ & Hf).
      apply (stuck_stays _ _ _ Hf), stuck_not_all_ready in Hex.
      congruence.
    + unfold bind, act. cbn [self world].
      set (s2 := mkState (self s1) (GPIO.sleep 10 (world s1))).
      destruct (IH s2) as (k & s3 & E3 & Hrun3 & Hpu3 & Hk & Hst3).
      rewrite E3. unfold ret. exists (S k), s3.
      split; [ reflexivity | ].
      assert (Hlv : GPIO.levels (world s2) = GPIO.levels (world s)).
      { destruct Hrun as (_ & [Hl _] & _). exact Hl. }
      rewrite Hlv in Hrun3, Hst3.
      assert (Hrun2 : runs (polling (GPIO.levels (world s))) s s2).
      { destruct Hrun as (Hc & Hl & Hf). split; [ exact Hc | ].
        split; [ | exact Hf ].
        eapply same_lines_trans; [ exact Hl | apply same_lines_emit ]. }
      split; [ eapply runs_trans;
               [ apply polling_trans | exact Hrun2 | exact Hrun3 ] | ].
      split; [ rewrite Hpu3; exact Hpu | ].
      split; [ auto with arith | ].
      intros Hex.
      destruct Hrun2 as (_ & _ & Hf2).
      destruct (Hst3 (stuck_stays _ _ _ Hf2 Hex)) as [-> Hsl3].
      split; [ reflexivity | ].
      assert (Hs2 : sleeps s2 = S (sleeps s1)) by reflexivity.
      lia.
Qed.

(** [_prepare_to_read]: no clock pulse; with a stuck device, twenty
    rounds and twenty sleeps, the answer false, and the report of twenty
    rounds as the last event. *)
Lemma prepare_to_read_spec s :
  exists r s',
    _prepare_to_read s = (Ok r, s') /\
    runs (polling (GPIO.levels (world s))) s s' /\
    pulses s' = pulses s /\
    r = forallb ADC._ready (_adcs (self s')) /\
    (Exists (stuck (GPIO.levels (world s))) (_adcs (self s)) ->
     r = false /\ sleeps s' = (sleeps s + 20)%nat /\
     exists evs, GPIO.trace (world s') =
                 GPIO.Log (GPIO.NotReadyAfter 20) :: evs).
Proof.
  unfold _prepare_to_read, bind at 1, get. unfold bind at 1, act.
  cbn [self world].
  set (s1 := mkState (self s) (GPIO.output (_sck_pin (self s)) false
                                 (world s))).
  unfold bind at 1.
  destruct (poll_loop_spec 20 s1) as (k & s2 & E & Hrun & Hpu & Hk & Hst).
  rewrite E. unfold bind, get, act, ret. cbn [self world].
  eexists _, _. split; [ reflexivity | ].
  assert (Hrun1 : runs (polling (GPIO.levels (world s))) s s1).
  { split; [ reflexivity | ]. split; [ apply same_lines_emit | ].
    apply Forall2_same, polling_refl. }
  change (GPIO.levels (world s1)) with (GPIO.levels (world s)) in *.
  assert (Hrun2 : runs (polling (GPIO.levels (world s))) s s2).
  { eapply runs_trans; [ apply polling_trans | exact Hrun1 | exact Hrun ]. }
  assert (Hsck : _sck_pin (self s2) = _sck_pin (self s)).
  { destruct Hrun2 as (Hc & _). apply same_config_fields in Hc. tauto. }
  split.
  { destruct Hrun2 as (Hc & Hl & Hf). split; [ exact Hc | ].
    split; [ | exact Hf ].
    eapply same_lines_trans; [ exact Hl | apply same_lines_emit ]. }
  split.
  { unfold pulses in *. cbn [self world GPIO.log GPIO.emit GPIO.trace].
    unfold GPIO.pulses in *. cbn [filter GPIO.is_pulse].
    rewrite Hpu. unfold s1. cbn [self world GPIO.output GPIO.emit
                                 GPIO.trace filter GPIO.is_pulse].
    reflexivity. }
  split; [ reflexivity | ].
  intros Hex. destruct (Hst Hex) as [-> Hsl].
  destruct Hrun2 as (_ & _ & Hf).
  apply (stuck_stays _ _ _ Hf), stuck_not_all_ready in Hex.
  rewrite Hex. split; [ reflexivity | ].
  split; [ | eexists; reflexivity ].
  unfold sleeps in *. cbn [world GPIO.log GPIO.emit GPIO.trace].
  unfold GPIO.sleeps in *. cbn [filter GPIO.is_sleep].
  rewrite Hsl. unfold s1. cbn. reflexivity.
Qed.

(** *** Clock pulses *)

Lemma pulse_sck_high_spec s :
  exists r s',
    _pulse_sck_high s = (Ok r, s') /\
    self s' = self s /\
    same_lines (world s) (world s') /\
    pulses s' = S (pulses s).
Proof.
  unfold _pulse_sck_high, bind, get, ask, act, ret. cbn [self world].
  assert (Hp : forall w evs,
             GPIO.pulses (_sck_pin (self s))
               (evs ++ GPIO.Output (_sck_pin (self s)) false
                    :: GPIO.Output (_sck_pin (self s)) true
                    :: GPIO.trace w) =
             (GPIO.pulses (_sck_pin (self s)) evs +
              S (GPIO.pulses (_sck_pin (self s)) (GPIO.trace w)))%nat).
  { intros w evs. unfold GPIO.pulses.
    rewrite filter_app, length_app. cbn [filter GPIO.is_pulse].
    rewrite Z.eqb_refl. reflexivity. }
  destruct (GPIO.pulse_overruns (world s)); eexists _, _;
    (split; [ reflexivity | ]); (split; [ reflexivity | ]);
    (split; [ split; reflexivity | ]); unfold pulses; cbn [self world].
  - apply (Hp (world s) [GPIO.Log GPIO.PulseTooLong]).
  - apply (Hp (world s) []).
Qed.

Lemma pulse_times_spec n s :
  exists r s',
    pulse_times n s = (Ok r, s') /\
    self s' = self s /\
    same_lines (world s) (world s') /\
    (pulses s' <= pulses s + n)%nat /\
    (r = true -> pulses s' = (pulses s + n)%nat).
Proof.
  revert s. induction n as [| n IH]; intros s; cbn [pulse_times].
  - exists true, s. repeat split; auto with arith.
  - unfold bind at 1.
    destruct (pulse_sck_high_spec s) as (ok & s1 & E & Hself & Hl & Hpu).
    rewrite E. destruct ok.
    + destruct (IH s1) as (r & s2 & E2 & Hself2 & Hl2 & Hle & Heq).
      rewrite E2. exists r, s2. split; [ reflexivity | ].
      split; [ congruence | ].
      split; [ eapply same_lines_trans; eassumption | ].
      split; [ lia | ]. intros Hr. rewrite (Heq Hr). lia.
    + exists false, s1. split; [ reflexivity | ].
      split; [ exact Hself | ]. split; [ exact Hl | ].
      split; [ lia | discriminate ].
Qed.

(** *** Shifting *)

Lemma shift_spec adcs w :
  exists adcs' w',
    shift adcs w = (adcs', w') /\
    Forall2 cycle_steps adcs adcs' /\
    same_lines w w' /\
    (forall sck, GPIO.pulses sck (GPIO.trace w') =
                 GPIO.pulses sck (GPIO.trace w)).
Proof.
  revert w. induction adcs as [| a adcs IH]; intros w; cbn [shift].
  - exists [], w. repeat split; auto using same_lines_refl.
  - assert (H1 : exists a1 w1,
               (if ADC._ready a then ADC._shift_and_read a w else (a, w)) =
                 (a1, w1) /\
               cycle_steps a a1 /\ same_lines w w1 /\
               forall sck, GPIO.pulses sck (GPIO.trace w1) =
                           GPIO.pulses sck (GPIO.trace w)).
    { destruct (ADC._ready a).
      - unfold ADC._shift_and_read. cbn. eexists _, _.
        split; [ reflexivity | ].
        split; [ apply cycle_steps_one; constructor | ].
        split; [ split; reflexivity | reflexivity ].
      - exists a, w. repeat split; auto using steps_done. }
    destruct H1 as (a1 & w1 & E1 & Hs & Hl & Hpu). rewrite E1.
    destruct (IH w1) as (adcs1 & w2 & E2 & Hf & Hl2 & Hpu2). rewrite E2.
    exists (a1 :: adcs1), w2. split; [ reflexivity | ].
    split; [ constructor; assumption | ].
    split; [ eapply same_lines_trans; eassumption | ].
    intros sck. rewrite Hpu2. apply Hpu.
Qed.

Lemma shift_adcs_spec s :
  exists s',
    shift_adcs s = (Ok tt, s') /\
    runs cycle_steps s s' /\ pulses s' = pulses s.
Proof.
  unfold shift_adcs.
  destruct (shift_spec (_adcs (self s)) (world s))
    as (adcs1 & w1 & E & Hf & Hl & Hpu).
  rewrite E. eexists. split; [ reflexivity | ].
  split; [ | apply Hpu ].
  split; [ apply same_config_set_adcs | ]. split; assumption.
Qed.

Lemma read_bits_spec n s :
  exists r s',
    read_bits n s = (Ok r, s') /\
    runs cycle_steps s s' /\
    (pulses s' <= pulses s + n)%nat /\
    (r = true -> pulses s' = (pulses s + n)%nat).
Proof.
  revert s. induction n as [| n IH]; intros s; cbn [read_bits].
  - exists true, s. split; [ reflexivity | ].
    split; [ apply runs_refl, steps_done | ].
    split; [ lia | intros _; lia ].
  - unfold bind at 1.
    destruct (pulse_sck_high_spec s) as (ok & s1 & E & Hself & Hl & Hpu).
    rewrite E.
    assert (Hrun1 : runs cycle_steps s s1).
    { split; [ rewrite Hself; reflexivity | ].
      split; [ exact Hl | ]. rewrite Hself.
      apply Forall2_same, steps_done. }
    destruct ok.
    + unfold bind at 1.
      destruct (shift_adcs_spec s1) as (s2 & E2 & Hrun2 & Hpu2).
      rewrite E2.
      destruct (IH s2) as (r & s3 & E3 & Hrun3 & Hle & Heq).
      rewrite E3. exists r, s3. split; [ reflexivity | ].
      split.
      { eapply runs_trans;
          [ apply cycle_steps_trans | | exact Hrun3 ].
        eapply runs_trans;
          [ apply cycle_steps_trans | exact Hrun1 | exact Hrun2 ]. }
      split; [ lia | ]. intros Hr. rewrite (Heq Hr). lia.
    + exists false, s1. split; [ reflexivity | ].
      split; [ exact Hrun1 | ]. split; [ lia | discriminate ].
Qed.

Lemma write_channel_gain_spec s :
  exists r s',
    _write_channel_gain s = (Ok r, s') /\
    self s' = self s /\
    same_lines (world s) (world s') /\
    (pulses s' <= pulses s + num_pulses (self s))%nat /\
    (r = true -> pulses s' = (pulses s + num_pulses (self s))%nat).
Proof.
  unfold _write_channel_gain, bind, get.
  apply pulse_times_spec.
Qed.

(** The extra pulses by channel and gain. *)
Lemma num_pulses_cases h :
  (_channel_select h = "A"%string -> _channel_A_gain h = 128 ->
   num_pulses h = 1%nat) /\
  (_channel_select h = "A"%string -> _channel_A_gain h = 64 ->
   num_pulses h = 3%nat) /\
  (_channel_select h = "B"%string -> num_pulses h = 2%nat).
Proof.
  unfold num_pulses.
  repeat split; intros; repeat match goal with H : _ = _ |- _ =>
                                 rewrite H end; reflexivity.
Qed.

(** One cycle: every device goes through cycle steps; at most
    [24 + num_pulses] pulses, and exactly so many when the cycle
    succeeds. *)
Lemma read_spec s :
  exists r s',
    _read s = (Ok r, s') /\
    runs cycle_steps s s' /\
    (pulses s' <= pulses s + 24 + num_pulses (self s))%nat /\
    (r = true -> pulses s' = (pulses s + 24 + num_pulses (self s))%nat).
Proof.
  unfold _read, bind at 1, each_adc.
  set (s1 := mkState _ (world s)).
  assert (Hrun1 : runs cycle_steps s s1).
  { split; [ apply same_config_set_adcs | ].
    split; [ apply same_lines_refl | ].
    apply Forall2_map_right. intros a. apply cycle_steps_one. constructor. }
  assert (Hpu1 : pulses s1 = pulses s) by reflexivity.
  assert (Hnp : forall s', same_config (self s) (self s') ->
                           num_pulses (self s') = num_pulses (self s)).
  { intros s' Hc. apply same_config_fields in Hc.
    destruct Hc as (_ & _ & _ & Hch & Hg). unfold num_pulses.
    rewrite Hch, Hg. reflexivity. }
  unfold bind at 1.
  destruct (prepare_to_read_spec s1) as (ready & s2 & E2 & Hrun2 & Hpu2 & _).
  rewrite E2. unfold bind at 1, get.
  apply (runs_weaken _ cycle_steps) in Hrun2; [ | intros a b [_ H]; exact H ].
  assert (Hrun12 : runs cycle_steps s s2).
  { eapply runs_trans; [ apply cycle_steps_trans | exact Hrun1 | exact Hrun2 ]. }
  destruct (negb ready && _all_or_nothing (self s2)).
  { exists false, s2. split; [ reflexivity | ].
    split; [ exact Hrun12 | ]. split; [ lia | discriminate ]. }
  unfold bind at 1.
  destruct (read_bits_spec 24 s2) as (ok & s3 & E3 & Hrun3 & Hle3 & Heq3).
  rewrite E3.
  assert (Hrun13 : runs cycle_steps s s3).
  { eapply runs_trans; [ apply cycle_steps_trans | exact Hrun12 | exact Hrun3 ]. }
  destruct ok; cbn [negb].
  2:{ exists false, s3. split; [ reflexivity | ].
      split; [ exact Hrun13 | ]. split; [ lia | discriminate ]. }
  unfold bind at 1, each_adc.
  set (s4 := mkState _ (world s3)).
  assert (Hrun4 : runs cycle_steps s s4).
  { eapply runs_trans; [ apply cycle_steps_trans | exact Hrun13 | ].
    split; [ apply same_config_set_adcs | ].
    split; [ apply same_lines_refl | ].
    apply Forall2_map_right. intros a.
    destruct (ADC._ready a);
      [ apply cycle_steps_one; constructor | apply steps_done ]. }
  assert (Hpu4 : pulses s4 = pulses s3) by reflexivity.
  unfold bind at 1.
  destruct (write_channel_gain_spec s4) as (ok & s5 & E5 & Hself & Hl5 & Hle5 & Heq5).
  rewrite E5.
  assert (Hrun5 : runs cycle_steps s s5).
  { destruct Hrun4 as (Hc & Hl & Hf). unfold runs. rewrite Hself.
    split; [ exact Hc | ]. split; [ | exact Hf ].
    eapply same_lines_trans; eassumption. }
  rewrite (Hnp s4) in Hle5, Heq5 by (destruct Hrun4 as (Hc & _); exact Hc).
  specialize (Heq3 eq_refl).
  destruct ok; cbn [negb]; unfold ret; eexists _, s5;
    (split; [ reflexivity | ]); (split; [ exact Hrun5 | ]).
  - specialize (Heq5 eq_refl). split; [ lia | intros _; lia ].
  - split; [ lia | discriminate ].
Qed.

End Cycle.

(* ------------------------------------------------------------------ *)
(** ** The readiness budget and the pulse count                         *)
(* ------------------------------------------------------------------ *)

Section CycleClaims.

Import HX711 Effects.

Lemma Forall2_map_left {A} (R : A -> A -> Prop) (f : A -> A) l l' :
  Forall2 R (map f l) l' -> Forall2 (fun a a' => R (f a) a') l l'.
Proof.
  revert l'. induction l as [| a l IH]; intros l' H; cbn in H;
    inversion H; subst; constructor; auto.
Qed.

(** With [all_or_nothing] set and a device whose data line never reads
    0: twenty sleeps, the report of twenty rounds, no pulse, the answer
    false, and the histories as they were. *)
Lemma never_ready_cycle_spec (s : state) :
  _all_or_nothing (self s) = true ->
  Exists (fun a => forall t,
              GPIO.levels (world s) t (ADC._dout_pin a) = true)
         (_adcs (self s)) ->
  exists s',
    _read s = (Ok false, s') /\
    sleeps s' = (sleeps s + 20)%nat /\
    (exists evs, GPIO.trace (world s') =
                 GPIO.Log (GPIO.NotReadyAfter 20) :: evs) /\
    pulses s' = pulses s /\
    Forall2 (fun a a' => ADC._current_raw_read a' = 0 /\
                         ADC.raw_reads a' = ADC.raw_reads a /\
                         ADC.reads a' = ADC.reads a /\
                         ((forall t, GPIO.levels (world s) t
                                       (ADC._dout_pin a) = true) ->
                          ADC._ready a' = false))
            (_adcs (self s)) (_adcs (self s')).
Proof.
  intros Hall Hex.
  unfold _read, bind at 1, each_adc.
  set (s1 := mkState _ (world s)).
  assert (Hst : Exists (stuck (GPIO.levels (world s1))) (_adcs (self s1))).
  { unfold s1. cbn [self world _adcs set_adcs].
    clear - Hex. induction Hex as [a l H | a l _ IH]; cbn [map].
    - apply Exists_cons_hd. split; [ reflexivity | exact H ].
    - apply Exists_cons_tl, IH. }
  unfold bind at 1.
  destruct (prepare_to_read_spec s1)
    as (ready & s2 & E2 & Hrun2 & Hpu2 & _ & Hstuck).
  rewrite E2. destruct (Hstuck Hst) as (-> & Hsl & Hlog).
  unfold bind, get. cbn [negb andb].
  destruct Hrun2 as (Hc & _ & Hf).
  assert (Hall2 : _all_or_nothing (self s2) = true).
  { apply same_config_fields in Hc. destruct Hc as (_ & Ha & _).
    rewrite Ha. exact Hall. }
  rewrite Hall2. unfold ret. exists s2. split; [ reflexivity | ].
  split; [ exact Hsl | ]. split; [ exact Hlog | ].
  split; [ exact Hpu2 | ].
  unfold s1 in Hf. cbn [self _adcs set_adcs] in Hf.
  apply Forall2_map_left in Hf.
  eapply Forall2_weaken; [ | exact Hf ].
  intros a a' [(Hset & _ & Hstay) _]. cbn beta in Hset, Hstay.
  split; [ apply (f_equal ADC._current_raw_read) in Hset; exact Hset | ].
  split; [ apply (f_equal ADC.raw_reads) in Hset; exact Hset | ].
  split; [ apply (f_equal ADC.reads) in Hset; exact Hset | ].
  intros Hhigh. apply Hstay; [ exact Hhigh | reflexivity ].
Qed.

(** C4, as stated, fails.  With [all_or_nothing] set and the lines never
    reading 0 the cycle on channel A at gain 128 issues no pulse at all,
    not the 25 of a full cycle. *)
Lemma cycle_pulses_counterexample :
  let s := mkState (Examples.two_devices true) Worlds.stuck in
  fst (_read s) = Ok false /\
  pulses (snd (_read s)) = 0%nat /\
  num_pulses (self s) = 1%nat /\
  pulses (snd (_read s)) <> (pulses s + 24 + num_pulses (self s))%nat.
Proof.
  cbv zeta. split; [ vm_compute; reflexivity | ].
  split; [ vm_compute; reflexivity | ].
  split; [ reflexivity | ].
  vm_compute. discriminate.
Qed.

End CycleClaims.

(* ------------------------------------------------------------------ *)
(** ** A batch: [read_raw]                                              *)
(* ------------------------------------------------------------------ *)

Section Batch.

Import HX711 Effects.

Lemma read_times_spec n s :
  exists s', read_times n s = (Ok tt, s') /\ runs cycle_steps s s'.
Proof.
  revert s. induction n as [| n IH]; intros s; cbn [read_times].
  - exists s. split; [ reflexivity | apply runs_refl, steps_done ].
  - unfold bind at 1.
    destruct (read_spec s) as (r & s1 & E & Hrun & _). rewrite E.
    destruct (IH s1) as (s2 & E2 & Hrun2). rewrite E2.
    exists s2. split; [ reflexivity | ].
    eapply runs_trans; [ apply cycle_steps_trans | eassumption .. ].
Qed.

Lemma in_batch_steps a0 a :
  cycle_steps (ADC._init_set_of_reads a0) a -> ADC.in_batch a.
Proof.
  remember (ADC._init_set_of_reads a0) as a1 eqn:E.
  induction 1 as [| a1 a2 a3 _ IH Hstep]; subst.
  - constructor.
  - eapply ADC.batch_step; [ apply IH; reflexivity | exact Hstep ].
Qed.

Lemma cycle_steps_frame a a' :
  cycle_steps a a' ->
  ADC.weight a' = ADC.weight a /\
  ADC._weight_multiple a' = ADC._weight_multiple a /\
  ADC._zero_offset a' = ADC._zero_offset a.
Proof.
  induction 1 as [| a a1 a2 _ IH Hstep]; [ tauto | ].
  apply cycle_step_frame in Hstep.
  destruct Hstep as (_ & _ & _ & Hw & Hz & Hm & _).
  destruct IH as (IH1 & IH2 & IH3). repeat split; congruence.
Qed.

(** The loop over the ready devices, for a method [f]. *)
Lemma for_ready_spec {A} (f : ADC.t -> result A * ADC.t) adcs :
  length (snd (for_ready f adcs)) = length adcs /\
  (fst (for_ready f adcs) = Ok tt ->
   Forall2 (fun a a' =>
              (ADC._ready a = true /\ a' = snd (f a) /\
               exists b, fst (f a) = Ok b) \/
              (ADC._ready a = false /\ a' = a))
           adcs (snd (for_ready f adcs))) /\
  (Forall (fun a => exists b, fst (f a) = Ok b) adcs ->
   fst (for_ready f adcs) = Ok tt).
Proof.
  induction adcs as [| a adcs (IH1 & IH2 & IH3)]; cbn [for_ready].
  - repeat split; constructor.
  - destruct (ADC._ready a) eqn:Hr.
    + destruct (f a) as [[b | e] a1] eqn:Ef.
      * destruct (for_ready f adcs) as [r rest]. cbn [fst snd] in *.
        split; [ cbn [length]; congruence | ].
        split.
        -- intros Hok. constructor; [ | auto ].
           left. rewrite Ef. cbn. eauto.
        -- intros Hall. inversion Hall; subst. auto.
      * cbn [fst snd length]. split; [ reflexivity | ].
        split; [ discriminate | ].
        intros Hall. inversion Hall as [| ? ? [b Hb] _]; subst.
        rewrite Ef in Hb. discriminate.
    + destruct (for_ready f adcs) as [r rest]. cbn [fst snd] in *.
      split; [ cbn [length]; congruence | ].
      split.
      * intros Hok. constructor; [ right; auto | auto ].
      * intros Hall. inversion Hall; subst. auto.
Qed.

Lemma eqb_zero_false (x : Qc) : x <> 0%Qc -> Num.eqb x 0%Qc = false.
Proof.
  intros Hx. unfold Num.eqb.
  destruct (x ?= 0)%Qc eqn:Hc; try reflexivity.
  apply Qceq_alt in Hc. contradiction.
Qed.

(** With a weight multiple that is not zero the aggregation returns. *)
Lemma calculate_returns a :
  ADC._weight_multiple a <> 0%Qc ->
  exists b, fst (ADC._calculate_measurement a) = Ok b.
Proof.
  intros Hw. apply eqb_zero_false in Hw.
  unfold ADC._calculate_measurement, ADC.filter_and_average.
  destruct a as [pin zo wm rdy cur raws rs maxsd filt maxn med devs sd
                 ratios m mfz w].
  cbn [ADC._weight_multiple] in Hw.
  lazy -[Statistics.median Statistics.stdev Statistics.mean Num.root_gtb
         Num.root_leb Num.root_nonzero Num.eqb Num.div_root Num.of_Z
         ADC.deviations ADC.valid_reads ADC.filter_by_ratio Qcminus Qcdiv
         Qcplus Q2Qc].
  destruct (ADC.valid_reads rs) as [| r1 [| r2 l]]; eauto.
  destruct (Num.root_gtb _ maxsd).
  - destruct (ADC.filter_by_ratio _ _ _); eauto.
    rewrite Hw. eauto.
  - destruct (Num.root_nonzero _); eauto.
    destruct (ADC.filter_by_ratio _ _ _); eauto.
    rewrite Hw. eauto.
Qed.

(** The aggregation does not touch the signed reads or the constants. *)
Lemma calculate_keeps a :
  ADC.reads (snd (ADC._calculate_measurement a)) = ADC.reads a /\
  ADC._max_stdev (snd (ADC._calculate_measurement a)) = ADC._max_stdev a.
Proof.
  unfold ADC._calculate_measurement, ADC.filter_and_average.
  destruct a as [pin zo wm rdy cur raws rs maxsd filt maxn med devs sd
                 ratios m mfz w].
  lazy -[Statistics.median Statistics.stdev Statistics.mean Num.root_gtb
         Num.root_leb Num.root_nonzero Num.eqb Num.div_root Num.of_Z
         ADC.deviations ADC.valid_reads ADC.filter_by_ratio Qcminus Qcdiv
         Qcplus Q2Qc].
  destruct (ADC.valid_reads rs) as [| r1 [| r2 l]]; [ tauto | tauto | ].
  destruct (Num.root_gtb _ maxsd).
  - destruct (ADC.filter_by_ratio _ _ _); [ tauto | ].
    destruct (Num.eqb wm _); tauto.
  - destruct (Num.root_nonzero _); [ | tauto ].
    destruct (ADC.filter_by_ratio _ _ _); [ tauto | ].
    destruct (Num.eqb wm _); tauto.
Qed.

Lemma Forall2_length_eq {A B} (R : A -> B -> Prop) l l' :
  Forall2 R l l' -> length l = length l'.
Proof. induction 1; cbn; congruence. Qed.

Lemma returned_state h values s r s' :
  returned h values s = (r, s') -> s' = s.
Proof.
  unfold returned, ret, raise.
  destruct (_single_adc h); [ destruct values | ]; congruence.
Qed.

(** [read_raw] outside the admitted range. *)
Lemma read_raw_out_of_range n s :
  in_range n = false -> read_raw n s = (Raise ValueError, s).
Proof. intros H. unfold read_raw. rewrite H. reflexivity. Qed.

(** [read_raw] when it returns: every device has gone through a batch,
    and the value is made of the devices' [measurement_from_zero]. *)
Lemma read_raw_spec n s v s' :
  read_raw n s = (Ok v, s') ->
  in_range n = true /\
  same_config (self s) (self s') /\
  Forall2 aggregated (_adcs (self s)) (_adcs (self s')) /\
  returned (self s') (map ADC.measurement_from_zero (_adcs (self s'))) s' =
    (Ok v, s').
Proof.
  unfold read_raw. destruct (in_range n) eqn:Hn; cbn [negb];
    [ | discriminate ].
  unfold bind at 1, each_adc.
  set (s1 := mkState _ (world s)).
  unfold bind at 1.
  destruct (read_times_spec (Z.to_nat n) s1) as (s2 & E2 & Hrun2).
  rewrite E2. unfold bind at 1, each_ready_adc.
  destruct (for_ready_spec ADC._calculate_measurement (_adcs (self s2)))
    as (_ & Hok & _).
  destruct (for_ready ADC._calculate_measurement (_adcs (self s2)))
    as [[[] | e] adcs3] eqn:E3; [ | discriminate ].
  cbn [fst snd] in Hok. specialize (Hok eq_refl).
  unfold bind, get. cbn [self world _adcs set_adcs].
  intros Hret.
  assert (Hs' : s' = mkState (set_adcs adcs3 (self s2)) (world s2)).
  { eapply returned_state, Hret. }
  subst s'. cbn [self world _adcs set_adcs] in *.
  split; [ reflexivity | ].
  destruct Hrun2 as (Hc & _ & Hf).
  split.
  { eapply same_config_trans; [ | apply same_config_set_adcs ].
    exact Hc. }
  split; [ | exact Hret ].
  unfold s1 in Hf. cbn [self _adcs set_adcs] in Hf.
  apply Forall2_map_left in Hf.
  clear Hret E3 E2.
  revert Hf Hok. generalize (_adcs (self s)) (_adcs (self s2)) adcs3.
  intros l1 l2. revert l1.
  induction l2 as [| a l2 IH]; intros l1 l3 Hf Hok;
    inversion Hf; subst; inversion Hok; subst; constructor; eauto.
  exists a. split; assumption.
Qed.

(** [read_raw] aggregates device states inside a batch only. *)
Lemma read_raw_aggregates_in_batch n s v s' :
  read_raw n s = (Ok v, s') ->
  Forall2 (fun _ a' =>
             exists a, ADC.in_batch a /\
                       (a' = a \/ a' = snd (ADC._calculate_measurement a)))
          (_adcs (self s)) (_adcs (self s')).
Proof.
  intros Hread.
  destruct (read_raw_spec _ _ _ _ Hread) as (_ & _ & Hagg & _).
  eapply Forall2_weaken; [ | exact Hagg ].
  intros a0 a' (a & Hsteps & [(_ & -> & _) | (_ & ->)]);
    exists a; (split; [ eapply in_batch_steps; eassumption | auto ]).
Qed.

End Batch.

(* ------------------------------------------------------------------ *)
(** ** Early returns of the aggregation, seen from [read_raw]           *)
(* ------------------------------------------------------------------ *)

Section EarlyReturn.

Import HX711 Effects.

Lemma Forall2_nth_error {A} (R : A -> A -> Prop) l l' i a a' :
  Forall2 R l l' ->
  nth_error l i = Some a -> nth_error l' i = Some a' -> R a a'.
Proof.
  intros H. revert i. induction H as [| x y l l' Hxy _ IH]; intros i.
  - destruct i; discriminate.
  - destruct i as [| i]; cbn.
    + intros [= ->] [= ->]. exact Hxy.
    + apply IH.
Qed.

(** [read_raw] returns on a valid count when no weight multiple is zero;
    from a scalar pin the value is a number or [None], not a list. *)
Lemma read_raw_returns n s :
  in_range n = true ->
  well_formed (self s) ->
  Forall (fun a => ADC._weight_multiple a <> 0%Qc) (_adcs (self s)) ->
  exists v s',
    read_raw n s = (Ok v, s') /\
    (_single_adc (self s) = true -> exists m, v = of_option m).
Proof.
  intros Hn Hwf Hwm. unfold read_raw. rewrite Hn. cbn [negb].
  unfold bind at 1, each_adc.
  set (s1 := mkState _ (world s)).
  unfold bind at 1.
  destruct (read_times_spec (Z.to_nat n) s1) as (s2 & E2 & Hrun2).
  rewrite E2. unfold bind at 1, each_ready_adc.
  destruct Hrun2 as (Hc & _ & Hf).
  unfold s1 in Hf, Hc. cbn [self _adcs set_adcs] in Hf, Hc.
  apply Forall2_map_left in Hf.
  destruct (for_ready_spec ADC._calculate_measurement (_adcs (self s2)))
    as (Hlen & _ & Hok).
  assert (Hall : Forall (fun a => exists b,
                             fst (ADC._calculate_measurement a) = Ok b)
                        (_adcs (self s2))).
  { clear - Hf Hwm. induction Hf as [| a0 a l l' Hs _ IH];
      constructor; inversion Hwm; subst; auto.
    apply calculate_returns.
    apply cycle_steps_frame in Hs. destruct Hs as (_ & -> & _).
    assumption. }
  specialize (Hok Hall).
  destruct (for_ready ADC._calculate_measurement (_adcs (self s2)))
    as [r adcs3]. cbn [fst snd] in *. subst r.
  unfold bind, get. cbn [self world _adcs set_adcs].
  unfold returned. cbn [_single_adc set_adcs].
  assert (Hsingle : _single_adc (self s2) = _single_adc (self s)).
  { apply same_config_trans with (h1 := self s) in Hc;
      [ | apply same_config_set_adcs ].
    apply same_config_fields in Hc. tauto. }
  rewrite Hsingle.
  destruct (_single_adc (self s)) eqn:Hs1.
  - assert (Hl3 : length adcs3 = 1%nat).
    { rewrite Hlen, <- (Forall2_length_eq _ _ _ Hf). auto. }
    destruct adcs3 as [| a3 rest]; [ discriminate | ]. cbn [map].
    unfold ret. eexists _, _. split; [ reflexivity | eauto ].
  - unfold ret. eexists _, _. split; [ reflexivity | discriminate ].
Qed.

(** C9, amended.  When [read_raw] returns and a device that is still
    ready took the single-valid-value path or the
    zero-spread path, the aggregation ran on it inside the batch and
    reported success; it set [measurement] and left
    [measurement_from_zero] at [None] and [weight] at the value it had
    before the batch (the reset keeps [weight]); the value [read_raw]
    returns for that device is [None]. *)
Theorem early_return_reads_none (s s' : state) (n : Z) (v : pyval)
  (i : nat) (a0 a' : ADC.t) :
  well_formed (self s) ->
  read_raw n s = (Ok v, s') ->
  nth_error (_adcs (self s)) i = Some a0 ->
  nth_error (_adcs (self s')) i = Some a' ->
  ADC._ready a' = true ->
  ADC.single_valid a' = true \/ ADC.zero_spread a' = true ->
  (exists a, ADC.in_batch a /\ ADC._ready a = true /\
             fst (ADC._calculate_measurement a) = Ok true /\
             a' = snd (ADC._calculate_measurement a)) /\
  (exists m, ADC.measurement a' = Some m) /\
  ADC.measurement_from_zero a' = None /\
  ADC.weight a' = ADC.weight a0 /\
  value_at v i = Some None.
Proof.
  intros Hwf Hread Hi0 Hi' Hready Hearly.
  destruct (read_raw_spec _ _ _ _ Hread) as (_ & Hc & Hagg & Hret).
  destruct (Forall2_nth_error _ _ _ _ _ _ Hagg Hi0 Hi')
    as (a & Hsteps & [(Hr & -> & _) | (Hr & ->)]); [ | congruence ].
  pose proof (in_batch_steps _ _ Hsteps) as Hb.
  destruct (in_batch_fields a Hb) as (_ & _ & Hz).
  destruct (calculate_keeps a) as (Hreads & Hmax).
  assert (Hearly_a : ADC.single_valid a = true \/ ADC.zero_spread a = true).
  { unfold ADC.single_valid, ADC.zero_spread, ADC.spread in *.
    rewrite Hreads, Hmax in Hearly. exact Hearly. }
  destruct (calculate_early a Hearly_a) as (Hok & Hm & Hmfz & Hw & _).
  assert (Hnone : ADC.measurement_from_zero
                    (snd (ADC._calculate_measurement a)) = None)
    by congruence.
  split; [ exists a; auto | ].
  split; [ exact Hm | ]. split; [ exact Hnone | ].
  split.
  { rewrite Hw. apply cycle_steps_frame in Hsteps.
    destruct Hsteps as (-> & _). reflexivity. }
  unfold returned in Hret.
  assert (Hsingle : _single_adc (self s') = _single_adc (self s)).
  { apply same_config_fields in Hc. tauto. }
  rewrite Hsingle in Hret.
  destruct (_single_adc (self s)) eqn:Hs1.
  - assert (Hlen : length (_adcs (self s')) = 1%nat).
    { rewrite <- (Forall2_length_eq _ _ _ Hagg). auto. }
    destruct (_adcs (self s')) as [| a1 [| a2 rest]]; try discriminate.
    destruct i as [| i]; [ | destruct i; discriminate ].
    cbn in Hi'. injection Hi' as ->. cbn [map] in Hret.
    unfold ret in Hret. injection Hret as <-.
    rewrite Hnone. reflexivity.
  - unfold ret in Hret. injection Hret as <-. cbn [value_at].
    rewrite nth_error_map, Hi'. cbn. rewrite Hnone. reflexivity.
Qed.

Lemma early_return_reads_none_witness :
  let s := mkState (Examples.two_devices true) Worlds.quiet in
  exists a',
    nth_error (_adcs (self (snd (read_raw 1 s)))) 0 = Some a' /\
    fst (read_raw 1 s) = Ok (PList [None; None]) /\
    (exists m, ADC.measurement a' = Some m) /\
    ADC.measurement_from_zero a' = None.
Proof.
  cbv zeta.
  set (s := mkState (Examples.two_devices true) Worlds.quiet).
  set (a' := nth 0 (_adcs (self (snd (read_raw 1 s)))) (ADC.init 0)).
  assert (Hfst : fst (read_raw 1 s) = Ok (PList [None; None]))
    by (vm_compute; reflexivity).
  assert (Hread : read_raw 1 s = (Ok (PList [None; None]),
                                  snd (read_raw 1 s))).
  { rewrite (surjective_pairing (read_raw 1 s)) at 1.
    rewrite Hfst. reflexivity. }
  assert (Hi' : nth_error (_adcs (self (snd (read_raw 1 s)))) 0 = Some a')
    by (vm_compute; reflexivity).
  exists a'. split; [ exact Hi' | ]. split; [ exact Hfst | ].
  destruct (early_return_reads_none s (snd (read_raw 1 s)) 1
              (PList [None; None]) 0 (ADC.init 5) a')
    as (_ & Hm & Hz & _).
  - intros H. discriminate H.
  - exact Hread.
  - reflexivity.
  - exact Hi'.
  - vm_compute. reflexivity.
  - left. vm_compute. reflexivity.
  - split; assumption.
Defined.

End EarlyReturn.

(* ------------------------------------------------------------------ *)
(** ** [zero]: the retry loop                                           *)
(* ------------------------------------------------------------------ *)

Section Zero.

Import HX711 Effects.

(** The merge inside a run of [zero]'s loop on the batches of the
    example. *)
Example merge_example :
  merge_readings (PList [Some (Num.of_Z 3); None])
                 (PList [None; Some (Num.of_Z 5)]) =
    Ok (PList [Some (Num.of_Z 3); Some (Num.of_Z 5)]) /\
  contains_None (PList [Some (Num.of_Z 3); Some (Num.of_Z 5)]) = Ok false.
Proof. split; reflexivity. Qed.

(** C10, as stated, fails: with a count outside 1..10000 and a retry
    limit of one or more, [read_raw] raises [ValueError] before any
    membership test. *)
Lemma zero_single_pin_counterexample :
  let s := mkState Examples.one_device Worlds.quiet in
  _single_adc (self s) = true /\
  fst (zero 0 1 s) = Raise ValueError /\
  fst (zero 0 1 s) <> Raise TypeError.
Proof.
  cbv zeta. split; [ reflexivity | ].
  split; [ reflexivity | ]. cbn. discriminate.
Qed.

(** C10, amended.  On a controller built from a scalar pin whose weight
    multiple is not zero, [zero] raises [TypeError] from a membership test
    on a value that is not a list, whatever the reads give, whenever the
    count is within 1..10000 or the retry limit is below one; with a
    count out of range and a retry limit of one or more it raises the
    [ValueError] of [read_raw]. *)
Theorem zero_single_pin (s : state) (a : ADC.t)
  (readings_to_average retry_limit : Z) :
  _single_adc (self s) = true ->
  _adcs (self s) = [a] ->
  ADC._weight_multiple a <> 0%Qc ->
  exists s',
    zero readings_to_average retry_limit s =
      (Raise (if (0 <? retry_limit) && negb (in_range readings_to_average)
              then ValueError else TypeError), s').
Proof.
  intros Hsingle Hadcs Hwm. unfold zero, bind at 1.
  destruct (Z.to_nat retry_limit) as [| k] eqn:Hk.
  - assert (Hr : (0 <? retry_limit) = false) by (apply Z.ltb_ge; lia).
    rewrite Hr. cbn [andb zero_loop]. unfold ret, bind, lift.
    cbn [contains_None]. eauto.
  - assert (Hr : (0 <? retry_limit) = true) by (apply Z.ltb_lt; lia).
    rewrite Hr. cbn [andb zero_loop]. unfold bind at 1.
    destruct (in_range readings_to_average) eqn:Hn; cbn [negb].
    + destruct (read_raw_returns readings_to_average s Hn)
        as (v & s1 & E & Hv).
      * intros _. rewrite Hadcs. reflexivity.
      * rewrite Hadcs. constructor; [ exact Hwm | constructor ].
      * rewrite E. destruct (Hv Hsingle) as [m ->].
        unfold bind, ret, lift.
        destruct m; cbn [of_option contains_None]; eauto.
    + rewrite (read_raw_out_of_range _ _ Hn). eauto.
Qed.

Lemma zero_single_pin_witness :
  exists s',
    zero 30 10 (mkState Examples.one_device Worlds.quiet) =
      (Raise TypeError, s').
Proof.
  destruct (zero_single_pin (mkState Examples.one_device Worlds.quiet)
              (ADC.init 5) 30 10) as (s' & E).
  - reflexivity.
  - reflexivity.
  - intros H. apply (f_equal this) in H. vm_compute in H. discriminate H.
  - exists s'. exact E.
Defined.

(** [__init__] from a scalar pin builds a well-formed controller with a
    single device. *)
Lemma init_single_pin pin sck gain channel all_or_nothing w s :
  __init__ (inl pin) sck gain channel all_or_nothing w = (Ok tt, s) ->
  _single_adc (self s) = true /\ well_formed (self s) /\
  exists a, _adcs (self s) = [a] /\ ADC._weight_multiple a = 1%Qc.
Proof.
  unfold __init__. cbn [convert_to_list].
  destruct (negb (existsb (Z.eqb gain) [128; 64])); [ discriminate | ].
  destruct (negb (existsb (String.eqb channel) ["A"%string; "B"%string]));
    [ discriminate | ].
  unfold bind at 1.
  set (s0 := mkState _ _).
  destruct (read_spec s0) as (r & s1 & E & (Hc & _ & Hf) & _).
  rewrite E. unfold act. intros [= <-]. cbn [self world].
  apply same_config_fields in Hc. destruct Hc as (_ & _ & Hs & _).
  unfold s0 in Hs, Hf. cbn [self _single_adc set_adcs _adcs map] in Hs, Hf.
  inversion Hf as [| a0 a1 l0 l1 Hsteps Hnil Ha Hb]; subst.
  inversion Hnil; subst.
  split; [ exact Hs | ].
  split; [ intros _; rewrite <- Hb; reflexivity | ].
  exists a1. split; [ reflexivity | ].
  apply cycle_steps_frame in Hsteps. destruct Hsteps as (_ & -> & _).
  reflexivity.
Qed.

End Zero.

(* ------------------------------------------------------------------ *)
(** ** Conversion: range and round trip                               *)
(* ------------------------------------------------------------------ *)

Section ConversionRange.

(** On a 24-bit pattern bit 23 is set exactly from 2^23 on. *)
Lemma sign_bit_range (v : Z) :
  0 <= v < 2 ^ 24 -> Z.testbit v 23 = (2 ^ 23 <=? v).
Proof.
  intros Hv. destruct (Z.leb_spec (2 ^ 23) v) as [Hge | Hlt].
  - apply Z.testbit_true; [ lia | ].
    assert (Hq : v / 2 ^ 23 = 1).
    { symmetry. apply Z.div_unique with (r := v - 2 ^ 23); lia. }
    rewrite Hq. reflexivity.
  - rewrite <- (Z.mod_small v (2 ^ 23)) by lia.
    apply Z.mod_pow2_bits_high. lia.
Qed.

(** The signed value of a valid 24-bit pattern lies strictly between the
    two extremes [-2^23] and [2^23 - 1], which are reserved, and the
    pattern is recovered from it modulo [2^24]. *)
Theorem convert_to_signed_value_round_trip (v x : Z) :
  0 <= v < 2 ^ 24 ->
  ADC.convert_to_signed_value v = Some x ->
  - 2 ^ 23 < x < 2 ^ 23 - 1 /\ x mod 2 ^ 24 = v.
Proof.
  intros Hv. unfold ADC.convert_to_signed_value.
  rewrite sign_bit_test, negb_involutive, (sign_bit_range v Hv).
  destruct (existsb _ _) eqn:He; [ discriminate | ].
  assert (Hr : ~ (v = 0x800000 \/ v = 0x7FFFFF \/ v = 0xFFFFFF)).
  { intros H. apply reserved_codes in H. congruence. }
  destruct (Z.leb_spec (2 ^ 23) v) as [Hge | Hlt]; intros [= <-].
  - rewrite lxor_24_ones by exact Hv.
    split; [ lia | ].
    replace (- (0xffffff - v + 1)) with (v + (-1) * 2 ^ 24) by lia.
    rewrite Z.mod_add by lia. apply Z.mod_small. lia.
  - split; [ lia | apply Z.mod_small; lia ].
Qed.

Lemma convert_to_signed_value_round_trip_witness :
  - 2 ^ 23 < -2 < 2 ^ 23 - 1 /\ (-2) mod 2 ^ 24 = 0xFFFFFE.
Proof.
  apply (convert_to_signed_value_round_trip 0xFFFFFE (-2)).
  - lia.
  - reflexivity.
Defined.

End ConversionRange.

(* ------------------------------------------------------------------ *)
(** ** The shift register and the history                             *)
(* ------------------------------------------------------------------ *)

Section ShiftRegister.

Import ADC.

(** Shifting left by one and or-ing a bit in is doubling and adding it. *)
Lemma shift_or_bit (c : Z) (b : bool) :
  Z.lor (Z.shiftl c 1) (Z.b2z b) = 2 * c + Z.b2z b.
Proof.
  rewrite Z.shiftl_mul_pow2 by lia. change (2 ^ 1) with 2.
  assert (H : Z.land (c * 2) (Z.b2z b) = 0).
  { destruct b; cbn [Z.b2z]; [ | apply Z.land_0_r ].
    change 1 with (Z.ones 1). rewrite Z.land_ones by lia.
    change (2 ^ 1) with 2. apply Z.mod_mul. lia. }
  pose proof (Z.add_lor_land (c * 2) (Z.b2z b)) as Hadd.
  rewrite H in Hadd. lia.
Qed.

Lemma shift_bits_app bits1 bits2 a :
  shift_bits (bits1 ++ bits2) a = shift_bits bits2 (shift_bits bits1 a).
Proof. apply fold_left_app. Qed.

(** Shifting touches the accumulator only. *)
Lemma shift_bits_frame bits a :
  set_current_raw_read 0 (shift_bits bits a) = set_current_raw_read 0 a.
Proof.
  revert a. induction bits as [| b bits IH]; intros a; [ reflexivity | ].
  cbn [shift_bits fold_left]. fold (shift_bits bits (shift_in b a)).
  rewrite IH. reflexivity.
Qed.

(** The bits of the accumulator after [n] shifts: the lowest [n] are the
    levels read, the latest lowest; above them sits what was there. *)
Lemma shift_bits_testbit bits a :
  let n := Z.of_nat (length bits) in
  let c := _current_raw_read (shift_bits bits a) in
  c / 2 ^ n = _current_raw_read a /\
  map (fun i => Z.testbit c (Z.of_nat i)) (rev (seq 0 (length bits))) = bits.
Proof.
  cbv zeta. revert a.
  induction bits as [| b bits IH] using rev_ind; intros a.
  - cbn. split; [ apply Z.div_1_r | reflexivity ].
  - rewrite shift_bits_app, length_app. cbn [length shift_bits fold_left].
    rewrite Nat.add_1_r.
    destruct (IH a) as [IHc IHb].
    set (c := _current_raw_read (shift_bits bits a)) in *.
    cbn [shift_in set_current_raw_read _current_raw_read]. fold c.
    rewrite shift_or_bit.
    split.
    + rewrite Nat2Z.inj_succ, Z.pow_succ_r by lia.
      rewrite <- Z.div_div by lia.
      replace (2 * c + Z.b2z b) with (Z.b2z b + c * 2) by lia.
      rewrite Z.div_add by lia.
      rewrite (Z.div_small (Z.b2z b) 2) by (destruct b; cbn; lia).
      exact IHc.
    + cbn [seq]. rewrite <- seq_shift. cbn [rev]. rewrite map_app.
      cbn [map]. rewrite <- map_rev, map_map.
      f_equal.
      * rewrite <- IHb at 2. apply map_ext. intros i.
        rewrite Nat2Z.inj_succ. apply Z.testbit_succ_r. lia.
      * f_equal. apply Z.testbit_0_r.
Qed.

Lemma bits24_length v : length (bits24 v) = 24%nat.
Proof. reflexivity. Qed.

(** From a cleared accumulator, 24 shifts leave a 24-bit value. *)
Lemma shift_bits_range bits a :
  length bits = 24%nat -> _current_raw_read a = 0 ->
  0 <= _current_raw_read (shift_bits bits a) < 2 ^ 24.
Proof.
  intros Hlen H0.
  destruct (shift_bits_testbit bits a) as [Hc _]. cbv zeta in Hc.
  rewrite Hlen, H0 in Hc. change (Z.of_nat 24) with 24 in Hc.
  apply Z.div_small_iff in Hc; lia.
Qed.

(** Shifting in the bits of a 24-bit pattern, highest first, rebuilds it. *)
Lemma shift_bits_bits24 v a :
  0 <= v < 2 ^ 24 -> _current_raw_read a = 0 ->
  _current_raw_read (shift_bits (bits24 v) a) = v.
Proof.
  intros Hv H0.
  pose proof (shift_bits_range (bits24 v) a (bits24_length v) H0) as Hr.
  destruct (shift_bits_testbit (bits24 v) a) as [_ Hb]. cbv zeta in Hb.
  rewrite bits24_length in Hb.
  set (c := _current_raw_read (shift_bits (bits24 v) a)) in *.
  unfold bits24 in Hb.
  apply Z.bits_inj'. intros n Hn.
  destruct (Z_lt_le_dec n 24) as [Hlt | Hge].
  - assert (Hin : In (Z.to_nat n) (rev (seq 0 24))).
    { apply in_rev. rewrite rev_involutive. apply in_seq. lia. }
    pose proof (proj1 map_ext_in_iff Hb _ Hin) as H.
    cbv beta in H. rewrite Z2Nat.id in H by lia. exact H.
  - rewrite !high_bits_clear by lia. reflexivity.
Qed.

(** Twenty-four levels shifted into a cleared accumulator are its bits,
    the highest first. *)
Lemma shift_bits_levels (bits : list bool) (a : t) :
  length bits = 24%nat ->
  bits24 (_current_raw_read (shift_bits bits a)) = bits.
Proof.
  intros Hlen.
  destruct (shift_bits_testbit bits a) as [_ Hb].
  cbv zeta in Hb. rewrite Hlen in Hb. exact Hb.
Qed.

Lemma finish_raw_read_history y :
  raw_reads (_finish_raw_read y) = raw_reads y ++ [_current_raw_read y] /\
  reads (_finish_raw_read y) =
    reads y ++ [convert_to_signed_value (_current_raw_read y)].
Proof. split; reflexivity. Qed.

Lemma shift_bits_history bits y :
  raw_reads (shift_bits bits y) = raw_reads y /\
  reads (shift_bits bits y) = reads y.
Proof.
  pose proof (shift_bits_frame bits y) as Hf.
  split; [ apply (f_equal raw_reads) in Hf | apply (f_equal reads) in Hf ];
    exact Hf.
Qed.

(** Between the reset and the aggregation the signed reads are the
    conversions of the raw patterns, one for one. *)
Theorem in_batch_reads_converted (a : t) :
  in_batch a -> reads a = map convert_to_signed_value (raw_reads a).
Proof.
  induction 1 as [a0 | a0 a1 _ IH Hstep].
  - reflexivity.
  - destruct Hstep as [a0 | a0 w | a0 level | a0].
    + exact IH.
    + unfold _is_ready. destruct (_ready a0); exact IH.
    + exact IH.
    + unfold _finish_raw_read.
      cbn [raw_reads reads set_reads set_raw_reads _current_raw_read].
      rewrite map_app, IH. reflexivity.
Qed.

Lemma in_batch_reads_converted_witness :
  let a := batch_of [0x000001; 0x800000] (init 5) in
  reads a = map convert_to_signed_value (raw_reads a).
Proof.
  cbv zeta. apply in_batch_reads_converted, in_batch_batch_of.
Defined.

End ShiftRegister.

(* ------------------------------------------------------------------ *)
(** ** Outcomes of the aggregation                                    *)
(* ------------------------------------------------------------------ *)

Section AggregationOutcome.

Import ADC.

Ltac fields :=
  cbn [fst snd _dout_pin _zero_offset _weight_multiple _ready
       _current_raw_read raw_reads reads _max_stdev _reads_filtered
       _max_number_of_stdev_from_med _read_med _devs_from_med _read_stdev
       _ratios_to_stdev measurement measurement_from_zero weight
       set_zero_offset set_weight_multiple set_ready set_current_raw_read
       set_raw_reads set_reads set_reads_filtered set_read_med
       set_devs_from_med set_read_stdev set_ratios_to_stdev set_measurement
       set_measurement_from_zero set_weight].

Ltac fields_in H :=
  cbn [fst snd _dout_pin _zero_offset _weight_multiple _ready
       _current_raw_read raw_reads reads _max_stdev _reads_filtered
       _max_number_of_stdev_from_med _read_med _devs_from_med _read_stdev
       _ratios_to_stdev measurement measurement_from_zero weight
       set_zero_offset set_weight_multiple set_ready set_current_raw_read
       set_raw_reads set_reads set_reads_filtered set_read_med
       set_devs_from_med set_read_stdev set_ratios_to_stdev set_measurement
       set_measurement_from_zero set_weight] in H.

Lemma filter_by_ratio_incl limit vals ratios :
  incl (filter_by_ratio limit vals ratios) vals /\
  (length (filter_by_ratio limit vals ratios) <= length vals)%nat.
Proof.
  revert ratios. induction vals as [| v vals IH]; intros ratios.
  - split; [ apply incl_refl | reflexivity ].
  - destruct ratios as [| r ratios]; cbn [filter_by_ratio].
    + split; [ apply incl_nil_l | cbn; lia ].
    + destruct (IH ratios) as [Hin Hlen].
      destruct (Num.root_leb r limit); cbn [length]; split; try lia.
      * apply incl_cons; [ left; reflexivity | ].
        apply incl_tl. exact Hin.
      * apply incl_tl. exact Hin.
Qed.

(** The three ways out of the filtering loop and the averaging. *)
Lemma filter_and_average_cases x :
  let kept := filter_by_ratio (_max_number_of_stdev_from_med x)
                              (_reads_filtered x) (_ratios_to_stdev x) in
  let m := Statistics.mean kept in
  let z := (m - _zero_offset x)%Qc in
  let x3 := set_measurement_from_zero (Some z)
              (set_measurement (Some m) (set_reads_filtered kept x)) in
  (kept = [] /\
   filter_and_average x = (Ok false, set_reads_filtered [] x)) \/
  (kept <> [] /\ Num.eqb (_weight_multiple x) 0%Qc = true /\
   filter_and_average x = (Raise ZeroDivisionError, x3)) \/
  (kept <> [] /\ Num.eqb (_weight_multiple x) 0%Qc = false /\
   filter_and_average x =
     (Ok true, set_weight (Some (z / _weight_multiple x)%Qc) x3)).
Proof.
  cbv zeta. unfold filter_and_average.
  destruct x as [pin zo wm rdy cur raws rs maxsd filt maxn med devs sd
                 ratios m mfz w].
  fields.
  destruct (filter_by_ratio maxn filt ratios) as [| k kept] eqn:Hk.
  - left. split; reflexivity.
  - right. destruct (Num.eqb wm 0%Qc) eqn:Hw.
    + left. split; [ discriminate | ]. split; reflexivity.
    + right. split; [ discriminate | ]. split; reflexivity.
Qed.

Lemma eqb_zero_true (x : Qc) : Num.eqb x 0%Qc = true -> x = 0%Qc.
Proof.
  unfold Num.eqb. destruct (x ?= 0)%Qc eqn:Hc; try discriminate.
  intros _. apply Qceq_alt in Hc. exact Hc.
Qed.

(** The survivors of the aggregation are valid reads of the batch, in
    number no more than these: the filter keeps or drops, it never makes
    up a value. *)
Theorem calculate_survivors (a : t) :
  incl (_reads_filtered (snd (_calculate_measurement a)))
       (valid_reads (reads a)) /\
  (length (_reads_filtered (snd (_calculate_measurement a))) <=
   length (valid_reads (reads a)))%nat.
Proof.
  rewrite calculate_unfold.
  destruct a as [pin zo wm rdy cur raws rs maxsd filt maxn med devs sd
                 ratios m mfz w].
  fields.
  destruct (valid_reads rs) as [| r1 [| r2 l]];
    [ fields; split; [ apply incl_refl | reflexivity ]
    | fields; split; [ apply incl_refl | reflexivity ] | ].
  cbv zeta.
  set (vals := r1 :: r2 :: l).
  destruct (Num.root_gtb _ maxsd).
  - match goal with |- context [filter_and_average ?x] =>
      destruct (filter_and_average_cases x)
        as [(Hk & ->) | [(Hk & Hw & ->) | (Hk & Hw & ->)]]
    end; fields; try apply filter_by_ratio_incl.
    split; [ apply incl_nil_l | cbn; lia ].
  - destruct (Num.root_nonzero _).
    + match goal with |- context [filter_and_average ?x] =>
        destruct (filter_and_average_cases x)
          as [(Hk & ->) | [(Hk & Hw & ->) | (Hk & Hw & ->)]]
      end; fields; try apply filter_by_ratio_incl.
      split; [ apply incl_nil_l | cbn; lia ].
    + fields. split; [ apply incl_refl | reflexivity ].
Qed.

(** What each outcome of the aggregation leaves behind.  On failure no
    read survives and the three results are as they were; on success a
    measurement is stored; the only exception is the division by a zero
    weight multiple, raised after [measurement] and
    [measurement_from_zero] have been stored and before [weight] is. *)
Theorem calculate_outcome (a : t) :
  let a' := snd (_calculate_measurement a) in
  match fst (_calculate_measurement a) with
  | Ok false =>
      _reads_filtered a' = [] /\ measurement a' = measurement a /\
      measurement_from_zero a' = measurement_from_zero a /\
      weight a' = weight a
  | Ok true => exists m, measurement a' = Some m
  | Raise e =>
      e = ZeroDivisionError /\ _weight_multiple a = 0%Qc /\
      (exists m, measurement a' = Some m /\
                 measurement_from_zero a' = Some (m - _zero_offset a)%Qc) /\
      weight a' = weight a
  end.
Proof.
  cbv zeta. rewrite calculate_unfold.
  destruct a as [pin zo wm rdy cur raws rs maxsd filt maxn med devs sd
                 ratios m mfz w].
  fields.
  destruct (valid_reads rs) as [| r1 [| r2 l]];
    [ fields; tauto | fields; eauto | ].
  cbv zeta.
  set (vals := r1 :: r2 :: l).
  destruct (Num.root_gtb _ maxsd).
  - match goal with |- context [filter_and_average ?x] =>
      destruct (filter_and_average_cases x)
        as [(Hk & ->) | [(Hk & Hw & ->) | (Hk & Hw & ->)]]
    end; fields; try fields_in Hw;
      [ tauto | apply eqb_zero_true in Hw; subst wm | eauto ].
    split; [ reflexivity | ].
    split; [ reflexivity | ]. split; [ eauto | reflexivity ].
  - destruct (Num.root_nonzero _).
    + match goal with |- context [filter_and_average ?x] =>
        destruct (filter_and_average_cases x)
          as [(Hk & ->) | [(Hk & Hw & ->) | (Hk & Hw & ->)]]
      end; fields; try fields_in Hw;
        [ tauto | apply eqb_zero_true in Hw; subst wm | eauto ].
      split; [ reflexivity | ].
      split; [ reflexivity | ]. split; [ eauto | reflexivity ].
    + fields. eauto.
Qed.

End AggregationOutcome.

(* ------------------------------------------------------------------ *)
(** ** Two reads have no spread                                       *)
(* ------------------------------------------------------------------ *)

Section TwoReads.

Import ADC.

Lemma abs_opp (y : Qc) : Num.abs (- y) = Num.abs y.
Proof.
  unfold Num.abs, Num.ltb.
  destruct (y ?= 0)%Qc eqn:Hy.
  - apply Qceq_alt in Hy. subst y. reflexivity.
  - apply Qclt_alt in Hy.
    assert (H : (0 < - y)%Qc).
    { apply Qclt_minus_iff in Hy. rewrite Qcplus_0_l in Hy. exact Hy. }
    rewrite (proj1 (Qcgt_alt _ _) H). reflexivity.
  - apply Qcgt_alt in Hy.
    assert (H : (- y < 0)%Qc).
    { apply Qclt_minus_iff. rewrite Qcplus_0_l, Qcopp_involutive. exact Hy. }
    rewrite (proj1 (Qclt_alt _ _) H). apply Qcopp_involutive.
Qed.

Lemma of_Z_2 : Num.of_Z 2 = (1 + 1)%Qc.
Proof. apply Qc_is_canon. vm_compute. reflexivity. Qed.

Lemma two_neq_0 : (1 + 1)%Qc <> 0%Qc.
Proof. intros H. apply (f_equal this) in H. vm_compute in H. discriminate H. Qed.

(** The median of two values is half their sum, in either order. *)
Lemma median_two (r1 r2 : Z) :
  Statistics.median [r1; r2] = ((Num.of_Z r1 + Num.of_Z r2) / (1 + 1))%Qc.
Proof.
  unfold Statistics.median, Statistics.sorted.
  cbn [fold_right Statistics.insert_sorted].
  rewrite of_Z_2.
  destruct (r1 <=? r2); cbn [length Nat.even Nat.div Nat.divmod fst Nat.pred nth].
  - reflexivity.
  - rewrite Qcplus_comm. reflexivity.
Qed.

(** Two values are equally far from their median. *)
Lemma deviations_two (r1 r2 : Z) :
  exists d, deviations (Statistics.median [r1; r2]) [r1; r2] = [d; d].
Proof.
  rewrite median_two. unfold deviations. cbn [map].
  set (x1 := Num.of_Z r1). set (x2 := Num.of_Z r2).
  exists (Num.abs (x1 - (x1 + x2) / (1 + 1))%Qc). f_equal. f_equal.
  rewrite <- abs_opp. f_equal. field. exact two_neq_0.
Qed.

Lemma variance_pair (d : Qc) : Statistics.variance [d; d] = 0%Qc.
Proof.
  unfold Statistics.variance, Num.sum, Num.sq.
  cbn [length fold_right map Nat.pred].
  assert (H2 : Num.of_nat 2 = (1 + 1)%Qc)
    by (apply Qc_is_canon; vm_compute; reflexivity).
  assert (H1 : Num.of_nat 1 = 1%Qc)
    by (apply Qc_is_canon; vm_compute; reflexivity).
  rewrite H2, H1.
  assert (Hm : ((d + (d + 0)) / (1 + 1))%Qc = d).
  { field. exact two_neq_0. }
  rewrite Hm. unfold Qcdiv. ring.
Qed.

End TwoReads.

(* ------------------------------------------------------------------ *)
(** ** The values the aggregation stores                              *)
(* ------------------------------------------------------------------ *)

Section AggregationValues.

Import ADC.

Ltac fields :=
  cbn [fst snd _dout_pin _zero_offset _weight_multiple _ready
       _current_raw_read raw_reads reads _max_stdev _reads_filtered
       _max_number_of_stdev_from_med _read_med _devs_from_med _read_stdev
       _ratios_to_stdev measurement measurement_from_zero weight
       set_zero_offset set_weight_multiple set_ready set_current_raw_read
       set_raw_reads set_reads set_reads_filtered set_read_med
       set_devs_from_med set_read_stdev set_ratios_to_stdev set_measurement
       set_measurement_from_zero set_weight].

Ltac fields_in H :=
  cbn [fst snd _dout_pin _zero_offset _weight_multiple _ready
       _current_raw_read raw_reads reads _max_stdev _reads_filtered
       _max_number_of_stdev_from_med _read_med _devs_from_med _read_stdev
       _ratios_to_stdev measurement measurement_from_zero weight
       set_zero_offset set_weight_multiple set_ready set_current_raw_read
       set_raw_reads set_reads set_reads_filtered set_read_med
       set_devs_from_med set_read_stdev set_ratios_to_stdev set_measurement
       set_measurement_from_zero set_weight] in H.

(** A device that had no [measurement_from_zero] and has one after the
    aggregation went through the averaging. *)
Lemma calculate_averaged a z :
  measurement_from_zero a = None ->
  measurement_from_zero (snd (_calculate_measurement a)) = Some z ->
  let a' := snd (_calculate_measurement a) in
  _reads_filtered a' <> [] /\
  measurement a' = Some (Statistics.mean (_reads_filtered a')) /\
  z = (Statistics.mean (_reads_filtered a') - _zero_offset a)%Qc /\
  (_weight_multiple a = 0%Qc ->
   fst (_calculate_measurement a) = Raise ZeroDivisionError /\
   weight a' = weight a) /\
  (_weight_multiple a <> 0%Qc ->
   fst (_calculate_measurement a) = Ok true /\
   weight a' = Some (z / _weight_multiple a)%Qc).
Proof.
  cbv zeta. rewrite calculate_unfold.
  destruct a as [pin zo wm rdy cur raws rs maxsd filt maxn med devs sd
                 ratios m mfz w].
  fields. intros ->.
  destruct (valid_reads rs) as [| r1 [| r2 l]];
    [ fields; discriminate | fields; discriminate | ].
  cbv zeta.
  set (vals := r1 :: r2 :: l).
  assert (Hfa : forall x,
    _zero_offset x = zo -> _weight_multiple x = wm ->
    measurement_from_zero x = None -> weight x = w ->
    measurement_from_zero (snd (filter_and_average x)) = Some z ->
    _reads_filtered (snd (filter_and_average x)) <> [] /\
    measurement (snd (filter_and_average x)) =
      Some (Statistics.mean (_reads_filtered (snd (filter_and_average x)))) /\
    z = (Statistics.mean (_reads_filtered (snd (filter_and_average x)))
         - zo)%Qc /\
    (wm = 0%Qc ->
     fst (filter_and_average x) = Raise ZeroDivisionError /\
     weight (snd (filter_and_average x)) = w) /\
    (wm <> 0%Qc ->
     fst (filter_and_average x) = Ok true /\
     weight (snd (filter_and_average x)) = Some (z / wm)%Qc)).
  { intros x Hzo Hwm Hmfz Hw.
    pose proof (filter_and_average_cases x) as Hcases. cbv zeta in Hcases.
    destruct x as [pin' zo' wm' rdy' cur' raws' rs' maxsd' filt' maxn'
                   med' devs' sd' ratios' m' mfz' w'].
    fields_in Hzo. fields_in Hwm. fields_in Hmfz. fields_in Hw.
    fields_in Hcases. subst.
    destruct Hcases as [(Hk & ->) | [(Hk & Hw0 & ->) | (Hk & Hw0 & ->)]];
      fields.
    - discriminate.
    - intros [= <-]. apply eqb_zero_true in Hw0.
      split; [ exact Hk | ]. split; [ reflexivity | ].
      split; [ reflexivity | ]. split; [ tauto | contradiction ].
    - intros [= <-].
      split; [ exact Hk | ]. split; [ reflexivity | ].
      split; [ reflexivity | ].
      split; [ | tauto ].
      intros ->. vm_compute in Hw0. discriminate Hw0. }
  destruct (Num.root_gtb _ maxsd).
  - apply Hfa; reflexivity.
  - destruct (Num.root_nonzero _).
    + apply Hfa; reflexivity.
    + fields. discriminate.
Qed.

(** Inside a batch, when the aggregation leaves a
    [measurement_from_zero], the three results agree: [measurement] is the
    mean of the surviving reads, [measurement_from_zero] is that mean less
    the zero offset, and [weight] is this difference divided by the weight
    multiple; the aggregation has then reported success. *)
Theorem aggregate_values_agree (a : t) (z : Qc) :
  in_batch a ->
  _weight_multiple a <> 0%Qc ->
  measurement_from_zero (snd (_calculate_measurement a)) = Some z ->
  let a' := snd (_calculate_measurement a) in
  fst (_calculate_measurement a) = Ok true /\
  _reads_filtered a' <> [] /\
  measurement a' = Some (Statistics.mean (_reads_filtered a')) /\
  z = (Statistics.mean (_reads_filtered a') - _zero_offset a)%Qc /\
  weight a' = Some (z / _weight_multiple a)%Qc.
Proof.
  intros Hb Hwm Hz.
  destruct (in_batch_fields a Hb) as (_ & _ & Hnone).
  destruct (calculate_averaged a z Hnone Hz) as (H1 & H2 & H3 & _ & H5).
  destruct (H5 Hwm) as [H6 H7]. cbv zeta. tauto.
Qed.

Lemma aggregate_values_agree_witness :
  let a := batch_of [4; 5; 6] (init 5) in
  fst (_calculate_measurement a) = Ok true /\
  weight (snd (_calculate_measurement a)) =
    Some (Num.of_Z 5 / _weight_multiple a)%Qc.
Proof.
  cbv zeta.
  assert (Hz : measurement_from_zero
                 (snd (_calculate_measurement (batch_of [4; 5; 6] (init 5))))
               = Some (Num.of_Z 5)).
  { apply some_qc_eq. vm_compute. reflexivity. }
  destruct (aggregate_values_agree (batch_of [4; 5; 6] (init 5))
              (Num.of_Z 5)) as (H1 & _ & _ & _ & H5).
  - apply in_batch_batch_of.
  - intros H. apply (f_equal this) in H. vm_compute in H. discriminate H.
  - exact Hz.
  - split; [ exact H1 | exact H5 ].
Defined.

(** Two valid reads or fewer, and no ratio at hand: no value. *)
Lemma calculate_few_reads a :
  _ratios_to_stdev a = [] ->
  (length (valid_reads (reads a)) <= 2)%nat ->
  (exists b, fst (_calculate_measurement a) = Ok b) /\
  measurement_from_zero (snd (_calculate_measurement a)) =
    measurement_from_zero a /\
  weight (snd (_calculate_measurement a)) = weight a.
Proof.
  intros Hratios Hlen.
  rewrite calculate_unfold.
  destruct a as [pin zo wm rdy cur raws rs maxsd filt maxn med devs sd
                 ratios m mfz w].
  fields_in Hratios. fields_in Hlen. subst. fields.
  destruct (valid_reads rs) as [| r1 [| r2 [| r3 l]]];
    [ fields; eauto | fields; eauto | | cbn in Hlen; lia ].
  cbv zeta. destruct (deviations_two r1 r2) as [d ->].
  unfold Statistics.stdev. rewrite variance_pair.
  destruct (Num.root_gtb _ maxsd).
  - match goal with |- context [filter_and_average ?x] =>
      destruct (filter_and_average_cases x)
        as [(Hk & ->) | [(Hk & _) | (Hk & _)]]
    end; [ fields; eauto | | ]; exfalso; apply Hk; reflexivity.
  - replace (Num.root_nonzero (Num.Sqrt 0%Qc)) with false by reflexivity.
    fields. eauto.
Qed.

(** A batch with two valid reads or fewer never gives a value: the
    aggregation returns without raising and leaves
    [measurement_from_zero] at [None] and [weight] as it was.  (One read
    takes the first early return; two reads are equally far from their
    median, so the spread is zero and the second early return is taken.) *)
Theorem few_reads_give_no_value (a : t) :
  in_batch a ->
  (length (valid_reads (reads a)) <= 2)%nat ->
  (exists b, fst (_calculate_measurement a) = Ok b) /\
  measurement_from_zero (snd (_calculate_measurement a)) = None /\
  weight (snd (_calculate_measurement a)) = weight a.
Proof.
  intros Hb Hlen.
  destruct (in_batch_fields a Hb) as (Hratios & _ & Hnone).
  destruct (calculate_few_reads a Hratios Hlen) as (H1 & H2 & H3).
  split; [ exact H1 | ]. split; [ congruence | exact H3 ].
Qed.

Lemma few_reads_give_no_value_witness :
  let a := batch_of [10; 12] (init 5) in
  fst (_calculate_measurement a) = Ok true /\
  measurement_from_zero (snd (_calculate_measurement a)) = None.
Proof.
  cbv zeta.
  destruct (few_reads_give_no_value (batch_of [10; 12] (init 5)))
    as ([b Hb] & Hz & _).
  - apply in_batch_batch_of.
  - vm_compute. lia.
  - split; [ vm_compute; reflexivity | exact Hz ].
Defined.

End AggregationValues.

(* ------------------------------------------------------------------ *)
(** ** Zeroing a device                                               *)
(* ------------------------------------------------------------------ *)

Section Zeroing.

Import ADC.

(** The aggregation does not touch the zero offset. *)
Lemma calculate_keeps_offset a :
  _zero_offset (snd (_calculate_measurement a)) = _zero_offset a.
Proof.
  unfold _calculate_measurement, filter_and_average.
  destruct a as [pin zo wm rdy cur raws rs maxsd filt maxn med devs sd
                 ratios m mfz w].
  lazy -[Statistics.median Statistics.stdev Statistics.mean Num.root_gtb
         Num.root_leb Num.root_nonzero Num.eqb Num.div_root Num.of_Z
         deviations valid_reads filter_by_ratio Qcminus Qcdiv Qcplus Q2Qc].
  destruct (valid_reads rs) as [| r1 [| r2 l]];
    [ reflexivity | reflexivity | ].
  destruct (Num.root_gtb _ maxsd).
  - destruct (filter_by_ratio _ _ _); [ reflexivity | ].
    destruct (Num.eqb wm _); reflexivity.
  - destruct (Num.root_nonzero _); [ | reflexivity ].
    destruct (filter_by_ratio _ _ _); [ reflexivity | ].
    destruct (Num.eqb wm _); reflexivity.
Qed.

Ltac fields_in H :=
  cbn [fst snd _dout_pin _zero_offset _weight_multiple _ready
       _current_raw_read raw_reads reads _max_stdev _reads_filtered
       _max_number_of_stdev_from_med _read_med _devs_from_med _read_stdev
       _ratios_to_stdev measurement measurement_from_zero weight
       set_zero_offset set_weight_multiple set_ready set_current_raw_read
       set_raw_reads set_reads set_reads_filtered set_read_med
       set_devs_from_med set_read_stdev set_ratios_to_stdev set_measurement
       set_measurement_from_zero set_weight] in H.

Lemma filter_by_ratio_nil limit vals : filter_by_ratio limit vals [] = [].
Proof. destruct vals; reflexivity. Qed.

(** Inside a batch the aggregation leaves no [measurement_from_zero]
    exactly when it fails or takes one of the two early returns. *)
Lemma calculate_value_absent b :
  in_batch b ->
  measurement_from_zero (snd (_calculate_measurement b)) = None <->
  fst (_calculate_measurement b) = Ok false \/
  single_valid b = true \/ zero_spread b = true.
Proof.
  intros Hb. destruct (in_batch_fields b Hb) as (Hratios & _ & Hnone).
  rewrite calculate_unfold. unfold single_valid, zero_spread, spread.
  destruct (valid_reads (reads b)) as [| r1 [| r2 l]] eqn:Hv.
  - cbn [fst snd]. split; [ intros _; left; reflexivity | ].
    intros _. exact Hnone.
  - cbn [fst snd]. split; [ intros _; right; left; reflexivity | ].
    intros _. exact Hnone.
  - cbv zeta.
    set (vals := r1 :: r2 :: l) in *.
    set (sd := Statistics.stdev (deviations (Statistics.median vals) vals)).
    set (a4 := set_read_stdev sd _).
    destruct (Num.root_gtb sd (_max_stdev b)) eqn:Hover; cbn [negb andb].
    + destruct (filter_and_average_cases (set_ready false a4))
        as [(_ & E) | [(Hk & _) | (Hk & _)]].
      * rewrite E. cbn [fst snd]. split; [ intros _; left; reflexivity | ].
        intros _. exact Hnone.
      * exfalso. apply Hk. cbv zeta. unfold a4. fields_in Hk.
        cbn [_ratios_to_stdev set_ready set_read_stdev set_devs_from_med
             set_read_med set_reads_filtered].
        rewrite Hratios. apply filter_by_ratio_nil.
      * exfalso. apply Hk. cbv zeta. unfold a4.
        cbn [_ratios_to_stdev set_ready set_read_stdev set_devs_from_med
             set_read_med set_reads_filtered].
        rewrite Hratios. apply filter_by_ratio_nil.
    + destruct (Num.root_nonzero sd) eqn:Hnz; cbn [negb].
      * match goal with
        | |- context [filter_and_average ?x] =>
            destruct (filter_and_average_cases x)
              as [(_ & E) | [(_ & _ & E) | (_ & _ & E)]];
              cbv zeta in E; rewrite E; cbn [fst snd]
        end.
        -- split; [ intros _; left; reflexivity | ].
           intros _. exact Hnone.
        -- split; [ discriminate | ].
           intros [H | [H | H]]; discriminate H.
        -- split; [ discriminate | ].
           intros [H | [H | H]]; discriminate H.
      * cbn [fst snd]. split; [ intros _; right; right; reflexivity | ].
        intros _. exact Hnone.
Qed.

(** Taring.  A device is zeroed from a measurement [m], which is then not
    zero.  Through any later batch and its aggregation the zero offset is
    [m]; and whenever that aggregation leaves a [measurement_from_zero],
    it is the measurement of the batch less [m], hence zero when the
    batch measures [m] again.  It leaves none exactly when it fails or
    takes one of the two early returns, which do not store one. *)
Theorem zeroed_device_reads_from_offset (a a1 b : t) :
  zero_from_last_measurement a = (Ok tt, a1) ->
  Effects.cycle_steps (_init_set_of_reads a1) b ->
  exists m,
    measurement a = Some m /\ m <> 0%Qc /\
    get_zero_offset b = m /\
    get_zero_offset (snd (_calculate_measurement b)) = m /\
    (forall z,
       measurement_from_zero (snd (_calculate_measurement b)) = Some z ->
       exists m',
         measurement (snd (_calculate_measurement b)) = Some m' /\
         z = (m' - m)%Qc /\ (m' = m -> z = 0%Qc)) /\
    (measurement_from_zero (snd (_calculate_measurement b)) = None <->
     fst (_calculate_measurement b) = Ok false \/
     single_valid b = true \/ zero_spread b = true).
Proof.
  unfold zero_from_last_measurement, zero, get_zero_offset.
  destruct (measurement a) as [m |] eqn:Hm; [ | discriminate ].
  destruct (Num.eqb m 0%Qc) eqn:Hnz; [ discriminate | ].
  intros [= <-] Hsteps. exists m.
  split; [ reflexivity | ].
  split; [ intros ->; vm_compute in Hnz; discriminate Hnz | ].
  pose proof (in_batch_steps _ _ Hsteps) as Hb.
  destruct (in_batch_fields b Hb) as (_ & _ & Hnone).
  apply cycle_steps_frame in Hsteps. destruct Hsteps as (_ & _ & Hzo).
  cbn in Hzo.
  split; [ exact Hzo | ].
  split; [ rewrite calculate_keeps_offset; exact Hzo | ].
  split; [ | apply calculate_value_absent, Hb ].
  intros z Hz.
  destruct (calculate_averaged b z Hnone Hz) as (_ & H2 & H3 & _).
  eexists. split; [ exact H2 | ].
  rewrite Hzo in H3. split; [ exact H3 | ].
  intros Heq. rewrite Heq in H3. subst z. ring.
Qed.

Lemma zeroed_device_reads_from_offset_witness :
  let a := snd (_calculate_measurement (batch_of [4; 5; 6] (init 5))) in
  let a1 := snd (zero_from_last_measurement a) in
  let b := batch_of [6; 5; 4] a1 in
  get_zero_offset (snd (_calculate_measurement b)) = Num.of_Z 5 /\
  measurement_from_zero (snd (_calculate_measurement b)) = Some 0%Qc.
Proof.
  cbv zeta.
  set (a := snd (_calculate_measurement (batch_of [4; 5; 6] (init 5)))).
  set (a1 := snd (zero_from_last_measurement a)).
  set (b := batch_of [6; 5; 4] a1).
  assert (Hma : measurement a = Some (Num.of_Z 5))
    by (apply some_qc_eq; vm_compute; reflexivity).
  assert (Hmb : measurement (snd (_calculate_measurement b)) =
                Some (Num.of_Z 5))
    by (apply some_qc_eq; vm_compute; reflexivity).
  destruct (zeroed_device_reads_from_offset a a1 b)
    as (m & Hm & _ & _ & Hzo & Hz & _).
  - assert (H : fst (zero_from_last_measurement a) = Ok tt)
      by (vm_compute; reflexivity).
    rewrite (surjective_pairing (zero_from_last_measurement a)) at 1.
    rewrite H. reflexivity.
  - unfold b, batch_of.
    generalize (_init_set_of_reads a1). intros a2.
    assert (Hc : forall v x, Effects.cycle_steps x (cycle_of v x)).
    { intros v x. unfold cycle_of.
      eapply Effects.steps_more; [ | apply step_finish_raw_read ].
      assert (Hs : forall bits y,
                 Effects.cycle_steps y
                   (fold_left (fun a1 level => shift_in level a1) bits y)).
      { induction bits as [| b0 bits IH]; intros y; cbn [fold_left].
        - apply Effects.steps_done.
        - eapply cycle_steps_trans; [ | apply IH ].
          apply cycle_steps_one. constructor. }
      eapply cycle_steps_trans; [ | apply Hs ].
      eapply Effects.steps_more;
        [ | exact (step_is_ready (_init_raw_read x) Worlds.quiet) ].
      apply cycle_steps_one. constructor. }
    cbn [fold_left].
    eapply cycle_steps_trans; [ apply Hc | ].
    eapply cycle_steps_trans; [ apply Hc | ]. apply Hc.
  - rewrite Hma in Hm. injection Hm as <-.
    split; [ exact Hzo | ].
    destruct (measurement_from_zero (snd (_calculate_measurement b)))
      as [z |] eqn:E; [ | vm_compute in E; discriminate E ].
    destruct (Hz z eq_refl) as (m' & Hm' & _ & H0).
    rewrite Hmb in Hm'. injection Hm' as <-.
    rewrite (H0 eq_refl). reflexivity.
Defined.

End Zeroing.

(* ------------------------------------------------------------------ *)
(** ** The histories through a cycle                                  *)
(* ------------------------------------------------------------------ *)

Section CycleHistory.

Import HX711 Effects History.

Lemma Forall2_compose {A} (R S : A -> A -> Prop) l1 l2 l3 :
  Forall2 R l1 l2 -> Forall2 S l2 l3 ->
  Forall2 (fun a c => exists b, R a b /\ S b c) l1 l3.
Proof.
  intros H12. revert l3.
  induction H12 as [| a b l1 l2 Hab _ IH]; intros l3 H23;
    inversion H23; subst; constructor; eauto.
Qed.

Lemma Forall2_and {A} (R S : A -> A -> Prop) l1 l2 :
  Forall2 R l1 l2 -> Forall2 S l1 l2 ->
  Forall2 (fun a b => R a b /\ S a b) l1 l2.
Proof.
  intros HR. induction HR as [| a b l1 l2 Hab _ IH]; intros HS;
    inversion HS; subst; constructor; auto.
Qed.

Lemma shift_bits_ready bits a :
  ADC._ready (ADC.shift_bits bits a) = ADC._ready a.
Proof.
  pose proof (shift_bits_frame bits a) as Hf.
  apply (f_equal ADC._ready) in Hf. exact Hf.
Qed.

Lemma shifts_refl n a : shifts n false a a.
Proof.
  exists []. split; [ reflexivity | ]. split; [ reflexivity | discriminate ].
Qed.

Lemma shifts_trans n m whole a b c :
  shifts n true a b -> shifts m whole b c -> shifts (n + m) whole a c.
Proof.
  intros (bits1 & -> & Hn1 & Hl1) (bits2 & -> & Hn2 & Hl2).
  rewrite shift_bits_ready in Hn2, Hl2.
  exists (bits1 ++ bits2). split; [ symmetry; apply shift_bits_app | ].
  split.
  - intros Hr. rewrite Hn1, Hn2 by exact Hr. reflexivity.
  - intros Hw Hr. rewrite length_app, Hl1, Hl2 by auto. reflexivity.
Qed.

Lemma shift_exact adcs w :
  exists adcs' w',
    shift adcs w = (adcs', w') /\ Forall2 (shifts 1 true) adcs adcs'.
Proof.
  revert w. induction adcs as [| a adcs IH]; intros w; cbn [shift].
  - exists [], w. split; [ reflexivity | constructor ].
  - assert (H1 : exists a1 w1,
               (if ADC._ready a then ADC._shift_and_read a w else (a, w)) =
                 (a1, w1) /\ shifts 1 true a a1).
    { destruct (ADC._ready a) eqn:Hr.
      - unfold ADC._shift_and_read. cbn. eexists _, _.
        split; [ reflexivity | ].
        eexists [_]. split; [ reflexivity | ].
        split; [ congruence | reflexivity ].
      - exists a, w. split; [ reflexivity | ].
        exists []. split; [ reflexivity | ].
        split; [ reflexivity | congruence ]. }
    destruct H1 as (a1 & w1 & E1 & Hs). rewrite E1.
    destruct (IH w1) as (adcs1 & w2 & E2 & Hf). rewrite E2.
    exists (a1 :: adcs1), w2. split; [ reflexivity | ].
    constructor; assumption.
Qed.

Lemma shift_adcs_exact s :
  exists s',
    shift_adcs s = (Ok tt, s') /\
    Forall2 (shifts 1 true) (_adcs (self s)) (_adcs (self s')).
Proof.
  unfold shift_adcs.
  destruct (shift_exact (_adcs (self s)) (world s)) as (adcs1 & w1 & E & Hf).
  rewrite E. eexists. split; [ reflexivity | exact Hf ].
Qed.

(** The 24-bit loop: every ready device reads one level per pulse. *)
Lemma read_bits_exact n s :
  exists r s',
    read_bits n s = (Ok r, s') /\
    Forall2 (shifts n r) (_adcs (self s)) (_adcs (self s')).
Proof.
  revert s. induction n as [| n IH]; intros s; cbn [read_bits].
  - exists true, s. split; [ reflexivity | ].
    apply Forall2_same. intros a. exists [].
    split; [ reflexivity | ]. split; reflexivity.
  - unfold bind at 1.
    destruct (pulse_sck_high_spec s) as (ok & s1 & E & Hself & _).
    rewrite E. destruct ok.
    + unfold bind at 1.
      destruct (shift_adcs_exact s1) as (s2 & E2 & Hf2). rewrite E2.
      destruct (IH s2) as (r & s3 & E3 & Hf3). rewrite E3.
      exists r, s3. split; [ reflexivity | ].
      rewrite Hself in Hf2.
      pose proof (Forall2_compose _ _ _ _ _ Hf2 Hf3) as Hf.
      eapply Forall2_weaken; [ | exact Hf ].
      intros a c (b & H1 & H2).
      apply (shifts_trans 1 n r a b c H1 H2).
    + exists false, s1. split; [ reflexivity | ].
      rewrite Hself. apply Forall2_same. intros a. apply shifts_refl.
Qed.

Lemma polled_after_init lv a a2 :
  polled lv (ADC._init_raw_read a) a2 ->
  ADC._current_raw_read a2 = 0 /\
  ADC.raw_reads a2 = ADC.raw_reads a /\ ADC.reads a2 = ADC.reads a.
Proof.
  intros (Hset & _).
  repeat split;
    [ apply (f_equal ADC._current_raw_read) in Hset
    | apply (f_equal ADC.raw_reads) in Hset
    | apply (f_equal ADC.reads) in Hset ]; exact Hset.
Qed.

(** One device through a cycle that reaches the end of the 24-bit loop. *)
Lemma cycled_device ok lv a a2 a3 :
  polled lv (ADC._init_raw_read a) a2 ->
  shifts 24 true a2 a3 ->
  cycled ok a (if ADC._ready a3 then ADC._finish_raw_read a3 else a3).
Proof.
  intros Hp (bits & -> & Hnone & Hlen).
  destruct (polled_after_init _ _ _ Hp) as (Hcur & Hraw & Hreads).
  rewrite shift_bits_ready.
  destruct (shift_bits_history bits a2) as [Hraw3 Hreads3].
  destruct (ADC._ready a2) eqn:Hr.
  - right. exists (ADC._current_raw_read (ADC.shift_bits bits a2)).
    split; [ apply shift_bits_range; auto | ].
    destruct (finish_raw_read_history (ADC.shift_bits bits a2)) as [H1 H2].
    split; [ split; cbn [map]; congruence | ].
    split; [ | reflexivity ].
    change (ADC._ready (ADC._finish_raw_read (ADC.shift_bits bits a2)))
      with (ADC._ready (ADC.shift_bits bits a2)).
    rewrite shift_bits_ready. exact Hr.
  - left. rewrite (Hnone eq_refl). cbn [ADC.shift_bits fold_left].
    split; [ | intros _; exact Hr ].
    split; cbn [map]; rewrite app_nil_r; assumption.
Qed.

(** One device through a cycle that stops before the histories are
    extended. *)
Lemma cycled_stopped lv n a a2 a3 :
  polled lv (ADC._init_raw_read a) a2 ->
  shifts n false a2 a3 ->
  cycled false a a3.
Proof.
  intros Hp (bits & -> & _).
  destruct (polled_after_init _ _ _ Hp) as (_ & Hraw & Hreads).
  destruct (shift_bits_history bits a2) as [Hraw3 Hreads3].
  left. split; [ | discriminate ].
  split; cbn [map]; rewrite app_nil_r; congruence.
Qed.

(** One cycle, device by device. *)
Lemma read_history s :
  exists r s',
    _read s = (Ok r, s') /\
    Forall2 (cycled r) (_adcs (self s)) (_adcs (self s')).
Proof.
  unfold _read, bind at 1, each_adc.
  set (s1 := mkState _ (world s)).
  unfold bind at 1.
  destruct (prepare_to_read_spec s1) as (ready & s2 & E2 & Hrun2 & _).
  rewrite E2. unfold bind at 1, get.
  destruct Hrun2 as (_ & _ & Hf2).
  unfold s1 in Hf2. cbn [self world _adcs set_adcs] in Hf2.
  apply Forall2_map_left in Hf2.
  set (lv := GPIO.levels (world s)) in *.
  assert (Hp : Forall2 (fun a a2 => polled lv (ADC._init_raw_read a) a2)
                       (_adcs (self s)) (_adcs (self s2))).
  { eapply Forall2_weaken; [ | exact Hf2 ]. intros a b [H _]. exact H. }
  clear Hf2.
  destruct (negb ready && _all_or_nothing (self s2)).
  { exists false, s2. split; [ reflexivity | ].
    eapply Forall2_weaken; [ | exact Hp ].
    intros a a2 H. apply (cycled_stopped lv 0 a a2 a2 H), shifts_refl. }
  unfold bind at 1.
  destruct (read_bits_exact 24 s2) as (ok & s3 & E3 & Hf3).
  rewrite E3.
  pose proof (Forall2_compose _ _ _ _ _ Hp Hf3) as Hf.
  destruct ok; cbn [negb].
  2:{ exists false, s3. split; [ reflexivity | ].
      eapply Forall2_weaken; [ | exact Hf ].
      intros a a3 (a2 & H1 & H2). eapply cycled_stopped; eassumption. }
  unfold bind at 1, each_adc.
  set (s4 := mkState _ (world s3)).
  unfold bind at 1.
  destruct (write_channel_gain_spec s4) as (ok & s5 & E5 & Hself & _).
  rewrite E5.
  assert (H5 : Forall2 (cycled ok) (_adcs (self s)) (_adcs (self s5))).
  { rewrite Hself. unfold s4. cbn [self _adcs set_adcs].
    clear - Hf. induction Hf as [| a a3 l l3 (a2 & H1 & H2) _ IH];
      cbn [map]; constructor; [ | exact IH ].
    eapply cycled_device; eassumption. }
  destruct ok; cbn [negb]; unfold ret; eexists _, s5;
    (split; [ reflexivity | exact H5 ]).
Qed.

(** One read cycle and the histories.  The cycle returns, and every
    device either keeps its history (and then, if the cycle succeeded, it
    was found not ready) or is ready and has taken exactly one 24-bit
    pattern, appended to [raw_reads] with its signed value, or [None],
    appended to [reads]. *)
Theorem cycle_appends_one_pattern (s : state) :
  exists r s',
    _read s = (Ok r, s') /\
    Forall2 (fun a a' =>
               (ADC.raw_reads a' = ADC.raw_reads a /\
                ADC.reads a' = ADC.reads a /\
                (r = true -> ADC._ready a' = false)) \/
               (exists v, 0 <= v < 2 ^ 24 /\
                  ADC.raw_reads a' = ADC.raw_reads a ++ [v] /\
                  ADC.reads a' =
                    ADC.reads a ++ [ADC.convert_to_signed_value v] /\
                  ADC._ready a' = true))
            (_adcs (self s)) (_adcs (self s')).
Proof.
  destruct (read_history s) as (r & s' & E & Hf).
  exists r, s'. split; [ exact E | ].
  eapply Forall2_weaken; [ | exact Hf ].
  intros a a' [([H1 H2] & H3) | (v & Hv & [H1 H2] & H3 & _)].
  - left. cbn [map] in H2. rewrite app_nil_r in H1, H2. auto.
  - right. exists v. auto.
Qed.

End CycleHistory.

(* ------------------------------------------------------------------ *)
(** ** The histories through a batch                                  *)
(* ------------------------------------------------------------------ *)

Section BatchHistory.

Import HX711 Effects History.

Lemma valid_reads_length rs :
  (length (ADC.valid_reads rs) <= length rs)%nat.
Proof.
  induction rs as [| [v |] rs IH]; cbn; [ lia | | ];
    unfold ADC.valid_reads in IH; lia.
Qed.

(** The aggregation does not touch the raw patterns. *)
Lemma calculate_keeps_raw a :
  ADC.raw_reads (snd (ADC._calculate_measurement a)) = ADC.raw_reads a.
Proof.
  unfold ADC._calculate_measurement, ADC.filter_and_average.
  destruct a as [pin zo wm rdy cur raws rs maxsd filt maxn med devs sd
                 ratios m mfz w].
  lazy -[Statistics.median Statistics.stdev Statistics.mean Num.root_gtb
         Num.root_leb Num.root_nonzero Num.eqb Num.div_root Num.of_Z
         ADC.deviations ADC.valid_reads ADC.filter_by_ratio Qcminus Qcdiv
         Qcplus Q2Qc].
  destruct (ADC.valid_reads rs) as [| r1 [| r2 l]];
    [ reflexivity | reflexivity | ].
  destruct (Num.root_gtb _ maxsd).
  - destruct (ADC.filter_by_ratio _ _ _); [ reflexivity | ].
    destruct (Num.eqb wm _); reflexivity.
  - destruct (Num.root_nonzero _); [ | reflexivity ].
    destruct (ADC.filter_by_ratio _ _ _); [ reflexivity | ].
    destruct (Num.eqb wm _); reflexivity.
Qed.

Lemma cycled_took ok a a' : cycled ok a a' -> took 1 a a'.
Proof.
  intros [(H & _) | (v & Hv & H & _)].
  - exists []. split; [ cbn; lia | ]. split; [ constructor | exact H ].
  - exists [v]. split; [ cbn; lia | ].
    split; [ constructor; [ exact Hv | constructor ] | exact H ].
Qed.

Lemma took_trans n m a b c : took n a b -> took m b c -> took (n + m) a c.
Proof.
  intros (vs & Hl1 & Hp1 & [H1 H2]) (ws & Hl2 & Hp2 & [H3 H4]).
  exists (vs ++ ws). split; [ rewrite length_app; lia | ].
  split; [ apply Forall_app; split; assumption | ].
  split; [ rewrite H3, H1, app_assoc; reflexivity | ].
  rewrite H4, H2, map_app, app_assoc. reflexivity.
Qed.

(** [n] cycles in a row. *)
Lemma read_times_history n s :
  exists s',
    read_times n s = (Ok tt, s') /\
    Forall2 (took n) (_adcs (self s)) (_adcs (self s')).
Proof.
  revert s. induction n as [| n IH]; intros s; cbn [read_times].
  - exists s. split; [ reflexivity | ].
    apply Forall2_same. intros a. exists [].
    split; [ reflexivity | ]. split; [ constructor | ].
    split; cbn [map]; rewrite app_nil_r; reflexivity.
  - unfold bind at 1.
    destruct (read_history s) as (r & s1 & E & Hf). rewrite E.
    destruct (IH s1) as (s2 & E2 & Hf2). rewrite E2.
    exists s2. split; [ reflexivity | ].
    pose proof (Forall2_compose _ _ _ _ _ Hf Hf2) as H.
    eapply Forall2_weaken; [ | exact H ].
    intros a c (b & H1 & H2).
    apply (took_trans 1 n a b c); [ eapply cycled_took, H1 | exact H2 ].
Qed.

(** [read_raw] when it returns: the state every device was in when the
    batch was aggregated, with what it had taken by then. *)
Lemma read_raw_history n s v s' :
  read_raw n s = (Ok v, s') ->
  Forall2 (fun a0 a' =>
             exists a,
               ADC.in_batch a /\
               took (Z.to_nat n) (ADC._init_set_of_reads a0) a /\
               ((ADC._ready a = true /\
                 a' = snd (ADC._calculate_measurement a)) \/
                (ADC._ready a = false /\ a' = a)))
          (_adcs (self s)) (_adcs (self s')).
Proof.
  unfold read_raw. destruct (in_range n) eqn:Hn; cbn [negb];
    [ | discriminate ].
  unfold bind at 1, each_adc.
  set (s1 := mkState _ (world s)).
  unfold bind at 1.
  destruct (read_times_spec (Z.to_nat n) s1) as (s2 & E2 & Hrun2).
  destruct (read_times_history (Z.to_nat n) s1) as (s2' & E2' & Hf2).
  rewrite E2 in E2'. injection E2' as <-.
  rewrite E2. unfold bind at 1, each_ready_adc.
  destruct (for_ready_spec ADC._calculate_measurement (_adcs (self s2)))
    as (_ & Hok & _).
  destruct (for_ready ADC._calculate_measurement (_adcs (self s2)))
    as [[[] | e] adcs3] eqn:E3; [ | discriminate ].
  cbn [fst snd] in Hok. specialize (Hok eq_refl).
  unfold bind, get. cbn [self world _adcs set_adcs].
  intros Hret.
  assert (Hs' : s' = mkState (set_adcs adcs3 (self s2)) (world s2)).
  { eapply returned_state, Hret. }
  subst s'. cbn [self world _adcs set_adcs] in *.
  destruct Hrun2 as (_ & _ & Hf).
  unfold s1 in Hf, Hf2. cbn [self _adcs set_adcs] in Hf, Hf2.
  apply Forall2_map_left in Hf. apply Forall2_map_left in Hf2.
  pose proof (Forall2_and _ _ _ _ Hf Hf2) as Hboth.
  pose proof (Forall2_compose _ _ _ _ _ Hboth Hok) as H.
  eapply Forall2_weaken; [ | exact H ].
  intros a0 a' (a & [Hsteps Htook] & Hcase). cbv beta in Hsteps, Htook.
  exists a. split; [ eapply in_batch_steps, Hsteps | ].
  split; [ exact Htook | ].
  destruct Hcase as [(Hr & -> & _) | (Hr & ->)]; auto.
Qed.

Lemma Forall2_right {A B} (R : A -> B -> Prop) (P : B -> Prop) l l' :
  (forall a b, R a b -> P b) -> Forall2 R l l' -> Forall P l'.
Proof. intros H. induction 1; constructor; eauto. Qed.

(** The histories after a batch.  When [read_raw] returns, every device
    holds at most [readings_to_average] raw patterns, each of them a
    24-bit value, and its signed reads are their conversions, one for
    one. *)
Theorem batch_history (n : Z) (s s' : state) (v : pyval) :
  read_raw n s = (Ok v, s') ->
  Forall (fun a' =>
            (length (ADC.raw_reads a') <= Z.to_nat n)%nat /\
            Forall (fun x => 0 <= x < 2 ^ 24) (ADC.raw_reads a') /\
            ADC.reads a' =
              map ADC.convert_to_signed_value (ADC.raw_reads a'))
         (_adcs (self s')).
Proof.
  intros Hread. apply read_raw_history in Hread.
  eapply Forall2_right; [ | exact Hread ].
  intros a0 a' (a & _ & (vs & Hlen & Hpat & [Hraw Hreads]) & Hcase).
  change (ADC.raw_reads (ADC._init_set_of_reads a0)) with (@nil Z) in Hraw.
  change (ADC.reads (ADC._init_set_of_reads a0))
    with (@nil (option Z)) in Hreads.
  cbn [app] in Hraw, Hreads.
  assert (Ha : ADC.raw_reads a' = vs /\
               ADC.reads a' = map ADC.convert_to_signed_value vs).
  { destruct Hcase as [(_ & ->) | (_ & ->)]; [ | auto ].
    destruct (calculate_keeps a) as [-> _].
    rewrite calculate_keeps_raw. auto. }
  destruct Ha as [-> ->]. auto.
Qed.

Lemma batch_history_witness :
  let s := mkState (Examples.two_devices true) Worlds.quiet in
  Forall (fun a' => (length (ADC.raw_reads a') <= 3)%nat /\
                    ADC.reads a' =
                      map ADC.convert_to_signed_value (ADC.raw_reads a'))
         (_adcs (self (snd (read_raw 3 s)))).
Proof.
  cbv zeta.
  set (s := mkState (Examples.two_devices true) Worlds.quiet).
  assert (Hfst : fst (read_raw 3 s) = Ok (PList [None; None]))
    by (vm_compute; reflexivity).
  assert (Hread : read_raw 3 s = (Ok (PList [None; None]),
                                  snd (read_raw 3 s))).
  { rewrite (surjective_pairing (read_raw 3 s)) at 1.
    rewrite Hfst. reflexivity. }
  pose proof (batch_history 3 s _ _ Hread) as H.
  eapply Forall_impl; [ | exact H ].
  intros a (H1 & _ & H3). split; assumption.
Defined.

(** A batch of one or two cycles never gives a value: when [read_raw]
    returns for [readings_to_average <= 2], every device is left without
    a [measurement_from_zero], and what is returned is [None] (from a
    scalar pin) or a list of [None]s. *)
Theorem read_raw_needs_three_reads (n : Z) (s s' : state) (v : pyval) :
  n <= 2 ->
  read_raw n s = (Ok v, s') ->
  Forall (fun a' => ADC.measurement_from_zero a' = None) (_adcs (self s')) /\
  (v = PNone \/ exists k, v = PList (repeat None k)).
Proof.
  intros Hn Hread.
  assert (Hall : Forall (fun a' => ADC.measurement_from_zero a' = None)
                        (_adcs (self s'))).
  { pose proof (read_raw_history _ _ _ _ Hread) as H.
    eapply Forall2_right; [ | exact H ].
    intros a0 a' (a & Hb & (vs & Hlen & _ & [_ Hreads]) & Hcase).
    destruct (in_batch_fields a Hb) as (Hratios & _ & Hnone).
    destruct Hcase as [(_ & ->) | (_ & ->)]; [ | exact Hnone ].
    destruct (calculate_few_reads a Hratios) as (_ & H2 & _);
      [ | congruence ].
    eapply Nat.le_trans; [ apply valid_reads_length | ].
    rewrite Hreads. cbn [ADC.reads ADC._init_set_of_reads app].
    change (ADC.reads (ADC._init_set_of_reads a0)) with (@nil (option Z)).
    cbn [app]. rewrite length_map. lia. }
  split; [ exact Hall | ].
  destruct (read_raw_spec _ _ _ _ Hread) as (_ & _ & _ & Hret).
  assert (Hmap : map ADC.measurement_from_zero (_adcs (self s')) =
                 repeat None (length (_adcs (self s')))).
  { clear - Hall. induction Hall as [| a l Ha _ IH]; [ reflexivity | ].
    cbn [map length repeat]. rewrite Ha, IH. reflexivity. }
  rewrite Hmap in Hret. unfold returned, ret, raise in Hret.
  destruct (_single_adc (self s')).
  - destruct (length (_adcs (self s'))); cbn [repeat] in Hret;
      [ discriminate | ].
    injection Hret as <-. left. reflexivity.
  - injection Hret as <-. right. eexists. reflexivity.
Qed.

Lemma read_raw_needs_three_reads_witness :
  let s := mkState (Examples.two_devices true) Worlds.quiet in
  fst (read_raw 2 s) = Ok (PList [None; None]) /\
  Forall (fun a' => ADC.measurement_from_zero a' = None)
         (_adcs (self (snd (read_raw 2 s)))).
Proof.
  cbv zeta.
  set (s := mkState (Examples.two_devices true) Worlds.quiet).
  assert (Hfst : fst (read_raw 2 s) = Ok (PList [None; None]))
    by (vm_compute; reflexivity).
  assert (Hread : read_raw 2 s = (Ok (PList [None; None]),
                                  snd (read_raw 2 s))).
  { rewrite (surjective_pairing (read_raw 2 s)) at 1.
    rewrite Hfst. reflexivity. }
  split; [ exact Hfst | ].
  apply (read_raw_needs_three_reads 2 s _ _ ltac:(lia) Hread).
Defined.

End BatchHistory.

(* ------------------------------------------------------------------ *)
(** ** The constructor                                                *)
(* ------------------------------------------------------------------ *)

Section Construction.

Import HX711 Effects History.







End Construction.

(* ------------------------------------------------------------------ *)
(** ** [zero]: the outcome                                            *)
(* ------------------------------------------------------------------ *)

Section ZeroController.

Import HX711 Effects History.

Lemma contains_None_list v b : contains_None v = Ok b -> exists l, v = PList l.
Proof. destruct v; try discriminate. eauto. Qed.

Lemma returned_list h values s l s' :
  returned h values s = (Ok (PList l), s') -> _single_adc h = false.
Proof.
  unfold returned, ret, raise. destruct (_single_adc h); [ | reflexivity ].
  destruct values as [| [q |] rest]; discriminate.
Qed.

(** The retry loop of [zero], when it returns: without a round it hands
    back what it was given; else the count is valid, the controller was
    not built from a scalar pin and the readings are a list. *)
Lemma zero_loop_returns k n readings s v s1 :
  zero_loop k n readings s = (Ok v, s1) ->
  (k = O /\ v = readings /\ s1 = s) \/
  (k <> O /\ in_range n = true /\ same_config (self s) (self s1) /\
   _single_adc (self s) = false /\ exists l, v = PList l).
Proof.
  revert readings s. induction k as [| k IH]; intros readings s;
    cbn [zero_loop].
  - unfold ret. intros [= <- <-]. left. auto.
  - unfold bind at 1.
    destruct (read_raw n s) as [[rn | e] s2] eqn:E; [ | discriminate ].
    destruct (read_raw_spec _ _ _ _ E) as (Hn & Hc & _ & Hret).
    unfold bind at 1.
    assert (Hmerge : forall r1 s3,
      match readings with
      | PNone => ret rn
      | _ => lift (merge_readings rn readings)
      end s2 = (Ok r1, s3) ->
      s3 = s2 /\ (r1 = rn \/ exists l, rn = PList l)).
    { intros r1 s3. unfold ret, lift.
      destruct readings as [| q | old]; destruct rn as [| q' | new];
        cbn [merge_readings]; intros [= <- <-] || discriminate; eauto. }
    destruct (match readings with
              | PNone => ret rn
              | _ => lift (merge_readings rn readings)
              end s2) as [[r1 | e] s3] eqn:E1; [ | discriminate ].
    destruct (Hmerge _ _ eq_refl) as [-> Hr1].
    unfold bind at 1, lift.
    destruct (contains_None r1) as [missing | e] eqn:Em; [ | discriminate ].
    destruct (contains_None_list _ _ Em) as [l Hl].
    assert (Hrn : exists l0, rn = PList l0).
    { destruct Hr1 as [-> | H]; [ eauto | exact H ]. }
    destruct Hrn as [l0 ->].
    assert (Hsingle : _single_adc (self s) = false).
    { apply returned_list in Hret.
      apply same_config_fields in Hc. destruct Hc as (_ & _ & <- & _).
      exact Hret. }
    intros Hrest. right. split; [ discriminate | ].
    split; [ exact Hn | ].
    destruct missing; cbn [negb] in Hrest.
    + destruct (IH _ _ Hrest) as [(_ & -> & ->) | (_ & _ & Hc2 & _ & Hv)].
      * split; [ exact Hc | ]. split; [ exact Hsingle | eauto ].
      * split; [ eapply same_config_trans; eassumption | ].
        split; [ exact Hsingle | exact Hv ].
    + unfold ret in Hrest. injection Hrest as <- <-.
      split; [ exact Hc | ]. split; [ exact Hsingle | eauto ].
Qed.

(** [zero] when it succeeds: the retry limit is positive and the count
    valid, the controller was not built from a scalar pin, and every
    device that is ready has a measurement, not zero, which is now its
    zero offset. *)
Theorem zero_sets_offsets (n k : Z) (s s' : state) :
  zero n k s = (Ok tt, s') ->
  0 < k /\ in_range n = true /\
  _single_adc (self s') = false /\
  Forall (fun a' =>
            ADC._ready a' = true ->
            exists m, ADC.measurement a' = Some m /\ m <> 0%Qc /\
                      ADC.get_zero_offset a' = m)
         (_adcs (self s')).
Proof.
  unfold zero, bind at 1.
  destruct (zero_loop (Z.to_nat k) n PNone s) as [[v | e] s1] eqn:E;
    [ | discriminate ].
  unfold bind at 1, lift.
  destruct (contains_None v) as [missing | e] eqn:Em; [ | discriminate ].
  destruct missing; [ discriminate | ].
  destruct (zero_loop_returns _ _ _ _ _ _ E)
    as [(_ & -> & _) | (Hk & Hn & Hc & Hsingle & _)]; [ discriminate | ].
  unfold each_ready_adc.
  destruct (for_ready_spec ADC.zero_from_last_measurement (_adcs (self s1)))
    as (_ & Hok & _).
  destruct (for_ready ADC.zero_from_last_measurement (_adcs (self s1)))
    as [[[] | e] adcs2]; [ | discriminate ].
  intros [= <-]. cbn [self _adcs set_adcs _single_adc fst snd] in *.
  split; [ lia | ]. split; [ exact Hn | ].
  split.
  { apply same_config_fields in Hc. destruct Hc as (_ & _ & -> & _).
    exact Hsingle. }
  eapply Forall2_right; [ | exact (Hok eq_refl) ].
  intros a a' [(Hr & -> & b & Hb) | (Hr & ->)]; [ | congruence ].
  intros _. unfold ADC.zero_from_last_measurement in *.
  destruct (ADC.measurement a) as [m |] eqn:Hm; [ | discriminate ].
  destruct (Num.eqb m 0%Qc) eqn:Hz; [ discriminate | ].
  exists m. cbn. split; [ exact Hm | ]. split; [ | reflexivity ].
  intros ->. vm_compute in Hz. discriminate Hz.
Qed.

Lemma zero_sets_offsets_witness :
  let s := mkState Examples.one_in_list (Worlds.blip 74) in
  fst (zero 3 1 s) = Ok tt /\
  Forall (fun a' =>
            ADC._ready a' = true ->
            exists m, ADC.measurement a' = Some m /\ m <> 0%Qc /\
                      ADC.get_zero_offset a' = m)
         (_adcs (self (snd (zero 3 1 s)))).
Proof.
  cbv zeta.
  set (s := mkState Examples.one_in_list (Worlds.blip 74)).
  assert (Hfst : fst (zero 3 1 s) = Ok tt) by (vm_compute; reflexivity).
  assert (Hzero : zero 3 1 s = (Ok tt, snd (zero 3 1 s))).
  { rewrite (surjective_pairing (zero 3 1 s)) at 1.
    rewrite Hfst. reflexivity. }
  split; [ exact Hfst | ].
  apply (zero_sets_offsets 3 1 s _ Hzero).
Defined.

(** With a retry limit below one [zero] reads nothing: it raises
    [TypeError] at the test [None in readings], [readings] still being
    [None], and controller and world are untouched. *)
Theorem zero_without_retries (n k : Z) (s : state) :
  k <= 0 -> zero n k s = (Raise TypeError, s).
Proof.
  intros Hk. unfold zero.
  assert (H : Z.to_nat k = O) by lia.
  rewrite H. reflexivity.
Qed.

Lemma zero_without_retries_witness :
  zero 30 0 (mkState (Examples.two_devices true) Worlds.quiet) =
  (Raise TypeError, mkState (Examples.two_devices true) Worlds.quiet).
Proof. apply zero_without_retries. lia. Defined.

End ZeroController.

(* ------------------------------------------------------------------ *)
(** ** Weights                                                        *)
(* ------------------------------------------------------------------ *)

Section Weights.

Import HX711 Effects History.

(** An aggregation that leaves no [measurement_from_zero] has not touched
    [weight]. *)
Lemma calculate_without_value a :
  ADC.measurement_from_zero (snd (ADC._calculate_measurement a)) = None ->
  ADC.weight (snd (ADC._calculate_measurement a)) = ADC.weight a.
Proof.
  rewrite calculate_unfold.
  destruct a as [pin zo wm rdy cur raws rs maxsd filt maxn med devs sd
                 ratios m mfz w].
  cbn [ADC.reads ADC._max_stdev].
  destruct (ADC.valid_reads rs) as [| r1 [| r2 l]];
    [ reflexivity | reflexivity | ].
  cbv zeta.
  destruct (Num.root_gtb _ maxsd).
  - match goal with |- context [ADC.filter_and_average ?x] =>
      destruct (filter_and_average_cases x)
        as [(Hk & ->) | [(Hk & Hw & ->) | (Hk & Hw & ->)]]
    end; [ reflexivity | discriminate | discriminate ].
  - destruct (Num.root_nonzero _); [ | reflexivity ].
    match goal with |- context [ADC.filter_and_average ?x] =>
      destruct (filter_and_average_cases x)
        as [(Hk & ->) | [(Hk & Hw & ->) | (Hk & Hw & ->)]]
    end; [ reflexivity | discriminate | discriminate ].
Qed.

(** A device through a batch: its weight follows its
    [measurement_from_zero], or stays. *)
Lemma aggregated_weight a0 a' :
  aggregated a0 a' ->
  match ADC.measurement_from_zero a' with
  | Some z => ADC.weight a' = Some (z / ADC._weight_multiple a0)%Qc
  | None => ADC.weight a' = ADC.weight a0
  end.
Proof.
  intros (a & Hsteps & Hcase).
  pose proof (in_batch_steps _ _ Hsteps) as Hb.
  destruct (in_batch_fields a Hb) as (_ & _ & Hnone).
  apply cycle_steps_frame in Hsteps. destruct Hsteps as (Hw & Hwm & _).
  change (ADC.weight (ADC._init_set_of_reads a0)) with (ADC.weight a0) in Hw.
  change (ADC._weight_multiple (ADC._init_set_of_reads a0))
    with (ADC._weight_multiple a0) in Hwm.
  destruct Hcase as [(_ & -> & b & Hok) | (_ & ->)].
  - destruct (ADC.measurement_from_zero
                (snd (ADC._calculate_measurement a))) as [z |] eqn:Hz.
    + destruct (calculate_averaged a z Hnone Hz) as (_ & _ & _ & H0 & H1).
      destruct (Qc_eq_dec (ADC._weight_multiple a) 0%Qc) as [Hzero | Hnz].
      * destruct (H0 Hzero) as [Hraise _]. congruence.
      * destruct (H1 Hnz) as [_ ->]. rewrite Hwm. reflexivity.
    + rewrite (calculate_without_value a Hz). exact Hw.
  - rewrite Hnone. exact Hw.
Qed.

(** [read_weight] with a fresh batch.  When it returns, it has run
    [read_raw]; a device with a [measurement_from_zero] has as weight that
    value divided by its weight multiple, and a device without one still
    has the weight it had before the batch, which is what is returned for
    it. *)
Theorem read_weight_values (n : Z) (s s' : state) (v : pyval) :
  read_weight n false s = (Ok v, s') ->
  (exists v0, read_raw n s = (Ok v0, s')) /\
  Forall2 (fun a0 a' =>
             match ADC.measurement_from_zero a' with
             | Some z => ADC.weight a' = Some (z / ADC._weight_multiple a0)%Qc
             | None => ADC.weight a' = ADC.weight a0
             end)
          (_adcs (self s)) (_adcs (self s')) /\
  returned (self s') (map ADC.weight (_adcs (self s'))) s' = (Ok v, s').
Proof.
  unfold read_weight. destruct (in_range n); cbn [negb]; [ | discriminate ].
  unfold bind at 1. unfold bind at 1.
  destruct (read_raw n s) as [[v0 | e] s1] eqn:E; [ | discriminate ].
  unfold ret, bind, get. intros Hret.
  pose proof (returned_state _ _ _ _ _ Hret) as ->.
  split; [ eauto | ]. split; [ | exact Hret ].
  destruct (read_raw_spec _ _ _ _ E) as (_ & _ & Hagg & _).
  eapply Forall2_weaken; [ | exact Hagg ].
  intros a0 a'. apply aggregated_weight.
Qed.

Lemma read_weight_values_witness :
  let s := mkState Examples.one_in_list (Worlds.blip 74) in
  fst (read_weight 3 false s) =
    Ok (PList [Some (Num.of_Z 1 / Num.of_Z 3)%Qc]) /\
  Forall2 (fun a0 a' =>
             match ADC.measurement_from_zero a' with
             | Some z => ADC.weight a' = Some (z / ADC._weight_multiple a0)%Qc
             | None => ADC.weight a' = ADC.weight a0
             end)
          (_adcs (self s)) (_adcs (self (snd (read_weight 3 false s)))).
Proof.
  cbv zeta.
  set (s := mkState Examples.one_in_list (Worlds.blip 74)).
  set (v := PList [Some (Num.of_Z 1 / Num.of_Z 3)%Qc]).
  assert (Hfst : fst (read_weight 3 false s) = Ok v).
  { assert (H : match fst (read_weight 3 false s) with
                | Ok (PList [o]) =>
                    option_map this o =
                    Some (this (Num.of_Z 1 / Num.of_Z 3)%Qc)
                | _ => False
                end) by (vm_compute; reflexivity).
    destruct (fst (read_weight 3 false s)) as [[| q | [| o [| o' l]]] | e];
      try contradiction.
    apply some_qc_eq in H. subst o. reflexivity. }
  assert (Hread : read_weight 3 false s = (Ok v, snd (read_weight 3 false s))).
  { rewrite (surjective_pairing (read_weight 3 false s)) at 1.
    rewrite Hfst. reflexivity. }
  split; [ exact Hfst | ].
  apply (read_weight_values 3 s _ v Hread).
Defined.

End Weights.

(* ------------------------------------------------------------------ *)
(** ** Cycles under a steady clock                                    *)
(* ------------------------------------------------------------------ *)

Section SteadyClock.

Import HX711 Effects History.

Lemma steady_same_lines w w' :
  same_lines w w' -> GPIO.steady w -> GPIO.steady w'.
Proof. intros [_ H] Hs t. rewrite H. apply Hs. Qed.

Lemma pulse_sck_high_steady s :
  GPIO.steady (world s) ->
  exists s',
    _pulse_sck_high s = (Ok true, s') /\ self s' = self s /\
    same_lines (world s) (world s') /\ pulses s' = S (pulses s).
Proof.
  intros Hs.
  destruct (pulse_sck_high_spec s) as (r & s' & E & H1 & H2 & H3).
  exists s'. split; [ | auto ].
  rewrite E. f_equal. f_equal.
  unfold _pulse_sck_high, bind, get, ask, act, ret in E.
  cbn [self world] in E. unfold GPIO.pulse_overruns in E.
  rewrite Hs in E. injection E as <- _. reflexivity.
Qed.

Lemma pulse_times_steady n s :
  GPIO.steady (world s) ->
  exists s',
    pulse_times n s = (Ok true, s') /\ self s' = self s /\
    same_lines (world s) (world s') /\ pulses s' = (pulses s + n)%nat.
Proof.
  revert s. induction n as [| n IH]; intros s Hs; cbn [pulse_times].
  - exists s. split; [ reflexivity | ]. split; [ reflexivity | ].
    split; [ apply same_lines_refl | lia ].
  - unfold bind at 1.
    destruct (pulse_sck_high_steady s Hs) as (s1 & E & Hself & Hl & Hpu).
    rewrite E.
    destruct (IH s1 (steady_same_lines _ _ Hl Hs))
      as (s2 & E2 & Hself2 & Hl2 & Hpu2).
    rewrite E2. exists s2. split; [ reflexivity | ].
    split; [ congruence | ].
    split; [ eapply same_lines_trans; eassumption | lia ].
Qed.

Lemma read_bits_steady n s :
  GPIO.steady (world s) ->
  exists s',
    read_bits n s = (Ok true, s') /\
    same_lines (world s) (world s') /\ pulses s' = (pulses s + n)%nat.
Proof.
  revert s. induction n as [| n IH]; intros s Hs; cbn [read_bits].
  - exists s. split; [ reflexivity | ].
    split; [ apply same_lines_refl | lia ].
  - unfold bind at 1.
    destruct (pulse_sck_high_steady s Hs) as (s1 & E & Hself & Hl & Hpu).
    rewrite E. unfold bind at 1.
    destruct (shift_adcs_spec s1) as (s2 & E2 & (_ & Hl2 & _) & Hpu2).
    rewrite E2.
    assert (Hl02 : same_lines (world s) (world s2))
      by (eapply same_lines_trans; eassumption).
    destruct (IH s2 (steady_same_lines _ _ Hl02 Hs)) as (s3 & E3 & Hl3 & Hpu3).
    rewrite E3. exists s3. split; [ reflexivity | ].
    split; [ eapply same_lines_trans; eassumption | lia ].
Qed.

Lemma shifts_keep_ready n whole l2 l3 :
  Forall2 (shifts n whole) l2 l3 ->
  forallb ADC._ready
    (map (fun a => if ADC._ready a then ADC._finish_raw_read a else a) l3) =
  forallb ADC._ready l2.
Proof.
  induction 1 as [| a2 a3 l2 l3 (bits & -> & _) _ IH]; [ reflexivity | ].
  cbn [map forallb]. rewrite IH. f_equal.
  rewrite shift_bits_ready.
  destruct (ADC._ready a2) eqn:Hr; [ | rewrite shift_bits_ready; exact Hr ].
  change (ADC._ready (ADC._finish_raw_read (ADC.shift_bits bits a2)))
    with (ADC._ready (ADC.shift_bits bits a2)).
  rewrite shift_bits_ready. exact Hr.
Qed.

(** With a clock that never overruns, a read cycle fails exactly when
    [all_or_nothing] is set and some device is not ready after the
    polling; a cycle that fails has issued no pulse, one that succeeds
    exactly [24 + extra]. *)
Theorem steady_cycle_outcome (s : state) :
  GPIO.steady (world s) ->
  exists r s',
    _read s = (Ok r, s') /\
    r = negb (_all_or_nothing (self s)) ||
        forallb ADC._ready (_adcs (self s')) /\
    pulses s' = (if r then pulses s + 24 + num_pulses (self s)
                 else pulses s)%nat.
Proof.
  intros Hs.
  unfold _read, bind at 1, each_adc.
  set (s1 := mkState _ (world s)).
  assert (Hpu1 : pulses s1 = pulses s) by reflexivity.
  unfold bind at 1.
  destruct (prepare_to_read_spec s1)
    as (ready & s2 & E2 & (Hc2 & Hl2 & _) & Hpu2 & Hready & _).
  rewrite E2. unfold bind at 1, get.
  assert (Hc : same_config (self s) (self s2)).
  { eapply same_config_trans; [ apply same_config_set_adcs | exact Hc2 ]. }
  pose proof (same_config_fields _ _ Hc) as (_ & Haon & _ & Hch & Hg).
  assert (Hnp : num_pulses (self s2) = num_pulses (self s)).
  { unfold num_pulses. rewrite Hch, Hg. reflexivity. }
  rewrite Haon.
  destruct (negb ready && _all_or_nothing (self s)) eqn:Hstop.
  { exists false, s2. split; [ reflexivity | ].
    apply andb_true_iff in Hstop. destruct Hstop as [Hr ->].
    apply negb_true_iff in Hr. subst ready. rewrite Hr.
    split; [ reflexivity | lia ]. }
  unfold bind at 1.
  assert (Hs2 : GPIO.steady (world s2))
    by (eapply steady_same_lines; [ exact Hl2 | exact Hs ]).
  destruct (read_bits_steady 24 s2 Hs2) as (s3 & E3 & Hl3 & Hpu3).
  destruct (read_bits_exact 24 s2) as (ok & s3' & E3' & Hf3).
  rewrite E3 in E3'. injection E3' as <- <-.
  rewrite E3. cbn [negb].
  unfold bind at 1, each_adc.
  set (s4 := mkState _ (world s3)).
  unfold bind at 1.
  assert (Hs4 : GPIO.steady (world s4))
    by (eapply steady_same_lines; [ exact Hl3 | exact Hs2 ]).
  unfold _write_channel_gain, bind at 1, get.
  destruct (pulse_times_steady (num_pulses (self s4)) s4 Hs4)
    as (s5 & E5 & Hself & _ & Hpu5).
  rewrite E5. cbn [negb]. unfold ret.
  exists true, s5. split; [ reflexivity | ].
  assert (Hnp4 : num_pulses (self s4) = num_pulses (self s)).
  { rewrite <- Hnp.
    destruct (read_bits_spec 24 s2) as (r & s3' & E3' & (Hc3 & _) & _).
    rewrite E3 in E3'. injection E3' as <- <-.
    apply same_config_fields in Hc3. destruct Hc3 as (_ & _ & _ & H1 & H2).
    unfold num_pulses, s4. cbn [self set_adcs _channel_select _channel_A_gain].
    rewrite H1, H2. reflexivity. }
  split.
  - rewrite Hself. unfold s4. cbn [self _adcs set_adcs].
    rewrite (shifts_keep_ready _ _ _ _ Hf3), <- Hready.
    apply andb_false_iff in Hstop.
    destruct Hstop as [Hr | Ha].
    + apply negb_false_iff in Hr. rewrite Hr. symmetry. apply orb_true_r.
    + rewrite Ha. reflexivity.
  - rewrite Hpu5, Hnp4. unfold s4 at 1.
    change (pulses (mkState (set_adcs _ (self s3)) (world s3)))
      with (pulses s3).
    lia.
Qed.

Lemma steady_cycle_outcome_witness :
  exists s',
    _read (mkState (Examples.two_devices true) Worlds.quiet) =
      (Ok true, s') /\
    pulses s' = 25%nat.
Proof.
  destruct (steady_cycle_outcome
              (mkState (Examples.two_devices true) Worlds.quiet))
    as (r & s' & E & Hr & Hpu).
  - intros t. reflexivity.
  - assert (Hfst : fst (_read (mkState (Examples.two_devices true)
                                 Worlds.quiet)) = Ok true)
      by (vm_compute; reflexivity).
    rewrite E in Hfst. cbn in Hfst. injection Hfst as ->.
    exists s'. split; [ exact E | exact Hpu ].
Defined.

End SteadyClock.

(* ------------------------------------------------------------------ *)
(** ** What a method does to the lines                                *)
(* ------------------------------------------------------------------ *)

Section TraceInvariant.

Import HX711 Effects.

(** A property [Q] of the trace that survives what a cycle does once the
    clock line is low: reading a line, sleeping, logging, a clock pulse
    and driving the clock low; [P] is what is needed for [Q] to hold once
    the clock is driven low. *)
Variable sck : Z.
Variables P Q : list GPIO.event -> Prop.
Hypothesis Q_input :
  forall pin level tr, Q tr -> Q (GPIO.Input pin level :: tr).
Hypothesis Q_sleep : forall ms tr, Q tr -> Q (GPIO.Sleep ms :: tr).
Hypothesis Q_log : forall m tr, Q tr -> Q (GPIO.Log m :: tr).
Hypothesis Q_pulse :
  forall tr, Q tr ->
             Q (GPIO.Output sck false :: GPIO.Output sck true :: tr).
Hypothesis P_low : forall tr, P tr -> Q (GPIO.Output sck false :: tr).

Lemma is_ready_inv a w :
  Q (GPIO.trace w) -> Q (GPIO.trace (snd (ADC._is_ready a w))).
Proof.
  intros H. unfold ADC._is_ready. destruct (ADC._ready a); [ exact H | ].
  cbn. apply Q_input, H.
Qed.

Lemma poll_inv adcs w :
  Q (GPIO.trace w) -> Q (GPIO.trace (snd (poll adcs w))).
Proof.
  revert w. induction adcs as [| a adcs IH]; intros w H; cbn [poll].
  - exact H.
  - pose proof (is_ready_inv a w H) as H1.
    destruct (ADC._is_ready a w) as [[r a1] w1]. cbn [snd] in H1.
    specialize (IH w1 H1).
    destruct (poll adcs w1) as [[rs rest1] w2]. exact IH.
Qed.

Lemma shift_inv adcs w :
  Q (GPIO.trace w) -> Q (GPIO.trace (snd (shift adcs w))).
Proof.
  revert w. induction adcs as [| a adcs IH]; intros w H; cbn [shift].
  - exact H.
  - assert (H1 : Q (GPIO.trace
                      (snd (if ADC._ready a then ADC._shift_and_read a w
                            else (a, w))))).
    { destruct (ADC._ready a); [ | exact H ].
      unfold ADC._shift_and_read. cbn. apply Q_input, H. }
    destruct (if ADC._ready a then ADC._shift_and_read a w else (a, w))
      as [a1 w1]. cbn [snd] in H1.
    specialize (IH w1 H1).
    destruct (shift adcs w1) as [rest1 w2]. exact IH.
Qed.

(** The invariant on states: the clock pin is [sck] and [Q] holds of the
    trace. *)
Lemma poll_loop_inv n s r s' :
  poll_loop n s = (r, s') ->
  _sck_pin (self s) = sck /\ Q (GPIO.trace (world s)) ->
  _sck_pin (self s') = sck /\ Q (GPIO.trace (world s')).
Proof.
  revert s r s'. induction n as [| n IH]; intros s r s' E [Hs HQ];
    cbn [poll_loop] in E.
  - unfold ret in E. injection E as <- <-. split; assumption.
  - unfold bind at 1, poll_adcs in E.
    pose proof (poll_inv (_adcs (self s)) (world s) HQ) as H1.
    destruct (poll (_adcs (self s)) (world s)) as [[rs adcs1] w1].
    cbn [snd] in H1.
    destruct (forallb id rs).
    + unfold ret in E. injection E as <- <-. split; assumption.
    + unfold bind at 1, act in E. cbn [self world] in E.
      unfold bind at 1 in E.
      match type of E with
      | context [poll_loop n ?x] => set (s2 := x) in *
      end.
      assert (H2 : _sck_pin (self s2) = sck /\ Q (GPIO.trace (world s2))).
      { split; [ exact Hs | ]. cbn. apply Q_sleep, H1. }
      destruct (poll_loop n s2) as [[k | e] s3] eqn:E3;
        [ unfold ret in E | ]; injection E as <- <-;
        eapply IH; eassumption.
Qed.

Lemma prepare_to_read_inv s r s' :
  _prepare_to_read s = (r, s') ->
  _sck_pin (self s) = sck /\ P (GPIO.trace (world s)) ->
  _sck_pin (self s') = sck /\ Q (GPIO.trace (world s')).
Proof.
  intros E [Hs HP]. unfold _prepare_to_read, bind at 1, get in E.
  unfold bind at 1, act in E. cbn [self world] in E.
  unfold bind at 1 in E.
  match type of E with
  | context [poll_loop 20 ?x] => set (s1 := x) in *
  end.
  assert (H1 : _sck_pin (self s1) = sck /\ Q (GPIO.trace (world s1))).
  { split; [ exact Hs | ]. cbn. rewrite Hs. apply P_low, HP. }
  destruct (poll_loop 20 s1) as [[k | e] s2] eqn:E2.
  - destruct (poll_loop_inv _ _ _ _ E2 H1) as [Hs2 HQ2].
    unfold bind, get, act, ret in E. cbn [self world] in E.
    injection E as <- <-. split; [ exact Hs2 | ]. cbn. apply Q_log, HQ2.
  - injection E as <- <-. eapply poll_loop_inv; eassumption.
Qed.

Lemma pulse_sck_high_inv s r s' :
  _pulse_sck_high s = (r, s') ->
  _sck_pin (self s) = sck /\ Q (GPIO.trace (world s)) ->
  _sck_pin (self s') = sck /\ Q (GPIO.trace (world s')).
Proof.
  intros E [Hs HQ]. unfold _pulse_sck_high, bind, get, ask, act, ret in E.
  cbn [self world] in E. rewrite Hs in E.
  destruct (GPIO.pulse_overruns (world s)); injection E as <- <-;
    cbn [self world]; (split; [ exact Hs | ]); cbn.
  - apply Q_log, Q_pulse, HQ.
  - apply Q_pulse, HQ.
Qed.

Lemma pulse_times_inv n s r s' :
  pulse_times n s = (r, s') ->
  _sck_pin (self s) = sck /\ Q (GPIO.trace (world s)) ->
  _sck_pin (self s') = sck /\ Q (GPIO.trace (world s')).
Proof.
  revert s r s'. induction n as [| n IH]; intros s r s' E H;
    cbn [pulse_times] in E.
  - unfold ret in E. injection E as <- <-. exact H.
  - unfold bind at 1 in E.
    destruct (_pulse_sck_high s) as [[[] | e] s1] eqn:E1.
    + eapply IH; [ exact E | ]. eapply pulse_sck_high_inv; eassumption.
    + unfold ret in E. injection E as <- <-.
      eapply pulse_sck_high_inv; eassumption.
    + injection E as <- <-. eapply pulse_sck_high_inv; eassumption.
Qed.

Lemma shift_adcs_inv s r s' :
  shift_adcs s = (r, s') ->
  _sck_pin (self s) = sck /\ Q (GPIO.trace (world s)) ->
  _sck_pin (self s') = sck /\ Q (GPIO.trace (world s')).
Proof.
  intros E [Hs HQ]. unfold shift_adcs in E.
  pose proof (shift_inv (_adcs (self s)) (world s) HQ) as H1.
  destruct (shift (_adcs (self s)) (world s)) as [adcs1 w1].
  injection E as <- <-. split; [ exact Hs | exact H1 ].
Qed.

Lemma read_bits_inv n s r s' :
  read_bits n s = (r, s') ->
  _sck_pin (self s) = sck /\ Q (GPIO.trace (world s)) ->
  _sck_pin (self s') = sck /\ Q (GPIO.trace (world s')).
Proof.
  revert s r s'. induction n as [| n IH]; intros s r s' E H;
    cbn [read_bits] in E.
  - unfold ret in E. injection E as <- <-. exact H.
  - unfold bind at 1 in E.
    destruct (_pulse_sck_high s) as [[[] | e] s1] eqn:E1.
    + unfold bind at 1 in E.
      pose proof (pulse_sck_high_inv _ _ _ E1 H) as H1.
      destruct (shift_adcs s1) as [[[] | e] s2] eqn:E2.
      * eapply IH; [ exact E | ]. eapply shift_adcs_inv; eassumption.
      * injection E as <- <-. eapply shift_adcs_inv; eassumption.
    + unfold ret in E. injection E as <- <-.
      eapply pulse_sck_high_inv; eassumption.
    + injection E as <- <-. eapply pulse_sck_high_inv; eassumption.
Qed.

(** One cycle: [Q] holds afterwards whenever [P] held before. *)
Lemma read_inv s r s' :
  _read s = (r, s') ->
  _sck_pin (self s) = sck /\ P (GPIO.trace (world s)) ->
  _sck_pin (self s') = sck /\ Q (GPIO.trace (world s')).
Proof.
  intros E H. unfold _read, bind at 1, each_adc in E.
  set (s1 := mkState _ (world s)) in E.
  assert (H1 : _sck_pin (self s1) = sck /\ P (GPIO.trace (world s1)))
    by exact H.
  unfold bind at 1 in E.
  destruct (_prepare_to_read s1) as [[ready | e] s2] eqn:E2.
  2:{ injection E as <- <-. eapply prepare_to_read_inv; eassumption. }
  pose proof (prepare_to_read_inv _ _ _ E2 H1) as H2.
  unfold bind at 1, get in E.
  destruct (negb ready && _all_or_nothing (self s2)).
  { unfold ret in E. injection E as <- <-. exact H2. }
  unfold bind at 1 in E.
  destruct (read_bits 24 s2) as [[ok | e] s3] eqn:E3.
  2:{ injection E as <- <-. eapply read_bits_inv; eassumption. }
  pose proof (read_bits_inv _ _ _ _ E3 H2) as H3.
  destruct ok; cbn [negb] in E.
  2:{ unfold ret in E. injection E as <- <-. exact H3. }
  unfold bind at 1, each_adc in E.
  set (s4 := mkState _ (world s3)) in E.
  assert (H4 : _sck_pin (self s4) = sck /\ Q (GPIO.trace (world s4)))
    by exact H3.
  unfold bind at 1, _write_channel_gain, bind at 1, get in E.
  destruct (pulse_times (num_pulses (self s4)) s4) as [[ok | e] s5] eqn:E5.
  2:{ injection E as <- <-. eapply pulse_times_inv; eassumption. }
  pose proof (pulse_times_inv _ _ _ _ E5 H4) as H5.
  destruct ok; cbn [negb] in E; unfold ret in E; injection E as <- <-;
    exact H5.
Qed.

End TraceInvariant.

Section TraceInvariantBatch.

Import HX711 Effects.

(** The same for the methods built from cycles, for a property that
    holds on to the end once it holds. *)
Variable sck : Z.
Variable Q : list GPIO.event -> Prop.
Hypothesis Q_input :
  forall pin level tr, Q tr -> Q (GPIO.Input pin level :: tr).
Hypothesis Q_sleep : forall ms tr, Q tr -> Q (GPIO.Sleep ms :: tr).
Hypothesis Q_log : forall m tr, Q tr -> Q (GPIO.Log m :: tr).
Hypothesis Q_output :
  forall level tr, Q tr -> Q (GPIO.Output sck level :: tr).

Lemma read_keeps s r s' :
  _read s = (r, s') ->
  _sck_pin (self s) = sck /\ Q (GPIO.trace (world s)) ->
  _sck_pin (self s') = sck /\ Q (GPIO.trace (world s')).
Proof.
  apply (read_inv sck Q Q); auto.
Qed.

Lemma read_times_keeps n s r s' :
  read_times n s = (r, s') ->
  _sck_pin (self s) = sck /\ Q (GPIO.trace (world s)) ->
  _sck_pin (self s') = sck /\ Q (GPIO.trace (world s')).
Proof.
  revert s r s'. induction n as [| n IH]; intros s r s' E H;
    cbn [read_times] in E.
  - unfold ret in E. injection E as <- <-. exact H.
  - unfold bind at 1 in E.
    destruct (_read s) as [[ok | e] s1] eqn:E1.
    + eapply IH; [ exact E | ]. eapply read_keeps; eassumption.
    + injection E as <- <-. eapply read_keeps; eassumption.
Qed.

Lemma read_raw_keeps n s r s' :
  read_raw n s = (r, s') ->
  _sck_pin (self s) = sck /\ Q (GPIO.trace (world s)) ->
  _sck_pin (self s') = sck /\ Q (GPIO.trace (world s')).
Proof.
  intros E H. unfold read_raw in E.
  destruct (negb (in_range n)).
  { unfold raise in E. injection E as <- <-. exact H. }
  unfold bind at 1, each_adc in E.
  set (s1 := mkState _ (world s)) in E.
  assert (H1 : _sck_pin (self s1) = sck /\ Q (GPIO.trace (world s1)))
    by exact H.
  unfold bind at 1 in E.
  destruct (read_times (Z.to_nat n) s1) as [[[] | e] s2] eqn:E2.
  2:{ injection E as <- <-. eapply read_times_keeps; eassumption. }
  pose proof (read_times_keeps _ _ _ _ E2 H1) as H2.
  unfold bind at 1, each_ready_adc in E.
  destruct (for_ready ADC._calculate_measurement (_adcs (self s2)))
    as [[[] | e] adcs3].
  2:{ injection E as <- <-. exact H2. }
  unfold bind, get in E. cbn [self world] in E.
  apply returned_state in E. subst s'. exact H2.
Qed.

End TraceInvariantBatch.

Section ClockLine.

Import HX711 Effects.

Lemma last_output_driven sck level tr :
  GPIO.last_output sck (GPIO.Output sck level :: tr) = Some level.
Proof. cbn. rewrite Z.eqb_refl. reflexivity. Qed.

(** The clock line after the methods that drive it.  After a read cycle,
    whatever it returns, after [power_up] and after [reset] the clock
    line was last driven low; after [power_down] it was last driven high
    and the method has slept its 10 ms as its last act. *)
Theorem clock_line_levels (s : state) :
  let sck := _sck_pin (self s) in
  let after (s' : state) := GPIO.last_output sck (GPIO.trace (world s')) in
  after (snd (_read s)) = Some false /\
  after (snd (power_up s)) = Some false /\
  after (snd (reset s)) = Some false /\
  after (snd (power_down s)) = Some true /\
  GPIO.trace (world (snd (power_down s))) =
    GPIO.Sleep 10 :: GPIO.Output sck true :: GPIO.Output sck false ::
    GPIO.trace (world s).
Proof.
  cbv zeta.
  assert (Hread : forall s0 r s1,
             _read s0 = (r, s1) ->
             _sck_pin (self s1) = _sck_pin (self s0) /\
             GPIO.last_output (_sck_pin (self s0)) (GPIO.trace (world s1)) =
               Some false).
  { intros s0 r s1 E.
    apply (read_inv (_sck_pin (self s0)) (fun _ => True)
             (fun tr => GPIO.last_output (_sck_pin (self s0)) tr =
                        Some false)) with (s := s0) (r := r).
    - intros pin level tr H. exact H.
    - intros ms tr H. exact H.
    - intros m tr H. exact H.
    - intros tr _. apply last_output_driven.
    - intros tr _. apply last_output_driven.
    - exact E.
    - split; [ reflexivity | exact I ]. }
  assert (Hup : forall s0,
             GPIO.last_output (_sck_pin (self s0))
               (GPIO.trace (world (snd (power_up s0)))) = Some false).
  { intros s0. unfold power_up, bind at 1, get.
    unfold bind at 1, act. cbn [self world]. unfold bind at 1.
    set (s1 := mkState _ _).
    destruct (_read s1) as [[ok | e] s2] eqn:E;
      destruct (Hread _ _ _ E) as [_ H]; [ | exact H ].
    unfold bind, act, ret. cbn [snd self world]. exact H. }
  split.
  { destruct (_read s) as [r s1] eqn:E. apply (Hread _ _ _ E). }
  split; [ apply Hup | ].
  split; [ | split; [ apply last_output_driven | reflexivity ] ].
  unfold reset, bind at 1.
  change (power_down s)
    with (Ok tt, mkState (self s)
                   (GPIO.sleep 10
                      (GPIO.output (_sck_pin (self s)) true
                         (GPIO.output (_sck_pin (self s)) false (world s))))).
  cbv iota beta. apply (Hup (mkState (self s) _)).
Qed.

(** What the methods do to the lines.  A read cycle, a batch
    ([read_raw]), [power_down], [power_up] and [reset] only add events to
    the trace, and among the events they add none sets a pin up and none
    drives a line other than the clock. *)
Theorem only_the_clock_is_driven (s : state) (n : Z) :
  let sck := _sck_pin (self s) in
  let spared (s' : state) :=
    exists evs, GPIO.trace (world s') = evs ++ GPIO.trace (world s) /\
                Forall (GPIO.spares sck) evs in
  spared (snd (_read s)) /\ spared (snd (read_raw n s)) /\
  spared (snd (power_down s)) /\ spared (snd (power_up s)) /\
  spared (snd (reset s)).
Proof.
  cbv zeta.
  set (sck := _sck_pin (self s)).
  set (Q := fun tr : list GPIO.event =>
              exists evs, tr = evs ++ GPIO.trace (world s) /\
                          Forall (GPIO.spares sck) evs).
  assert (Qadd : forall e tr, GPIO.spares sck e -> Q tr -> Q (e :: tr)).
  { intros e tr He (evs & -> & Hevs). exists (e :: evs).
    split; [ reflexivity | constructor; assumption ]. }
  assert (Q0 : Q (GPIO.trace (world s))).
  { exists []. split; [ reflexivity | constructor ]. }
  assert (Hread : forall s0 r s1,
             _read s0 = (r, s1) ->
             _sck_pin (self s0) = sck /\ Q (GPIO.trace (world s0)) ->
             _sck_pin (self s1) = sck /\ Q (GPIO.trace (world s1))).
  { intros s0 r s1. apply (read_keeps sck Q); intros; apply Qadd;
      cbn; auto. }
  assert (Hdown : Q (GPIO.trace (world (snd (power_down s))))).
  { cbn. repeat apply Qadd; cbn; auto. }
  assert (Hup : forall s0,
             _sck_pin (self s0) = sck /\ Q (GPIO.trace (world s0)) ->
             Q (GPIO.trace (world (snd (power_up s0))))).
  { intros s0 [Hs HQ]. unfold power_up, bind at 1, get.
    unfold bind at 1, act. cbn [self world]. unfold bind at 1.
    set (s1 := mkState _ _).
    assert (H1 : _sck_pin (self s1) = sck /\ Q (GPIO.trace (world s1))).
    { split; [ exact Hs | ]. cbn. apply Qadd; [ exact Hs | exact HQ ]. }
    destruct (_read s1) as [[ok | e] s2] eqn:E;
      destruct (Hread _ _ _ E H1) as [_ H]; [ | exact H ].
    unfold bind, act, ret. cbn [snd self world]. cbn.
    apply Qadd; [ exact I | exact H ]. }
  split.
  { destruct (_read s) as [r s1] eqn:E.
    apply (Hread _ _ _ E). split; [ reflexivity | exact Q0 ]. }
  split.
  { destruct (read_raw n s) as [r s1] eqn:E.
    eapply (read_raw_keeps sck Q); try eassumption;
      try (intros; apply Qadd; cbn; auto).
    split; [ reflexivity | exact Q0 ]. }
  split; [ exact Hdown | ].
  split; [ apply Hup; split; [ reflexivity | exact Q0 ] | ].
  unfold reset, bind at 1.
  change (power_down s)
    with (Ok tt, mkState (self s)
                   (GPIO.sleep 10
                      (GPIO.output (_sck_pin (self s)) true
                         (GPIO.output (_sck_pin (self s)) false (world s))))).
  cbv iota beta. apply Hup. split; [ reflexivity | exact Hdown ].
Qed.

End ClockLine.

(* ------------------------------------------------------------------ *)
(** ** Weight multiples                                               *)
(* ------------------------------------------------------------------ *)

Section WeightMultiples.

Import HX711 Effects.

Lemma assign_multiples_ext pick1 pick2 i adcs ms :
  (forall j a, pick1 j a = pick2 j a) ->
  assign_multiples pick1 i adcs ms = assign_multiples pick2 i adcs ms.
Proof.
  intros Hext. revert i ms.
  induction adcs as [| a rest IH]; intros i ms; cbn [assign_multiples].
  - reflexivity.
  - rewrite Hext. destruct (pick2 i a).
    + destruct ms as [| m ms]; [ reflexivity | ]. rewrite IH. reflexivity.
    + rewrite IH. reflexivity.
Qed.

Lemma assign_multiples_none pick i adcs ms :
  (forall j a, In a adcs -> pick j a = false) ->
  assign_multiples pick i adcs ms = adcs.
Proof.
  revert i. induction adcs as [| a rest IH]; intros i Hno;
    cbn [assign_multiples].
  - reflexivity.
  - rewrite Hno by (left; reflexivity).
    rewrite IH; [ reflexivity | ].
    intros j b Hb. apply Hno. right. exact Hb.
Qed.

Lemma assign_multiples_length pick i adcs ms :
  length (assign_multiples pick i adcs ms) = length adcs.
Proof.
  revert i ms. induction adcs as [| a rest IH]; intros i ms;
    cbn [assign_multiples length]; [ reflexivity | ].
  destruct (pick i a); [ destruct ms | ]; cbn [length];
    rewrite ?IH; reflexivity.
Qed.

(** The devices after a positional assignment, index by index. *)
Lemma assign_multiples_positional pick adcs :
  forall i ms k a,
    (forall j b, (i <= j)%nat -> pick j b = (j <? i + length ms)%nat) ->
    nth_error adcs k = Some a ->
    nth_error (assign_multiples pick i adcs ms) k =
      Some (match nth_error ms k with
            | Some m => ADC.set_weight_multiple m a
            | None => a
            end).
Proof.
  induction adcs as [| a0 rest IH]; intros i ms k a Hpick Hk.
  - destruct k; discriminate.
  - cbn [assign_multiples]. rewrite Hpick by lia.
    destruct ms as [| m ms].
    + cbn [length]. rewrite Nat.add_0_r, Nat.ltb_irrefl.
      destruct k as [| k]; cbn [nth_error] in *.
      * exact Hk.
      * rewrite (IH (S i) [] k a); [ destruct k; reflexivity | | exact Hk ].
        intros j b Hj. rewrite Hpick by lia. cbn [length].
        destruct (Nat.ltb_spec j (i + 0)), (Nat.ltb_spec j (S i + 0));
          (reflexivity || lia).
    + assert (Hlt : (i <? i + length (m :: ms))%nat = true).
      { apply Nat.ltb_lt. cbn [length]. lia. }
      rewrite Hlt.
      destruct k as [| k]; cbn [nth_error] in *.
      * injection Hk as ->. reflexivity.
      * apply IH; [ | exact Hk ].
        intros j b Hj. rewrite Hpick by lia. cbn [length].
        f_equal. lia.
Qed.

Lemma picked_range n i a :
  picked (map Z.of_nat (seq 0 n)) None i a = (i <? n)%nat.
Proof.
  unfold picked.
  destruct (Nat.ltb_spec i n) as [Hlt | Hge].
  - apply existsb_exists. exists (Z.of_nat i).
    split; [ | apply Z.eqb_refl ].
    apply in_map, in_seq. lia.
  - destruct (existsb _ _) eqn:He; [ | reflexivity ].
    apply existsb_exists in He. destruct He as (z & Hin & Hz).
    apply Z.eqb_eq in Hz. subst z.
    apply in_map_iff in Hin. destruct Hin as (j & Hj & Hin).
    apply in_seq in Hin. lia.
Qed.

(** [set_weight_multiples] with neither indices nor pins: the multiples
    go to the devices by position, the k-th multiple to the k-th device;
    multiples beyond the devices are dropped, devices beyond the
    multiples are left as they are.  Nothing but the weight multiple of a
    device changes, and the world is not touched. *)
Theorem set_weight_multiples_by_position (weight_multiples : Qc + list Qc)
  (s : state) :
  let ms := convert_to_list_any weight_multiples in
  exists s',
    set_weight_multiples weight_multiples None None s = (Ok tt, s') /\
    world s' = world s /\ same_config (self s) (self s') /\
    length (_adcs (self s')) = length (_adcs (self s)) /\
    forall k a,
      nth_error (_adcs (self s)) k = Some a ->
      nth_error (_adcs (self s')) k =
        Some (match nth_error ms k with
              | Some m => ADC.set_weight_multiple m a
              | None => a
              end).
Proof.
  cbv zeta. unfold set_weight_multiples. cbn [option_map].
  eexists. split; [ reflexivity | ]. cbn [self world _adcs set_adcs].
  split; [ reflexivity | ]. split; [ reflexivity | ].
  set (ms := convert_to_list_any weight_multiples).
  assert (Hnth : forall k a,
    nth_error (_adcs (self s)) k = Some a ->
    nth_error
      (assign_multiples (picked (map Z.of_nat (seq 0 (length ms))) None) 0
         (_adcs (self s)) ms) k =
    Some (match nth_error ms k with
          | Some m => ADC.set_weight_multiple m a
          | None => a
          end)).
  { intros k a Hk. apply assign_multiples_positional; [ | exact Hk ].
    intros j b _. apply picked_range. }
  split; [ apply assign_multiples_length | exact Hnth ].
Qed.

(** The indices given to [set_weight_multiples] select devices, they do
    not order them: two lists of indices with the same members give the
    same assignment, the multiples going to the selected devices in the
    order of the devices. *)
Theorem set_weight_multiples_ignores_index_order
  (weight_multiples : Qc + list Qc) (indices1 indices2 : list Z)
  (s : state) :
  (forall z, In z indices1 <-> In z indices2) ->
  set_weight_multiples weight_multiples (Some (inr indices1)) None s =
  set_weight_multiples weight_multiples (Some (inr indices2)) None s.
Proof.
  intros Hsame. unfold set_weight_multiples.
  cbn [option_map convert_to_list].
  f_equal. f_equal. f_equal.
  apply assign_multiples_ext. intros j a. unfold picked.
  destruct (existsb (Z.eqb (Z.of_nat j)) indices2) eqn:H2.
  - apply existsb_exists in H2. destruct H2 as (z & Hin & Hz).
    apply existsb_exists. exists z. split; [ apply Hsame, Hin | exact Hz ].
  - destruct (existsb (Z.eqb (Z.of_nat j)) indices1) eqn:H1;
      [ | reflexivity ].
    apply existsb_exists in H1. destruct H1 as (z & Hin & Hz).
    assert (H : existsb (Z.eqb (Z.of_nat j)) indices2 = true).
    { apply existsb_exists. exists z.
      split; [ apply Hsame, Hin | exact Hz ]. }
    congruence.
Qed.

Lemma set_weight_multiples_ignores_index_order_witness :
  let s := mkState (Examples.two_devices true) Worlds.quiet in
  let ms := inr [Num.of_Z 7; Num.of_Z 9] in
  set_weight_multiples ms (Some (inr [1; 0])) None s =
  set_weight_multiples ms (Some (inr [0; 1])) None s /\
  map ADC._weight_multiple
      (_adcs (self (snd (set_weight_multiples ms (Some (inr [1; 0])) None s))))
  = [Num.of_Z 7; Num.of_Z 9].
Proof.
  cbv zeta. split; [ | reflexivity ].
  apply set_weight_multiples_ignores_index_order.
  intros z. cbn. tauto.
Defined.

Lemma assign_multiples_nil pick i adcs :
  assign_multiples pick i adcs [] = adcs.
Proof.
  revert i. induction adcs as [| a rest IH]; intros i;
    cbn [assign_multiples]; [ reflexivity | ].
  destruct (pick i a); [ reflexivity | rewrite IH; reflexivity ].
Qed.

Lemma assign_multiples_frame (f : ADC.t -> bool) i adcs ms :
  Forall2 (fun a a' =>
             ADC.set_weight_multiple 1%Qc a' =
               ADC.set_weight_multiple 1%Qc a /\
             (f a = false -> a' = a))
          adcs (assign_multiples (fun _ a => f a) i adcs ms).
Proof.
  revert i ms. induction adcs as [| a rest IH]; intros i ms;
    cbn [assign_multiples]; [ constructor | ].
  destruct (f a) eqn:Hf.
  - destruct ms as [| m ms].
    + apply Forall2_same. intros b. split; [ reflexivity | auto ].
    + constructor; [ | apply IH ].
      split; [ reflexivity | congruence ].
  - constructor; [ | apply IH ]. split; [ reflexivity | auto ].
Qed.

(** [set_weight_multiples] with [dout_pins]: the indices are ignored;
    only weight multiples change, and only on devices whose pin is
    listed.  With one multiple and one pin, the data pins being distinct,
    the device on that pin takes the multiple and every other device is
    left as it is. *)
Theorem set_weight_multiples_by_pin (weight_multiples : Qc + list Qc)
  (adc_indices : option (Z + list Z)) (dout_pins : Z + list Z)
  (s : state) :
  exists s',
    set_weight_multiples weight_multiples adc_indices (Some dout_pins) s =
      (Ok tt, s') /\
    set_weight_multiples weight_multiples None (Some dout_pins) s =
      (Ok tt, s') /\
    world s' = world s /\
    Forall2 (fun a a' =>
               ADC.set_weight_multiple 1%Qc a' =
                 ADC.set_weight_multiple 1%Qc a /\
               (~ In (ADC._dout_pin a) (convert_to_list dout_pins) ->
                a' = a))
            (_adcs (self s)) (_adcs (self s')) /\
    (forall m p,
        weight_multiples = inl m -> dout_pins = inl p ->
        NoDup (map ADC._dout_pin (_adcs (self s))) ->
        Forall2 (fun a a' =>
                   a' = if ADC._dout_pin a =? p
                        then ADC.set_weight_multiple m a else a)
                (_adcs (self s)) (_adcs (self s'))).
Proof.
  unfold set_weight_multiples. cbn [option_map].
  eexists. split; [ reflexivity | ].
  split; [ destruct adc_indices; reflexivity | ].
  cbn [self world _adcs set_adcs]. split; [ reflexivity | ].
  unfold picked.
  set (f := fun a => existsb (Z.eqb (ADC._dout_pin a))
                       (convert_to_list dout_pins)).
  split.
  - eapply Forall2_weaken;
      [ | apply (assign_multiples_frame f 0 (_adcs (self s))) ].
    intros a a' [H1 H2]. split; [ exact H1 | ].
    intros Hnot. apply H2. unfold f.
    destruct (existsb _ _) eqn:He; [ | reflexivity ].
    apply existsb_exists in He. destruct He as (z & Hin & Hz).
    apply Z.eqb_eq in Hz. subst z. contradiction.
  - intros m p -> -> Hnodup. cbn [convert_to_list_any].
    unfold f. cbn [convert_to_list existsb]. clear f.
    generalize 0%nat.
    induction (_adcs (self s)) as [| a rest IH]; intros i;
      cbn [assign_multiples]; [ constructor | ].
    cbn [map] in Hnodup. inversion Hnodup as [| ? ? Hnotin Hrest]; subst.
    rewrite orb_false_r.
    destruct (ADC._dout_pin a =? p) eqn:Hp.
    + constructor; [ rewrite Hp; reflexivity | ].
      rewrite assign_multiples_nil.
      apply Z.eqb_eq in Hp. subst p.
      clear - Hnotin. induction rest as [| b rest IH]; constructor.
      * destruct (ADC._dout_pin b =? ADC._dout_pin a) eqn:Hb;
          [ | reflexivity ].
        apply Z.eqb_eq in Hb. exfalso. apply Hnotin. left. exact Hb.
      * apply IH. intros H. apply Hnotin. right. exact H.
    + constructor; [ rewrite Hp; reflexivity | apply IH, Hrest ].
Qed.

Lemma set_weight_multiples_by_pin_witness :
  let s := mkState (Examples.two_devices true) Worlds.quiet in
  map ADC._weight_multiple
      (_adcs (self (snd (set_weight_multiples (inl (Num.of_Z 7)) None
                           (Some (inl 6)) s)))) =
  [1%Qc; Num.of_Z 7].
Proof.
  cbv zeta.
  set (s := mkState (Examples.two_devices true) Worlds.quiet).
  destruct (set_weight_multiples_by_pin (inl (Num.of_Z 7)) None (inl 6) s)
    as (s' & E & _ & _ & _ & H).
  rewrite E. cbn [snd].
  specialize (H (Num.of_Z 7) 6 eq_refl eq_refl).
  assert (Hnodup : NoDup (map ADC._dout_pin (_adcs (self s)))).
  { cbn. repeat constructor; cbn; intuition discriminate. }
  specialize (H Hnodup). cbn [s self _adcs Examples.two_devices] in H.
  inversion H as [| a0 a0' l0 l0' H0 H1]; subst.
  inversion H1 as [| a1 a1' l1 l1' H2 H3]; subst.
  inversion H3; subst. reflexivity.
Defined.

End WeightMultiples.

(* ------------------------------------------------------------------ *)
(** ** The ratio filter in rational arithmetic                        *)
(* ------------------------------------------------------------------ *)

Section RatioFilter.

Import ADC.

Lemma leb_le (x y : Qc) : Num.leb x y = true <-> (x <= y)%Qc.
Proof.
  unfold Num.leb. rewrite Qcle_alt.
  destruct (x ?= y)%Qc; split; (congruence || discriminate || auto).
Qed.

Lemma ltb_lt (x y : Qc) : Num.ltb x y = true <-> (x < y)%Qc.
Proof.
  unfold Num.ltb. rewrite Qclt_alt.
  destruct (x ?= y)%Qc; split; (congruence || discriminate || auto).
Qed.

Lemma negb_ltb (x y : Qc) : negb (Num.ltb x y) = Num.leb y x.
Proof.
  destruct (Num.ltb x y) eqn:Hlt, (Num.leb y x) eqn:Hle; try reflexivity;
    exfalso.
  - apply ltb_lt in Hlt. apply leb_le in Hle.
    exact (Qclt_not_le _ _ Hlt Hle).
  - assert (Hn : ~ (x < y)%Qc) by (rewrite <- ltb_lt; congruence).
    apply Qcnot_lt_le in Hn. apply leb_le in Hn. congruence.
Qed.

Lemma sq_nonneg (x : Qc) : (0 <= Num.sq x)%Qc.
Proof.
  unfold Num.sq.
  destruct (Qclt_le_dec x 0) as [Hneg | Hpos].
  - assert (H : (0 <= - x)%Qc).
    { apply Qclt_le_weak in Hneg. apply Qcopp_le_compat in Hneg.
      exact Hneg. }
    pose proof (Qcmult_le_compat_r 0 (- x) (- x) H H) as Hm.
    replace (0 * - x)%Qc with 0%Qc in Hm by ring.
    replace (- x * - x)%Qc with (x * x)%Qc in Hm by ring.
    exact Hm.
  - pose proof (Qcmult_le_compat_r 0 x x Hpos Hpos) as Hm.
    replace (0 * x)%Qc with 0%Qc in Hm by ring. exact Hm.
Qed.

Lemma sq_abs (x : Qc) : Num.sq (Num.abs x) = Num.sq x.
Proof.
  unfold Num.abs, Num.sq. destruct (Num.ltb x 0%Qc); ring.
Qed.

Lemma sum_nonneg (l : list Qc) :
  Forall (fun x => (0 <= x)%Qc) l -> (0 <= Num.sum l)%Qc.
Proof.
  induction 1 as [| x l Hx _ IH]; cbn.
  - apply Qcle_refl.
  - replace 0%Qc with (0 + 0)%Qc by ring.
    apply Qcplus_le_compat; assumption.
Qed.

Lemma inv_nonneg (x : Qc) : (0 <= x)%Qc -> (0 <= / x)%Qc.
Proof.
  intros Hx. apply Qcnot_lt_le. intros Hneg.
  apply Qcle_lt_or_eq in Hx. destruct Hx as [Hpos | <-].
  - pose proof (Qcmult_lt_compat_r _ _ _ Hpos Hneg) as H.
    rewrite Qcmult_inv_l in H
      by (intros E; rewrite E in Hpos; exact (Qclt_not_le _ _ Hpos (Qcle_refl _))).
    replace (0 * x)%Qc with 0%Qc in H by ring.
    apply (Qclt_not_le _ _ H). discriminate.
  - vm_compute in Hneg. discriminate Hneg.
Qed.

Lemma of_nat_nonneg (n : nat) : (0 <= Num.of_nat n)%Qc.
Proof.
  unfold Num.of_nat, Num.of_Z, Qcle. cbn [this Q2Qc].
  rewrite !Qred_correct. unfold Qle. cbn. lia.
Qed.

Lemma variance_nonneg (data : list Qc) : (0 <= Statistics.variance data)%Qc.
Proof.
  unfold Statistics.variance. cbv zeta. unfold Qcdiv.
  set (num := Num.sum _). set (den := Num.of_nat _).
  assert (Hn : (0 <= num)%Qc).
  { apply sum_nonneg. apply Forall_map, Forall_forall.
    intros x _. apply sq_nonneg. }
  assert (Hd : (0 <= / den)%Qc) by apply inv_nonneg, of_nat_nonneg.
  pose proof (Qcmult_le_compat_r 0 num (/ den) Hn Hd) as H.
  replace (0 * / den)%Qc with 0%Qc in H by ring. exact H.
Qed.

(** With one ratio per value, computed from the value, the loop over the
    zipped lists is a plain filter. *)
Lemma filter_by_ratio_map limit (ratio : Z -> Num.root) vals :
  filter_by_ratio limit vals (map ratio vals) =
  filter (fun v => Num.root_leb (ratio v) limit) vals.
Proof.
  induction vals as [| v vals IH]; [ reflexivity | ].
  cbn [map filter_by_ratio filter]. rewrite IH. reflexivity.
Qed.

(** The test [dev / stdev <= 2] in rational arithmetic. *)
Lemma ratio_test (x v : Qc) :
  (0 < v)%Qc ->
  Num.root_leb (Num.div_root (Num.abs x) (Num.Sqrt v)) (Num.of_Z 2) =
  Num.leb (Num.sq x) (Num.of_Z 4 * v)%Qc.
Proof.
  intros Hv. unfold Num.root_leb, Num.root_gtb, Num.div_root.
  cbn [Num.radicand].
  replace (Num.ltb (Num.of_Z 2) 0%Qc) with false by reflexivity.
  replace (Num.sq (Num.of_Z 2)) with (Num.of_Z 4)
    by (apply Qc_is_canon; vm_compute; reflexivity).
  rewrite negb_ltb, sq_abs.
  assert (Hne : v <> 0%Qc).
  { intros ->. exact (Qclt_not_le _ _ Hv (Qcle_refl _)). }
  assert (Hx : (Num.sq x / v * v)%Qc = Num.sq x) by (field; exact Hne).
  destruct (Num.leb (Num.sq x / v) (Num.of_Z 4)) eqn:H1;
    destruct (Num.leb (Num.sq x) (Num.of_Z 4 * v)) eqn:H2;
    try reflexivity; exfalso.
  - apply leb_le in H1.
    apply (fun H => Qcmult_le_compat_r _ _ v H (Qclt_le_weak _ _ Hv)) in H1.
    rewrite Hx in H1. apply leb_le in H1. congruence.
  - apply leb_le in H2. rewrite <- Hx in H2.
    apply Qcmult_lt_0_le_reg_r in H2; [ | exact Hv ].
    apply leb_le in H2. congruence.
Qed.

(** The filter on the normal path.  With two valid reads or more and a
    spread that is neither over [_max_stdev] nor zero, the limit being 2,
    every valid read is tested, and the reads that survive are exactly
    those whose squared distance to the median is at most four times the
    variance of the distances, in the order of the batch. *)
Theorem ratio_filter_keeps_near_reads (a : t) :
  let vals := valid_reads (reads a) in
  let med := Statistics.median vals in
  let var := Num.radicand (spread a) in
  (2 <= length vals)%nat ->
  Num.root_gtb (spread a) (_max_stdev a) = false ->
  Num.root_nonzero (spread a) = true ->
  _max_number_of_stdev_from_med a = Num.of_Z 2 ->
  _reads_filtered (snd (_calculate_measurement a)) =
    filter (fun r => Num.leb (Num.sq (Num.of_Z r - med)%Qc)
                             (Num.of_Z 4 * var)%Qc) vals.
Proof.
  cbv zeta. unfold spread. intros Hlen Hover Hnz Hlim.
  assert (Hpos : (0 < Statistics.variance
                        (deviations
                           (Statistics.median (valid_reads (reads a)))
                           (valid_reads (reads a))))%Qc).
  { pose proof (variance_nonneg
                  (deviations (Statistics.median (valid_reads (reads a)))
                              (valid_reads (reads a)))) as Hge.
    apply Qcle_lt_or_eq in Hge. destruct Hge as [Hgt | Heq];
      [ exact Hgt | ].
    unfold Num.root_nonzero, Statistics.stdev in Hnz.
    cbn [Num.radicand] in Hnz. rewrite <- Heq in Hnz. discriminate Hnz. }
  rewrite calculate_unfold.
  destruct a as [pin zo wm rdy cur raws rs maxsd filt maxn med devs sd
                 ratios m mfz w].
  cbn [reads _max_stdev _max_number_of_stdev_from_med] in *. subst maxn.
  destruct (valid_reads rs) as [| r1 [| r2 l]] eqn:Hvals;
    [ cbn in Hlen; lia | cbn in Hlen; lia | ].
  cbv zeta. rewrite Hover, Hnz.
  set (vals := r1 :: r2 :: l) in *.
  set (md := Statistics.median vals) in *.
  assert (Hkept :
    filter_by_ratio (Num.of_Z 2) vals
      (map (fun dev => Num.div_root dev
                         (Statistics.stdev (deviations md vals)))
           (deviations md vals)) =
    filter (fun r => Num.leb (Num.sq (Num.of_Z r - md)%Qc)
                       (Num.of_Z 4 *
                        Num.radicand
                          (Statistics.stdev (deviations md vals)))%Qc)
           vals).
  { unfold deviations at 2. rewrite map_map, filter_by_ratio_map.
    apply filter_ext. intros r. unfold Statistics.stdev.
    cbn [Num.radicand]. apply ratio_test. exact Hpos. }
  match goal with |- context [filter_and_average ?x] =>
    pose proof (filter_and_average_cases x) as Hcases
  end.
  cbv zeta in Hcases.
  cbn [_max_number_of_stdev_from_med _reads_filtered _ratios_to_stdev
       set_ratios_to_stdev set_read_stdev set_devs_from_med set_read_med
       set_reads_filtered _dout_pin _zero_offset _weight_multiple _ready
       _current_raw_read raw_reads reads _max_stdev _read_med _devs_from_med
       _read_stdev measurement measurement_from_zero weight] in Hcases.
  rewrite Hkept in Hcases.
  destruct Hcases as [(Hk & ->) | [(Hk & Hw & ->) | (Hk & Hw & ->)]];
    cbn [snd _reads_filtered set_reads_filtered set_measurement
         set_measurement_from_zero set_weight];
    [ symmetry; exact Hk | reflexivity | reflexivity ].
Qed.

Lemma ratio_filter_keeps_near_reads_witness :
  let a := batch_of [0; 0; 0; 0; 1; 10] (init 5) in
  _reads_filtered (snd (_calculate_measurement a)) =
    filter (fun r => Num.leb
                       (Num.sq (Num.of_Z r -
                                Statistics.median (valid_reads (reads a)))%Qc)
                       (Num.of_Z 4 * Num.radicand (spread a))%Qc)
           (valid_reads (reads a)) /\
  _reads_filtered (snd (_calculate_measurement a)) = [0; 0; 0; 0; 1].
Proof.
  cbv zeta. split; [ | vm_compute; reflexivity ].
  apply ratio_filter_keeps_near_reads; vm_compute; (reflexivity || lia).
Defined.

End RatioFilter.

(* ------------------------------------------------------------------ *)
(** ** Power down, power up, reset                                    *)
(* ------------------------------------------------------------------ *)

Section Power.

Import HX711 Effects History.

(** [power_up]: one cycle between driving the clock low and the sleep of
    400 ms. *)
Lemma power_up_spec s :
  exists r s',
    power_up s = (Ok r, s') /\
    same_config (self s) (self s') /\
    Forall2 (cycled r) (_adcs (self s)) (_adcs (self s')) /\
    (pulses s' <= pulses s + 24 + num_pulses (self s))%nat /\
    (r = true -> pulses s' = (pulses s + 24 + num_pulses (self s))%nat) /\
    exists evs, GPIO.trace (world s') = GPIO.Sleep 400 :: evs.
Proof.
  unfold power_up, bind at 1, get. unfold bind at 1, act.
  cbn [self world]. unfold bind at 1.
  set (s0 := mkState _ _).
  destruct (read_spec s0) as (r & s1 & E & (Hc & _) & Hle & Heq).
  destruct (read_history s0) as (r' & s1' & E' & Hf).
  rewrite E in E'. injection E' as <- <-.
  rewrite E. unfold bind, act, ret. cbn [self world].
  exists r. eexists. split; [ reflexivity | ]. cbn [self world].
  assert (Hp0 : pulses s0 = pulses s).
  { unfold pulses, s0. cbn [self world GPIO.output GPIO.emit GPIO.trace].
    unfold GPIO.pulses. cbn [filter GPIO.is_pulse]. reflexivity. }
  rewrite Hp0 in Hle, Heq.
  split; [ exact Hc | ]. split; [ exact Hf | ].
  split; [ exact Hle | ]. split; [ exact Heq | ].
  eexists. reflexivity.
Qed.

(** [reset].  It never raises: it returns what its read cycle returns,
    the cycle run after the power-down sequence.  It keeps the settings,
    takes every device through one cycle, drives the clock high once for
    the power-down and then at most [24 + extra] times, exactly so many
    when it returns true, and ends with the sleep of 400 ms. *)
Theorem reset_outcome (s : state) :
  exists r s',
    reset s = (Ok r, s') /\
    same_config (self s) (self s') /\
    Forall2 (cycled r) (_adcs (self s)) (_adcs (self s')) /\
    (pulses s' <= pulses s + 1 + 24 + num_pulses (self s))%nat /\
    (r = true ->
     pulses s' = (pulses s + 1 + 24 + num_pulses (self s))%nat) /\
    exists evs, GPIO.trace (world s') = GPIO.Sleep 400 :: evs.
Proof.
  unfold reset, bind at 1.
  change (power_down s)
    with (Ok tt, mkState (self s)
                   (GPIO.sleep 10
                      (GPIO.output (_sck_pin (self s)) true
                         (GPIO.output (_sck_pin (self s)) false (world s))))).
  cbv iota beta.
  set (sd := mkState (self s) _).
  destruct (power_up_spec sd) as (r & s' & E & Hc & Hf & Hle & Heq & Hev).
  exists r, s'. split; [ exact E | ].
  assert (Hpd : pulses sd = S (pulses s)).
  { unfold pulses, sd.
    cbn [self world GPIO.output GPIO.sleep GPIO.emit GPIO.trace].
    unfold GPIO.pulses. cbn [filter GPIO.is_pulse].
    rewrite Z.eqb_refl. reflexivity. }
  change (self sd) with (self s) in *.
  rewrite Hpd in Hle, Heq.
  split; [ exact Hc | ]. split; [ exact Hf | ].
  split; [ lia | ]. split; [ intros Hr; rewrite (Heq Hr); lia | exact Hev ].
Qed.

End Power.

(* ------------------------------------------------------------------ *)
(** ** The readiness budget, round by round                           *)
(* ------------------------------------------------------------------ *)

Section ReadinessPolls.

Import HX711 Effects.

(** The answers of the lines, fixed through the cycle. *)
Variable lv : nat -> Z -> bool.

Lemma levels_read_app p tr1 tr2 :
  GPIO.levels_read p (tr1 ++ tr2) =
  GPIO.levels_read p tr1 ++ GPIO.levels_read p tr2.
Proof.
  induction tr1 as [| e tr1 IH]; [ reflexivity | ].
  destruct e as [pin d | pin level | pin level | ms | m]; cbn; try exact IH.
  destruct (pin =? p); cbn; [ rewrite IH | ]; auto.
Qed.

Lemma devices_on_pins p adcs adcs' :
  map ADC._dout_pin adcs' = map ADC._dout_pin adcs ->
  devices_on p adcs' = devices_on p adcs.
Proof.
  unfold devices_on. revert adcs'.
  induction adcs as [| a adcs IH]; intros [| a' adcs'] H;
    try discriminate H; [ reflexivity | ].
  cbn in H. injection H as Hp Hrest. cbn [filter]. rewrite Hp.
  destruct (ADC._dout_pin a =? p); cbn [length]; rewrite (IH _ Hrest);
    reflexivity.
Qed.

(** One [_is_ready] on a device that is not ready if its line never reads
    0: at most one read, of its own line; a line that never reads 0 reads
    high and leaves the device not ready. *)
Lemma is_ready_reads a w r a' w' :
  ADC._is_ready a w = (r, a', w') ->
  GPIO.levels w = lv ->
  ((forall t, lv t (ADC._dout_pin a) = true) -> ADC._ready a = false) ->
  exists evs,
    GPIO.trace w' = evs ++ GPIO.trace w /\
    Forall GPIO.is_read evs /\
    GPIO.levels w' = lv /\
    ADC._dout_pin a' = ADC._dout_pin a /\
    ((forall t, lv t (ADC._dout_pin a') = true) -> ADC._ready a' = false) /\
    forall p, (forall t, lv t p = true) ->
      GPIO.levels_read p evs =
        repeat true (if ADC._dout_pin a =? p then 1 else 0).
Proof.
  intros E Hlv Hcond. unfold ADC._is_ready in E.
  destruct (ADC._ready a) eqn:Hr.
  - injection E as <- <- <-. exists [].
    split; [ reflexivity | ]. split; [ constructor | ].
    split; [ exact Hlv | ]. split; [ reflexivity | ].
    split; [ rewrite Hr; exact Hcond | ].
    intros p Hp. destruct (ADC._dout_pin a =? p) eqn:Hpin; [ | reflexivity ].
    apply Z.eqb_eq in Hpin. subst p. specialize (Hcond Hp).
    discriminate Hcond.
  - cbn in E. injection E as <- <- <-.
    exists [GPIO.Input (ADC._dout_pin a)
                       (GPIO.levels w (GPIO.now w) (ADC._dout_pin a))].
    split; [ reflexivity | ].
    split; [ constructor; [ exact I | constructor ] | ].
    split; [ exact Hlv | ]. split; [ reflexivity | ].
    split.
    + cbn. intros Hp. rewrite Hlv, Hp. reflexivity.
    + intros p Hp. cbn.
      destruct (ADC._dout_pin a =? p) eqn:Hpin; [ | reflexivity ].
      apply Z.eqb_eq in Hpin. rewrite Hpin, Hlv, Hp. reflexivity.
Qed.

(** One polling round over the devices. *)
Lemma poll_reads adcs w rs adcs' w' :
  poll adcs w = (rs, adcs', w') ->
  GPIO.levels w = lv ->
  Forall (fun a => (forall t, lv t (ADC._dout_pin a) = true) ->
                   ADC._ready a = false) adcs ->
  exists evs,
    GPIO.trace w' = evs ++ GPIO.trace w /\
    Forall GPIO.is_read evs /\
    GPIO.levels w' = lv /\
    map ADC._dout_pin adcs' = map ADC._dout_pin adcs /\
    rs = map ADC._ready adcs' /\
    Forall (fun a => (forall t, lv t (ADC._dout_pin a) = true) ->
                     ADC._ready a = false) adcs' /\
    forall p, (forall t, lv t p = true) ->
      GPIO.levels_read p evs = repeat true (devices_on p adcs).
Proof.
  revert w rs adcs' w'.
  induction adcs as [| a adcs IH]; intros w rs adcs' w' E Hlv Hcond;
    cbn [poll] in E.
  - injection E as <- <- <-. exists [].
    repeat split; auto.
  - apply Forall_cons_iff in Hcond. destruct Hcond as [Ha Hrest].
    destruct (ADC._is_ready a w) as [[r a1] w1] eqn:E1.
    destruct (poll adcs w1) as [[rs1 rest1] w2] eqn:E2.
    injection E as <- <- <-.
    destruct (is_ready_reads _ _ _ _ _ E1 Hlv Ha)
      as (ev1 & Ht1 & Hr1 & Hlv1 & Hp1 & Hc1 & Hn1).
    assert (Hr : r = ADC._ready a1).
    { unfold ADC._is_ready in E1. destruct (ADC._ready a) eqn:Hra.
      - injection E1 as <- <- <-. symmetry. exact Hra.
      - cbn in E1. injection E1 as <- <- <-. reflexivity. }
    destruct (IH _ _ _ _ E2 Hlv1 Hrest)
      as (ev2 & Ht2 & Hr2 & Hlv2 & Hp2 & Hrs2 & Hc2 & Hn2).
    exists (ev2 ++ ev1).
    split; [ rewrite Ht2, Ht1, app_assoc; reflexivity | ].
    split; [ apply Forall_app; split; assumption | ].
    split; [ exact Hlv2 | ].
    split; [ cbn [map]; rewrite Hp1, Hp2; reflexivity | ].
    split; [ cbn [map]; rewrite Hr, Hrs2; reflexivity | ].
    split; [ constructor; assumption | ].
    intros p Hp. rewrite levels_read_app, (Hn1 p Hp), (Hn2 p Hp).
    rewrite <- repeat_app. f_equal.
    unfold devices_on. cbn [filter].
    destruct (ADC._dout_pin a =? p); cbn [length]; lia.
Qed.

Lemma never_all_ready adcs :
  Exists (fun p => forall t, lv t p = true) (map ADC._dout_pin adcs) ->
  Forall (fun a => (forall t, lv t (ADC._dout_pin a) = true) ->
                   ADC._ready a = false) adcs ->
  forallb ADC._ready adcs = false.
Proof.
  induction adcs as [| a adcs IH]; intros Hex Hcond; cbn in Hex;
    inversion Hex as [? ? Hhigh | ? ? Hrest]; subst;
    inversion Hcond as [| ? ? Ha Hc]; subst; cbn.
  - rewrite (Ha Hhigh). reflexivity.
  - rewrite (IH Hrest Hc). apply andb_false_r.
Qed.

Lemma rounds_trace_snoc rounds round :
  GPIO.rounds_trace (rounds ++ [round]) =
  GPIO.rounds_trace rounds ++ GPIO.Sleep 10 :: round.
Proof.
  unfold GPIO.rounds_trace. rewrite flat_map_app. cbn.
  rewrite app_nil_r. reflexivity.
Qed.

(** The polling loop with a line that never reads 0: all [n] rounds, each
    reading that line once for every device on it and ending in the
    sleep. *)
Lemma poll_loop_rounds n s k s' :
  poll_loop n s = (Ok k, s') ->
  GPIO.levels (world s) = lv ->
  Exists (fun p => forall t, lv t p = true)
         (map ADC._dout_pin (_adcs (self s))) ->
  Forall (fun a => (forall t, lv t (ADC._dout_pin a) = true) ->
                   ADC._ready a = false) (_adcs (self s)) ->
  exists rounds,
    length rounds = n /\ k = n /\
    GPIO.trace (world s') = GPIO.rounds_trace rounds ++ GPIO.trace (world s) /\
    Forall (fun round =>
              Forall GPIO.is_read round /\
              forall p, (forall t, lv t p = true) ->
                GPIO.levels_read p round =
                  repeat true (devices_on p (_adcs (self s)))) rounds /\
    forallb ADC._ready (_adcs (self s')) = false.
Proof.
  revert s k s'. induction n as [| n IH]; intros s k s' E Hlv Hex Hcond;
    cbn [poll_loop] in E.
  - unfold ret in E. injection E as <- <-. exists [].
    split; [ reflexivity | ]. split; [ reflexivity | ].
    split; [ reflexivity | ]. split; [ constructor | ].
    apply never_all_ready; assumption.
  - unfold bind at 1, poll_adcs in E.
    destruct (poll (_adcs (self s)) (world s)) as [[rs adcs1] w1] eqn:Ep.
    destruct (poll_reads _ _ _ _ _ Ep Hlv Hcond)
      as (evs & Ht & Hr & Hlv1 & Hp & Hrs & Hc1 & Hn).
    assert (Hex1 : Exists (fun p => forall t, lv t p = true)
                          (map ADC._dout_pin adcs1))
      by (rewrite Hp; exact Hex).
    rewrite Hrs, forallb_id_map, (never_all_ready _ Hex1 Hc1) in E.
    unfold bind at 1, act in E. cbn [self world] in E.
    unfold bind at 1 in E.
    match type of E with
    | context [poll_loop n ?x] => set (s2 := x) in *
    end.
    destruct (poll_loop n s2) as [[k2 | e] s3] eqn:E3;
      [ | discriminate E ].
    unfold ret in E. injection E as <- <-.
    destruct (IH _ _ _ E3) as (rounds & Hlen & Hk & Ht3 & Hrounds & Hnot).
    { exact Hlv1. }
    { exact Hex1. }
    { exact Hc1. }
    exists (rounds ++ [evs]).
    split; [ rewrite length_app; cbn; lia | ].
    split; [ congruence | ].
    split.
    { rewrite Ht3, rounds_trace_snoc. unfold s2. cbn. rewrite Ht.
      rewrite <- app_assoc. reflexivity. }
    split; [ | exact Hnot ].
    apply Forall_app. split.
    + eapply Forall_impl; [ | exact Hrounds ].
      intros round [H1 H2]. split; [ exact H1 | ].
      intros p Hhigh. rewrite (H2 p Hhigh). f_equal.
      unfold s2. cbn [self _adcs set_adcs].
      apply devices_on_pins, Hp.
    + constructor; [ | constructor ]. split; assumption.
Qed.

(** [_prepare_to_read] with a line that never reads 0: the clock low,
    twenty rounds, the report of twenty rounds. *)
Lemma prepare_to_read_rounds s r s' :
  _prepare_to_read s = (Ok r, s') ->
  GPIO.levels (world s) = lv ->
  Exists (fun p => forall t, lv t p = true)
         (map ADC._dout_pin (_adcs (self s))) ->
  Forall (fun a => (forall t, lv t (ADC._dout_pin a) = true) ->
                   ADC._ready a = false) (_adcs (self s)) ->
  exists rounds,
    length rounds = 20%nat /\
    GPIO.trace (world s') =
      GPIO.Log (GPIO.NotReadyAfter 20) ::
      GPIO.rounds_trace rounds ++
      GPIO.Output (_sck_pin (self s)) false :: GPIO.trace (world s) /\
    Forall (fun round =>
              Forall GPIO.is_read round /\
              forall p, (forall t, lv t p = true) ->
                GPIO.levels_read p round =
                  repeat true (devices_on p (_adcs (self s)))) rounds.
Proof.
  intros E Hlv Hex Hcond.
  unfold _prepare_to_read, bind at 1, get in E.
  unfold bind at 1, act in E. cbn [self world] in E.
  unfold bind at 1 in E.
  match type of E with
  | context [poll_loop 20 ?x] => set (s1 := x) in *
  end.
  destruct (poll_loop 20 s1) as [[k | e] s2] eqn:E2; [ | discriminate E ].
  destruct (poll_loop_rounds _ _ _ _ E2) as (rounds & Hlen & Hk & Ht & Hr & Hnot);
    [ exact Hlv | exact Hex | exact Hcond | ].
  unfold bind, get, act, ret in E. cbn [self world] in E.
  rewrite Hnot in E. injection E as <- <-.
  exists rounds. split; [ exact Hlen | ]. split; [ | exact Hr ].
  cbn. rewrite Ht, Hk. reflexivity.
Qed.

Lemma inputs_rounds p n rounds k :
  length rounds = k ->
  Forall (fun round => GPIO.levels_read p round = repeat true n) rounds ->
  GPIO.inputs p (GPIO.rounds_trace rounds) = (k * n)%nat.
Proof.
  intros <- H. unfold GPIO.inputs.
  induction H as [| round rounds Hr _ IH]; [ reflexivity | ].
  cbn [GPIO.rounds_trace flat_map length app GPIO.levels_read].
  rewrite levels_read_app, length_app, Hr, repeat_length.
  unfold GPIO.rounds_trace in IH. rewrite IH. cbn. reflexivity.
Qed.

End ReadinessPolls.

Section ReadinessBudget.

Import HX711 Effects.

(** C3.  With [all_or_nothing] set and a device whose data line never
    reads 0, a read cycle returns false after exactly twenty polling
    rounds: after driving the clock low it does nothing but read data
    lines and, at the end of each of twenty rounds, sleep 10 ms; in every
    round a line that never reads 0 is read once for every device on it,
    and reads high, so it is read twenty times for each such device, which
    is left not ready; the report of twenty rounds is the last event.  No
    clock pulse is issued, every accumulator is 0 and the histories are as
    they were. *)
Theorem never_ready_cycle_fails (s : state) :
  _all_or_nothing (self s) = true ->
  Exists (fun a => forall t,
              GPIO.levels (world s) t (ADC._dout_pin a) = true)
         (_adcs (self s)) ->
  exists s' rounds,
    _read s = (Ok false, s') /\
    length rounds = 20%nat /\
    GPIO.trace (world s') =
      GPIO.Log (GPIO.NotReadyAfter 20) ::
      GPIO.rounds_trace rounds ++
      GPIO.Output (_sck_pin (self s)) false :: GPIO.trace (world s) /\
    Forall (fun round =>
              Forall GPIO.is_read round /\
              forall p, (forall t, GPIO.levels (world s) t p = true) ->
                GPIO.levels_read p round =
                  repeat true (devices_on p (_adcs (self s)))) rounds /\
    (forall p, (forall t, GPIO.levels (world s) t p = true) ->
       GPIO.inputs p (GPIO.trace (world s')) =
         (GPIO.inputs p (GPIO.trace (world s)) +
          20 * devices_on p (_adcs (self s)))%nat) /\
    sleeps s' = (sleeps s + 20)%nat /\
    pulses s' = pulses s /\
    Forall2 (fun a a' => ADC._current_raw_read a' = 0 /\
                         ADC.raw_reads a' = ADC.raw_reads a /\
                         ADC.reads a' = ADC.reads a /\
                         ((forall t, GPIO.levels (world s) t
                                       (ADC._dout_pin a) = true) ->
                          ADC._ready a' = false))
            (_adcs (self s)) (_adcs (self s')).
Proof.
  intros Hall Hex.
  destruct (never_ready_cycle_spec s Hall Hex)
    as (s' & E & Hsl & _ & Hpu & Hf).
  pose proof E as E'.
  unfold _read, bind at 1, each_adc in E'.
  set (s1 := mkState _ (world s)) in E'.
  assert (Hpins : map ADC._dout_pin (_adcs (self s1)) =
                  map ADC._dout_pin (_adcs (self s))).
  { unfold s1. cbn [self _adcs set_adcs]. rewrite map_map.
    apply map_ext. reflexivity. }
  assert (Hex1 : Exists (fun p => forall t, GPIO.levels (world s) t p = true)
                        (map ADC._dout_pin (_adcs (self s1)))).
  { rewrite Hpins. clear - Hex.
    induction Hex as [a l H | a l _ IH]; cbn [map];
      [ apply Exists_cons_hd, H | apply Exists_cons_tl, IH ]. }
  assert (Hcond : Forall (fun a =>
                     (forall t, GPIO.levels (world s) t (ADC._dout_pin a)
                                = true) -> ADC._ready a = false)
                         (_adcs (self s1))).
  { unfold s1. cbn [self _adcs set_adcs]. apply Forall_map.
    apply Forall_forall. intros a _ _. reflexivity. }
  unfold bind at 1 in E'.
  destruct (_prepare_to_read s1) as [[ready | e] s2] eqn:E2;
    [ | discriminate E' ].
  destruct (prepare_to_read_rounds (GPIO.levels (world s)) _ _ _ E2
              eq_refl Hex1 Hcond) as (rounds & Hlen & Ht & Hr).
  assert (Hs2 : s' = s2).
  { destruct (prepare_to_read_spec s1)
      as (ready' & s2' & E2' & Hrun2 & _ & _ & Hstuck).
    rewrite E2 in E2'. injection E2' as <- <-.
    assert (Hst : Exists (stuck (GPIO.levels (world s1))) (_adcs (self s1))).
    { unfold s1. cbn [self world _adcs set_adcs].
      clear - Hex. induction Hex as [a l H | a l _ IH]; cbn [map].
      - apply Exists_cons_hd. split; [ reflexivity | exact H ].
      - apply Exists_cons_tl, IH. }
    destruct (Hstuck Hst) as (-> & _).
    unfold bind, get in E'. cbn [negb andb] in E'.
    destruct Hrun2 as (Hc & _).
    apply same_config_fields in Hc. destruct Hc as (_ & Ha & _).
    unfold s1 in Ha. cbn [self] in Ha.
    assert (Ha' : _all_or_nothing (self s2) = true).
    { rewrite Ha. exact Hall. }
    rewrite Ha' in E'. unfold ret in E'. injection E' as <-. reflexivity. }
  subst s2.
  assert (Hdev : forall p, devices_on p (_adcs (self s1)) =
                           devices_on p (_adcs (self s))).
  { intros p. apply devices_on_pins. exact Hpins. }
  assert (Hr' : Forall (fun round =>
              Forall GPIO.is_read round /\
              forall p, (forall t, GPIO.levels (world s) t p = true) ->
                GPIO.levels_read p round =
                  repeat true (devices_on p (_adcs (self s)))) rounds).
  { eapply Forall_impl; [ | exact Hr ]. intros round [H1 H2].
    split; [ exact H1 | ]. intros p Hp. rewrite <- Hdev. apply H2, Hp. }
  exists s', rounds.
  split; [ exact E | ]. split; [ exact Hlen | ].
  split; [ exact Ht | ]. split; [ exact Hr' | ].
  split; [ | split; [ exact Hsl | split; [ exact Hpu | exact Hf ] ] ].
  intros p Hp. rewrite Ht. unfold GPIO.inputs at 1.
  cbn [GPIO.levels_read]. rewrite levels_read_app, length_app.
  cbn [GPIO.levels_read].
  change (length (GPIO.levels_read p (GPIO.rounds_trace rounds)))
    with (GPIO.inputs p (GPIO.rounds_trace rounds)).
  rewrite (inputs_rounds p (devices_on p (_adcs (self s))) rounds 20 Hlen).
  - unfold GPIO.inputs, s1. cbn [self world]. lia.
  - eapply Forall_impl; [ | exact Hr' ]. intros round [_ H2]. apply H2, Hp.
Qed.

Lemma never_ready_cycle_fails_witness :
  let s := mkState (Examples.two_devices true) Worlds.stuck in
  exists s' rounds,
    _read s = (Ok false, s') /\
    length rounds = 20%nat /\
    GPIO.trace (world s') =
      GPIO.Log (GPIO.NotReadyAfter 20) ::
      GPIO.rounds_trace rounds ++ [GPIO.Output 11 false] /\
    GPIO.inputs 5 (GPIO.trace (world s')) = 20%nat /\
    GPIO.inputs 6 (GPIO.trace (world s')) = 20%nat /\
    sleeps s' = 20%nat /\ pulses s' = 0%nat /\
    map ADC._ready (_adcs (self s')) = [false; false].
Proof.
  cbv zeta.
  destruct (never_ready_cycle_fails
              (mkState (Examples.two_devices true) Worlds.stuck))
    as (s' & rounds & E & Hlen & Ht & _ & Hin & Hsl & Hpu & Hf).
  - reflexivity.
  - apply Exists_cons_hd. reflexivity.
  - exists s', rounds.
    split; [ exact E | ]. split; [ exact Hlen | ]. split; [ exact Ht | ].
    split; [ rewrite (Hin 5); [ reflexivity | reflexivity ] | ].
    split; [ rewrite (Hin 6); [ reflexivity | reflexivity ] | ].
    split; [ exact Hsl | ]. split; [ exact Hpu | ].
    cbn [Examples.two_devices self _adcs] in Hf.
    inversion Hf as [| a1 a1' l1 l1' (_ & _ & _ & Hr1) Hf1]; subst.
    inversion Hf1 as [| a2 a2' l2 l2' (_ & _ & _ & Hr2) Hf2]; subst.
    inversion Hf2; subst. cbn [map].
    rewrite Hr1, Hr2; reflexivity.
Defined.

End ReadinessBudget.

(* ------------------------------------------------------------------ *)
(** ** The pulse count and the clock                                  *)
(* ------------------------------------------------------------------ *)

Section Meter.

Import HX711 Effects.

(** A count [f] on the trace that reading a line, sleeping, driving the
    clock line [sck] low and the readiness report leave as it is. *)
Variable sck : Z.
Variable f : list GPIO.event -> nat.
Hypothesis f_input :
  forall pin level tr, f (GPIO.Input pin level :: tr) = f tr.
Hypothesis f_sleep : forall ms tr, f (GPIO.Sleep ms :: tr) = f tr.
Hypothesis f_low : forall tr, f (GPIO.Output sck false :: tr) = f tr.
Hypothesis f_ready :
  forall k tr, f (GPIO.Log (GPIO.ReadyAfter k) :: tr) = f tr.
Hypothesis f_not_ready :
  forall k tr, f (GPIO.Log (GPIO.NotReadyAfter k) :: tr) = f tr.

Lemma prepare_to_read_meter s r s' :
  _prepare_to_read s = (r, s') ->
  _sck_pin (self s) = sck ->
  f (GPIO.trace (world s')) = f (GPIO.trace (world s)).
Proof.
  intros E Hs. unfold _prepare_to_read, bind at 1, get in E.
  unfold bind at 1, act in E. cbn [self world] in E.
  unfold bind at 1 in E.
  match type of E with
  | context [poll_loop 20 ?x] => set (s1 := x) in *
  end.
  assert (H1 : _sck_pin (self s1) = sck /\
               f (GPIO.trace (world s1)) = f (GPIO.trace (world s))).
  { split; [ exact Hs | ]. cbn. rewrite Hs. apply f_low. }
  assert (H2 : forall k s2, poll_loop 20 s1 = (k, s2) ->
                 f (GPIO.trace (world s2)) = f (GPIO.trace (world s))).
  { intros k s2 E2.
    refine (proj2 (poll_loop_inv sck
                     (fun tr => f tr = f (GPIO.trace (world s)))
                     _ _ _ _ _ _ E2 H1)).
    - intros pin level tr H. rewrite f_input. exact H.
    - intros ms tr H. rewrite f_sleep. exact H. }
  destruct (poll_loop 20 s1) as [[k | e] s2] eqn:E2.
  - specialize (H2 _ _ eq_refl).
    unfold bind, get, act, ret in E. cbn [self world] in E.
    injection E as <- <-. cbn [world GPIO.log GPIO.emit GPIO.trace].
    destruct (forallb ADC._ready (_adcs (self s2)));
      rewrite ?f_ready, ?f_not_ready; exact H2.
  - injection E as <- <-. apply (H2 _ _ eq_refl).
Qed.

Lemma shift_adcs_meter s r s' :
  shift_adcs s = (r, s') ->
  f (GPIO.trace (world s')) = f (GPIO.trace (world s)).
Proof.
  intros E.
  refine (proj2 (shift_adcs_inv (_sck_pin (self s))
                   (fun tr => f tr = f (GPIO.trace (world s)))
                   _ _ _ _ E (conj eq_refl eq_refl))).
  intros pin level tr H. rewrite f_input. exact H.
Qed.

End Meter.

Section ClockCounts.

Import HX711 Effects.

Lemma counts_of_world s s' :
  _sck_pin (self s') = _sck_pin (self s) ->
  world s' = world s ->
  pulses s' = pulses s /\ late_pulses s' = late_pulses s /\
  overruns s' = overruns s.
Proof.
  unfold pulses, late_pulses, overruns. intros -> ->. auto.
Qed.

Lemma clocked_from n r s0 s s' :
  pulses s = pulses s0 -> late_pulses s = late_pulses s0 ->
  overruns s = overruns s0 ->
  clocked n r s s' -> clocked n r s0 s'.
Proof.
  unfold clocked. intros -> -> ->. auto.
Qed.

Lemma clocked_trans n m r s s1 s2 :
  clocked n true s s1 -> clocked m r s1 s2 -> clocked (n + m) r s s2.
Proof.
  unfold clocked. intros (H1 & H2 & H3). destruct r.
  - intros (H4 & H5 & H6). split; [ lia | split; congruence ].
  - intros (H4 & H5 & H6 & H7).
    split; [ lia | ]. split; [ congruence | ].
    split; [ congruence | exact H7 ].
Qed.

Lemma clocked_more n m s s' :
  (n <= m)%nat -> clocked n false s s' -> clocked m false s s'.
Proof.
  unfold clocked. intros Hle (H1 & H2 & H3 & H4).
  split; [ lia | ]. split; [ exact H2 | ]. split; [ exact H3 | exact H4 ].
Qed.

(** The preparation counts nothing on the clock line. *)
Lemma prepare_to_read_counts s :
  exists r s',
    _prepare_to_read s = (Ok r, s') /\
    runs (polling (GPIO.levels (world s))) s s' /\
    r = forallb ADC._ready (_adcs (self s')) /\
    pulses s' = pulses s /\ late_pulses s' = late_pulses s /\
    overruns s' = overruns s.
Proof.
  destruct (prepare_to_read_spec s) as (r & s' & E & Hrun & Hpu & Hr & _).
  exists r, s'. split; [ exact E | ]. split; [ exact Hrun | ].
  split; [ exact Hr | ]. split; [ exact Hpu | ].
  destruct Hrun as (Hc & [_ Hov] & _).
  apply same_config_fields in Hc. destruct Hc as (Hsck & _).
  unfold late_pulses, overruns. rewrite Hsck, Hov. split.
  - apply (prepare_to_read_meter (_sck_pin (self s))
             (GPIO.late_pulses (GPIO.overrun (world s)) (_sck_pin (self s))))
      with (r := Ok r); try reflexivity; exact E.
  - apply (prepare_to_read_meter (_sck_pin (self s)) GPIO.overruns)
      with (r := Ok r); try reflexivity; exact E.
Qed.

Lemma shift_adcs_counts s :
  exists s',
    shift_adcs s = (Ok tt, s') /\
    runs cycle_steps s s' /\
    pulses s' = pulses s /\ late_pulses s' = late_pulses s /\
    overruns s' = overruns s.
Proof.
  destruct (shift_adcs_spec s) as (s' & E & Hrun & Hpu).
  exists s'. split; [ exact E | ]. split; [ exact Hrun | ].
  split; [ exact Hpu | ].
  destruct Hrun as (Hc & [_ Hov] & _).
  apply same_config_fields in Hc. destruct Hc as (Hsck & _).
  unfold late_pulses, overruns. rewrite Hsck, Hov. split.
  - apply (shift_adcs_meter
             (GPIO.late_pulses (GPIO.overrun (world s)) (_sck_pin (self s))))
      with (r := Ok tt); try reflexivity; exact E.
  - apply (shift_adcs_meter GPIO.overruns) with (r := Ok tt);
      try reflexivity; exact E.
Qed.

(** One clock pulse: in time, and true; or late by the clock, reported,
    and false. *)
Lemma pulse_sck_high_counts s :
  exists r s',
    _pulse_sck_high s = (Ok r, s') /\
    self s' = self s /\
    same_lines (world s) (world s') /\
    r = negb (GPIO.overrun (world s) (length (GPIO.trace (world s)))) /\
    clocked 1 r s s'.
Proof.
  unfold _pulse_sck_high, bind, get, ask, act, ret. cbn [self world].
  unfold GPIO.pulse_overruns, GPIO.now.
  destruct (GPIO.overrun (world s) (length (GPIO.trace (world s)))) eqn:Hov;
    eexists _, _; (split; [ reflexivity | ]); (split; [ reflexivity | ]);
    (split; [ split; reflexivity | ]); (split; [ reflexivity | ]);
    unfold clocked, pulses, late_pulses, overruns, stopped_late,
      GPIO.pulses, GPIO.overruns;
    cbn [self world GPIO.log GPIO.output GPIO.emit GPIO.trace GPIO.overrun
         filter GPIO.is_pulse GPIO.is_overrun GPIO.late_pulses length
         andb negb];
    rewrite Z.eqb_refl; cbn [length andb]; rewrite Hov.
  - split; [ lia | ]. split; [ reflexivity | ]. split; [ reflexivity | ].
    exists (GPIO.trace (world s)). split; [ reflexivity | exact Hov ].
  - split; [ lia | ]. split; reflexivity.
Qed.

Lemma pulse_times_counts n s :
  exists r s',
    pulse_times n s = (Ok r, s') /\
    self s' = self s /\
    same_lines (world s) (world s') /\
    clocked n r s s'.
Proof.
  revert s. induction n as [| n IH]; intros s; cbn [pulse_times].
  - exists true, s. split; [ reflexivity | ]. split; [ reflexivity | ].
    split; [ apply same_lines_refl | ].
    unfold clocked. split; [ lia | split; reflexivity ].
  - unfold bind at 1.
    destruct (pulse_sck_high_counts s)
      as (ok & s1 & E & Hself & Hl & _ & Hc).
    rewrite E. destruct ok.
    + destruct (IH s1) as (r & s2 & E2 & Hself2 & Hl2 & Hc2).
      rewrite E2. exists r, s2. split; [ reflexivity | ].
      split; [ congruence | ].
      split; [ eapply same_lines_trans; eassumption | ].
      apply (clocked_trans 1 n r s s1 s2); assumption.
    + exists false, s1. split; [ reflexivity | ].
      split; [ exact Hself | ]. split; [ exact Hl | ].
      apply (clocked_more 1); [ lia | exact Hc ].
Qed.

Lemma read_bits_counts n s :
  exists r s',
    read_bits n s = (Ok r, s') /\
    runs cycle_steps s s' /\
    clocked n r s s'.
Proof.
  revert s. induction n as [| n IH]; intros s; cbn [read_bits].
  - exists true, s. split; [ reflexivity | ].
    split; [ apply runs_refl, steps_done | ].
    unfold clocked. split; [ lia | split; reflexivity ].
  - unfold bind at 1.
    destruct (pulse_sck_high_counts s)
      as (ok & s1 & E & Hself & Hl & _ & Hc).
    rewrite E.
    assert (Hrun1 : runs cycle_steps s s1).
    { split; [ rewrite Hself; reflexivity | ].
      split; [ exact Hl | ]. rewrite Hself.
      apply Forall2_same, steps_done. }
    destruct ok.
    + unfold bind at 1.
      destruct (shift_adcs_counts s1) as (s2 & E2 & Hrun2 & Hp2 & Hl2 & Ho2).
      rewrite E2.
      destruct (IH s2) as (r & s3 & E3 & Hrun3 & Hc3).
      rewrite E3. exists r, s3. split; [ reflexivity | ].
      split.
      { eapply runs_trans;
          [ apply cycle_steps_trans | | exact Hrun3 ].
        eapply runs_trans;
          [ apply cycle_steps_trans | exact Hrun1 | exact Hrun2 ]. }
      apply (clocked_trans 1 n r s s1 s3); [ exact Hc | ].
      apply (clocked_from n r s1 s2 s3); assumption.
    + exists false, s1. split; [ reflexivity | ].
      split; [ exact Hrun1 | ].
      apply (clocked_more 1); [ lia | exact Hc ].
Qed.

Lemma write_channel_gain_counts s :
  exists r s',
    _write_channel_gain s = (Ok r, s') /\
    self s' = self s /\
    same_lines (world s) (world s') /\
    clocked (num_pulses (self s)) r s s'.
Proof.
  unfold _write_channel_gain, bind, get.
  apply pulse_times_counts.
Qed.

(** One cycle on the clock line: it fails at the readiness test with
    nothing counted, or it is a run of at most [24 + num_pulses]
    pulses. *)
Lemma read_counts s :
  exists r s',
    _read s = (Ok r, s') /\
    ((r = false /\ _all_or_nothing (self s) = true /\
      forallb ADC._ready (_adcs (self s')) = false /\
      pulses s' = pulses s /\ late_pulses s' = late_pulses s /\
      overruns s' = overruns s) \/
     clocked (24 + num_pulses (self s)) r s s').
Proof.
  unfold _read, bind at 1, each_adc.
  set (s1 := mkState _ (world s)).
  destruct (counts_of_world s s1 eq_refl eq_refl) as (Hp1 & Hl1 & Ho1).
  assert (Hnp : forall s', same_config (self s) (self s') ->
                           num_pulses (self s') = num_pulses (self s)).
  { intros s' Hc. apply same_config_fields in Hc.
    destruct Hc as (_ & _ & _ & Hch & Hg). unfold num_pulses.
    rewrite Hch, Hg. reflexivity. }
  unfold bind at 1.
  destruct (prepare_to_read_counts s1)
    as (ready & s2 & E2 & Hrun2 & Hready & Hp2 & Hl2 & Ho2).
  rewrite E2. unfold bind at 1, get.
  assert (Hc2 : same_config (self s) (self s2)).
  { destruct Hrun2 as (Hc & _). exact Hc. }
  destruct (negb ready && _all_or_nothing (self s2)) eqn:Hstop.
  { exists false, s2. split; [ reflexivity | ]. left.
    apply andb_true_iff in Hstop. destruct Hstop as [Hnr Hall].
    apply negb_true_iff in Hnr. subst ready.
    apply same_config_fields in Hc2. destruct Hc2 as (_ & Ha & _).
    split; [ reflexivity | ]. split; [ congruence | ].
    split; [ exact Hnr | ].
    repeat split; congruence. }
  unfold bind at 1.
  destruct (read_bits_counts 24 s2) as (ok & s3 & E3 & Hrun3 & Hc3).
  rewrite E3.
  assert (Hc3' : clocked 24 ok s s3).
  { apply (clocked_from 24 ok s s2 s3); congruence. }
  destruct ok; cbn [negb].
  2:{ exists false, s3. split; [ reflexivity | ]. right.
      apply (clocked_more 24); [ lia | exact Hc3' ]. }
  unfold bind at 1, each_adc.
  set (s4 := mkState _ (world s3)).
  destruct (counts_of_world s3 s4 eq_refl eq_refl) as (Hp4 & Hl4 & Ho4).
  assert (Hcfg4 : same_config (self s) (self s4)).
  { eapply same_config_trans; [ exact Hc2 | ].
    destruct Hrun3 as (Hc & _).
    eapply same_config_trans; [ exact Hc | apply same_config_set_adcs ]. }
  unfold bind at 1.
  destruct (write_channel_gain_counts s4) as (ok & s5 & E5 & Hself & _ & Hc5).
  rewrite E5. rewrite (Hnp s4 Hcfg4) in Hc5.
  assert (Hc5' : clocked (24 + num_pulses (self s)) ok s s5).
  { apply (clocked_trans 24 _ ok s s3 s5); [ exact Hc3' | ].
    apply (clocked_from _ ok s3 s4 s5); assumption. }
  destruct ok; cbn [negb]; unfold ret; eexists _, s5;
    (split; [ reflexivity | ]); right; exact Hc5'.
Qed.

End ClockCounts.

Section PulseCount.

Import HX711 Effects.

(** C4, amended.  A read cycle always returns and never issues more than
    [24 + extra] clock pulses, where [extra] is 1 for channel A at gain
    128, 3 for channel A at gain 64 and 2 for channel B.  When it succeeds
    (returns true) it has issued exactly [24 + extra] pulses, none of them
    late by the clock and none reported.  When it fails, either readiness
    failed under [all_or_nothing], and it has issued no pulse; or it
    stopped at the first pulse that was late by the clock: it has issued
    at least one pulse, exactly one of them late, and that pulse and the
    report of it are the last events. *)
Theorem successful_cycle_pulses (s : state) :
  exists r s',
    _read s = (Ok r, s') /\
    (pulses s' <= pulses s + 24 + num_pulses (self s))%nat /\
    (r = true ->
     pulses s' = (pulses s + 24 + num_pulses (self s))%nat /\
     late_pulses s' = late_pulses s /\ overruns s' = overruns s) /\
    (r = false ->
     (_all_or_nothing (self s) = true /\
      forallb ADC._ready (_adcs (self s')) = false /\
      pulses s' = pulses s /\ late_pulses s' = late_pulses s /\
      overruns s' = overruns s) \/
     ((pulses s < pulses s')%nat /\
      late_pulses s' = S (late_pulses s) /\
      overruns s' = S (overruns s) /\
      exists evs,
        GPIO.trace (world s') =
          GPIO.Log GPIO.PulseTooLong ::
          GPIO.Output (_sck_pin (self s')) false ::
          GPIO.Output (_sck_pin (self s')) true :: evs /\
        GPIO.overrun (world s') (length evs) = true)) /\
    (_channel_select (self s) = "A"%string ->
     _channel_A_gain (self s) = 128 -> num_pulses (self s) = 1%nat) /\
    (_channel_select (self s) = "A"%string ->
     _channel_A_gain (self s) = 64 -> num_pulses (self s) = 3%nat) /\
    (_channel_select (self s) = "B"%string -> num_pulses (self s) = 2%nat).
Proof.
  destruct (read_counts s) as (r & s' & E & H).
  exists r, s'. split; [ exact E | ].
  split; [ | split; [ | split; [ | apply num_pulses_cases ] ] ].
  - destruct H as [(_ & _ & _ & Hp & _) | Hc]; [ lia | ].
    unfold clocked in Hc. destruct r; [ | lia ].
    destruct Hc as (Hp & _). lia.
  - intros ->. destruct H as [(Hr & _) | Hc]; [ discriminate Hr | ].
    unfold clocked in Hc. destruct Hc as (Hp & Hl & Ho).
    split; [ lia | split; assumption ].
  - intros ->. destruct H as [(_ & H) | Hc]; [ left; exact H | right ].
    unfold clocked, stopped_late in Hc.
    destruct Hc as (Hp & Hl & Ho & Hs).
    split; [ lia | ]. split; [ exact Hl | ]. split; [ exact Ho | exact Hs ].
Qed.

Lemma successful_cycle_pulses_witness :
  (exists s',
     _read (mkState (Examples.two_devices true) Worlds.quiet) =
       (Ok true, s') /\
     pulses s' = 25%nat /\ late_pulses s' = 0%nat /\ overruns s' = 0%nat) /\
  (exists s',
     _read (mkState (Examples.two_devices true)
                    (GPIO.mkWorld (fun _ _ => false) (fun _ => true) [])) =
       (Ok false, s') /\
     late_pulses s' = 1%nat /\ overruns s' = 1%nat).
Proof.
  split.
  - destruct (successful_cycle_pulses
                (mkState (Examples.two_devices true) Worlds.quiet))
      as (r & s' & E & _ & Heq & _ & H128 & _).
    assert (Hr : r = true).
    { assert (H : fst (_read (mkState (Examples.two_devices true)
                                Worlds.quiet)) = Ok true)
        by (vm_compute; reflexivity).
      rewrite E in H. cbn in H. injection H as H. exact H. }
    subst r. exists s'. split; [ exact E | ].
    destruct (Heq eq_refl) as (Hp & Hl & Ho).
    rewrite Hp, Hl, Ho, H128 by reflexivity. repeat split.
  - destruct (successful_cycle_pulses
                (mkState (Examples.two_devices true)
                   (GPIO.mkWorld (fun _ _ => false) (fun _ => true) [])))
      as (r & s' & E & _ & _ & Hfail & _).
    assert (Hr : r = false).
    { assert (H : fst (_read (mkState (Examples.two_devices true)
                   (GPIO.mkWorld (fun _ _ => false) (fun _ => true) [])))
                  = Ok false)
        by (vm_compute; reflexivity).
      rewrite E in H. cbn in H. injection H as H. exact H. }
    subst r. exists s'. split; [ exact E | ].
    destruct (Hfail eq_refl) as [(_ & Hnr & _) | (_ & Hl & Ho & _)].
    + assert (H : forallb ADC._ready
                    (_adcs (self (snd (_read
                       (mkState (Examples.two_devices true)
                          (GPIO.mkWorld (fun _ _ => false)
                                        (fun _ => true) [])))))) = true)
        by (vm_compute; reflexivity).
      rewrite E in H. cbn [snd] in H. congruence.
    + rewrite Hl, Ho. split; reflexivity.
Defined.

End PulseCount.

(* ------------------------------------------------------------------ *)
(** ** What the shift register reads                                  *)
(* ------------------------------------------------------------------ *)

Section LineLevels.

Import HX711 Effects History.

Lemma shift_bits_pin bits a :
  ADC._dout_pin (ADC.shift_bits bits a) = ADC._dout_pin a.
Proof.
  pose proof (shift_bits_frame bits a) as Hf.
  apply (f_equal ADC._dout_pin) in Hf. exact Hf.
Qed.

Lemma shifts_line_refl n tr a : shifts_line n false tr tr a a.
Proof.
  exists []. split; [ reflexivity | ]. split; [ reflexivity | ].
  split; [ discriminate | reflexivity ].
Qed.

Lemma shifts_line_trans n m whole tr tr1 tr2 a b c :
  shifts_line n true tr tr1 a b -> shifts_line m whole tr1 tr2 b c ->
  shifts_line (n + m) whole tr tr2 a c.
Proof.
  intros (bits1 & -> & Hn1 & Hl1 & Ht1) (bits2 & -> & Hn2 & Hl2 & Ht2).
  rewrite shift_bits_ready in Hn2, Hl2. rewrite shift_bits_pin in Ht2.
  exists (bits1 ++ bits2). split; [ symmetry; apply shift_bits_app | ].
  split; [ | split ].
  - intros Hr. rewrite Hn1, Hn2 by exact Hr. reflexivity.
  - intros Hw Hr. rewrite length_app, Hl1, Hl2 by auto. reflexivity.
  - rewrite Ht2, Ht1, rev_app_distr, app_assoc. reflexivity.
Qed.

Lemma shifts_line_from n whole tr0 tr tr' a a' :
  GPIO.levels_read (ADC._dout_pin a) tr = GPIO.levels_read (ADC._dout_pin a) tr0 ->
  shifts_line n whole tr tr' a a' -> shifts_line n whole tr0 tr' a a'.
Proof.
  intros H (bits & Ha & Hn & Hl & Ht). exists bits.
  rewrite <- H. auto.
Qed.

Lemma shifts_line_pins n whole tr tr' adcs adcs' :
  Forall2 (shifts_line n whole tr tr') adcs adcs' ->
  map ADC._dout_pin adcs' = map ADC._dout_pin adcs.
Proof.
  induction 1 as [| a a' l l' (bits & -> & _) _ IH]; [ reflexivity | ].
  cbn [map]. rewrite shift_bits_pin, IH. reflexivity.
Qed.

Lemma Forall2_impl_on {A} (P : A -> Prop) (R S : A -> A -> Prop) l l' :
  (forall a b, P a -> R a b -> S a b) ->
  Forall P l -> Forall2 R l l' -> Forall2 S l l'.
Proof.
  intros H HP HR. induction HR as [| a b l l' Hab _ IH];
    constructor; inversion HP; subst; auto.
Qed.

(** One [_shift_and_read] on every ready device, the devices on distinct
    lines: each ready device shifts in the level read on its own line. *)
Lemma shift_lines adcs w :
  NoDup (map ADC._dout_pin adcs) ->
  exists adcs' w',
    shift adcs w = (adcs', w') /\
    Forall2 (shifts_line 1 true (GPIO.trace w) (GPIO.trace w')) adcs adcs' /\
    forall p, ~ In p (map ADC._dout_pin adcs) ->
      GPIO.levels_read p (GPIO.trace w') = GPIO.levels_read p (GPIO.trace w).
Proof.
  revert w. induction adcs as [| a adcs IH]; intros w Hnd; cbn [shift].
  - exists [], w. split; [ reflexivity | ]. split; [ constructor | auto ].
  - cbn [map] in Hnd. apply NoDup_cons_iff in Hnd.
    destruct Hnd as [Hnotin Hnd].
    assert (H1 : exists a1 w1 bits,
               (if ADC._ready a then ADC._shift_and_read a w else (a, w)) =
                 (a1, w1) /\
               a1 = ADC.shift_bits bits a /\
               (ADC._ready a = false -> bits = []) /\
               (ADC._ready a = true -> length bits = 1%nat) /\
               (forall p,
                  GPIO.levels_read p (GPIO.trace w1) =
                    (if ADC._dout_pin a =? p then rev bits else []) ++
                    GPIO.levels_read p (GPIO.trace w))).
    { destruct (ADC._ready a) eqn:Hr.
      - unfold ADC._shift_and_read. cbn.
        eexists _, _, [_]. split; [ reflexivity | ].
        split; [ reflexivity | ]. split; [ discriminate | ].
        split; [ reflexivity | ].
        intros p. cbn. destruct (ADC._dout_pin a =? p); reflexivity.
      - exists a, w, []. split; [ reflexivity | ].
        split; [ reflexivity | ]. split; [ reflexivity | ].
        split; [ discriminate | ].
        intros p. cbn. destruct (ADC._dout_pin a =? p); reflexivity. }
    destruct H1 as (a1 & w1 & bits & E1 & Ha1 & Hn1 & Hl1 & Ht1).
    rewrite E1.
    destruct (IH w1 Hnd) as (adcs1 & w2 & E2 & Hf & Hother). rewrite E2.
    exists (a1 :: adcs1), w2. split; [ reflexivity | ].
    split; [ constructor | ].
    + exists bits. split; [ exact Ha1 | ]. split; [ exact Hn1 | ].
      split; [ intros _; exact Hl1 | ].
      rewrite (Hother _ Hnotin), Ht1, Z.eqb_refl. reflexivity.
    + apply (Forall2_impl_on
               (fun b => ADC._dout_pin b <> ADC._dout_pin a)
               (shifts_line 1 true (GPIO.trace w1) (GPIO.trace w2)));
        [ | | exact Hf ].
      * intros b b' Hb. apply shifts_line_from.
        rewrite Ht1.
        destruct (ADC._dout_pin a =? ADC._dout_pin b) eqn:Hp;
          [ | reflexivity ].
        apply Z.eqb_eq in Hp. congruence.
      * apply Forall_forall. intros b Hb Hp. apply Hnotin.
        rewrite <- Hp. apply in_map, Hb.
    + intros p Hp. cbn [map] in Hp.
      rewrite Hother by (intros H; apply Hp; right; exact H).
      rewrite Ht1.
      destruct (ADC._dout_pin a =? p) eqn:Hpa; [ | reflexivity ].
      apply Z.eqb_eq in Hpa. exfalso. apply Hp. left. exact Hpa.
Qed.

Lemma shift_adcs_lines s :
  NoDup (map ADC._dout_pin (_adcs (self s))) ->
  exists s',
    shift_adcs s = (Ok tt, s') /\
    Forall2 (shifts_line 1 true (GPIO.trace (world s))
                         (GPIO.trace (world s')))
            (_adcs (self s)) (_adcs (self s')).
Proof.
  intros Hnd. unfold shift_adcs.
  destruct (shift_lines (_adcs (self s)) (world s) Hnd)
    as (adcs1 & w1 & E & Hf & _).
  rewrite E. eexists. split; [ reflexivity | exact Hf ].
Qed.

(** A clock pulse reads no line. *)
Lemma pulse_sck_high_levels s :
  exists r s',
    _pulse_sck_high s = (Ok r, s') /\
    self s' = self s /\
    forall p, GPIO.levels_read p (GPIO.trace (world s')) =
              GPIO.levels_read p (GPIO.trace (world s)).
Proof.
  unfold _pulse_sck_high, bind, get, ask, act, ret. cbn [self world].
  destruct (GPIO.pulse_overruns (world s)); eexists _, _;
    (split; [ reflexivity | ]); (split; [ reflexivity | ]);
    intros p; reflexivity.
Qed.

Lemma pulse_times_levels n s :
  exists r s',
    pulse_times n s = (Ok r, s') /\
    self s' = self s /\
    forall p, GPIO.levels_read p (GPIO.trace (world s')) =
              GPIO.levels_read p (GPIO.trace (world s)).
Proof.
  revert s. induction n as [| n IH]; intros s; cbn [pulse_times].
  - exists true, s. repeat split.
  - unfold bind at 1.
    destruct (pulse_sck_high_levels s) as (ok & s1 & E & Hself & Hl).
    rewrite E. destruct ok.
    + destruct (IH s1) as (r & s2 & E2 & Hself2 & Hl2).
      rewrite E2. exists r, s2. split; [ reflexivity | ].
      split; [ congruence | ]. intros p. rewrite Hl2. apply Hl.
    + exists false, s1. split; [ reflexivity | ].
      split; [ exact Hself | exact Hl ].
Qed.

(** The 24-bit loop, the devices on distinct lines: after every pulse
    each ready device shifts in the level read on its own line. *)
Lemma read_bits_lines n s :
  NoDup (map ADC._dout_pin (_adcs (self s))) ->
  exists r s',
    read_bits n s = (Ok r, s') /\
    Forall2 (shifts_line n r (GPIO.trace (world s))
                         (GPIO.trace (world s')))
            (_adcs (self s)) (_adcs (self s')).
Proof.
  revert s. induction n as [| n IH]; intros s Hnd; cbn [read_bits].
  - exists true, s. split; [ reflexivity | ].
    apply Forall2_same. intros a. exists [].
    split; [ reflexivity | ]. split; [ reflexivity | ].
    split; reflexivity.
  - unfold bind at 1.
    destruct (pulse_sck_high_levels s) as (ok & s1 & E & Hself & Hl).
    rewrite E. destruct ok.
    + unfold bind at 1.
      assert (Hnd1 : NoDup (map ADC._dout_pin (_adcs (self s1))))
        by (rewrite Hself; exact Hnd).
      destruct (shift_adcs_lines s1 Hnd1) as (s2 & E2 & Hf2). rewrite E2.
      assert (Hnd2 : NoDup (map ADC._dout_pin (_adcs (self s2)))).
      { rewrite (shifts_line_pins _ _ _ _ _ _ Hf2). exact Hnd1. }
      destruct (IH s2 Hnd2) as (r & s3 & E3 & Hf3). rewrite E3.
      exists r, s3. split; [ reflexivity | ].
      rewrite Hself in Hf2.
      pose proof (Forall2_compose _ _ _ _ _ Hf2 Hf3) as Hf.
      eapply Forall2_weaken; [ | exact Hf ].
      intros a c (b & H1 & H2).
      apply (shifts_line_trans 1 n r (GPIO.trace (world s))
               (GPIO.trace (world s2)) (GPIO.trace (world s3)) a b c);
        [ | exact H2 ].
      eapply shifts_line_from; [ | exact H1 ]. apply Hl.
    + exists false, s1. split; [ reflexivity | ].
      rewrite Hself. apply Forall2_same. intros a.
      exists []. split; [ reflexivity | ]. split; [ reflexivity | ].
      split; [ discriminate | ]. cbn. apply Hl.
Qed.

(** The preparation only adds to the levels read on a line. *)
Lemma prepare_to_read_levels p s r s' :
  _prepare_to_read s = (r, s') ->
  exists polls,
    GPIO.levels_read p (GPIO.trace (world s')) =
      polls ++ GPIO.levels_read p (GPIO.trace (world s)).
Proof.
  intros E.
  refine (proj2 (prepare_to_read_inv (_sck_pin (self s))
            (fun tr => exists polls,
                 GPIO.levels_read p tr =
                   polls ++ GPIO.levels_read p (GPIO.trace (world s)))
            (fun tr => exists polls,
                 GPIO.levels_read p tr =
                   polls ++ GPIO.levels_read p (GPIO.trace (world s)))
            _ _ _ _ _ _ _ E (conj eq_refl _))).
  - intros pin level tr [polls H]. cbn.
    destruct (pin =? p); [ exists (level :: polls) | exists polls ];
      rewrite H; reflexivity.
  - intros ms tr H. exact H.
  - intros m tr H. exact H.
  - intros tr H. exact H.
  - exists []. reflexivity.
Qed.

(** One device through a cycle that reaches the end of the 24-bit loop,
    with its line. *)
Lemma cycled_line_device lv tr tr' a a2 a3 :
  polled lv (ADC._init_raw_read a) a2 ->
  shifts_line 24 true tr tr' a2 a3 ->
  let a' := if ADC._ready a3 then ADC._finish_raw_read a3 else a3 in
  (ADC.raw_reads a' = ADC.raw_reads a /\ ADC._ready a' = false) \/
  (exists v,
     0 <= v < 2 ^ 24 /\
     ADC.raw_reads a' = ADC.raw_reads a ++ [v] /\
     ADC._ready a' = true /\
     GPIO.levels_read (ADC._dout_pin a) tr' =
       rev (ADC.bits24 v) ++ GPIO.levels_read (ADC._dout_pin a) tr).
Proof.
  intros Hp (bits & -> & Hnone & Hlen & Ht). cbv zeta.
  destruct (polled_after_init _ _ _ Hp) as (Hcur & Hraw & _).
  assert (Hpin : ADC._dout_pin a2 = ADC._dout_pin a).
  { destruct Hp as (Hset & _).
    apply (f_equal ADC._dout_pin) in Hset. exact Hset. }
  rewrite shift_bits_ready.
  destruct (shift_bits_history bits a2) as [Hraw3 _].
  destruct (ADC._ready a2) eqn:Hr.
  - right. exists (ADC._current_raw_read (ADC.shift_bits bits a2)).
    split; [ apply shift_bits_range; auto | ].
    destruct (finish_raw_read_history (ADC.shift_bits bits a2)) as [H1 _].
    split; [ congruence | ].
    split.
    + change (ADC._ready (ADC._finish_raw_read (ADC.shift_bits bits a2)))
        with (ADC._ready (ADC.shift_bits bits a2)).
      rewrite shift_bits_ready. exact Hr.
    + rewrite shift_bits_levels by auto. rewrite <- Hpin. exact Ht.
  - left. rewrite (Hnone eq_refl). cbn [ADC.shift_bits fold_left].
    split; assumption.
Qed.

(** One read cycle and the data lines, the devices on distinct lines.
    Every device either keeps its raw history (and then, if the cycle
    succeeded, it was found not ready), or it is ready and has appended
    one 24-bit pattern whose bits, the highest first, are the last 24
    levels [GPIO.input] returned on the line of the device, in the order
    they were read; [polls] are the levels the cycle read on that line
    before them. *)
Theorem cycle_reads_line_levels (s : state) :
  NoDup (map ADC._dout_pin (_adcs (self s))) ->
  exists r s',
    _read s = (Ok r, s') /\
    Forall2 (fun a a' =>
               (ADC.raw_reads a' = ADC.raw_reads a /\
                (r = true -> ADC._ready a' = false)) \/
               (exists v polls,
                  0 <= v < 2 ^ 24 /\
                  ADC.raw_reads a' = ADC.raw_reads a ++ [v] /\
                  ADC._ready a' = true /\
                  GPIO.levels_read (ADC._dout_pin a)
                                   (GPIO.trace (world s')) =
                    rev (ADC.bits24 v) ++ polls ++
                    GPIO.levels_read (ADC._dout_pin a)
                                     (GPIO.trace (world s))))
            (_adcs (self s)) (_adcs (self s')).
Proof.
  intros Hnd.
  unfold _read, bind at 1, each_adc.
  set (s1 := mkState _ (world s)).
  unfold bind at 1.
  destruct (prepare_to_read_spec s1) as (ready & s2 & E2 & Hrun2 & _).
  rewrite E2. unfold bind at 1, get.
  assert (Hpolls : forall p, exists polls,
             GPIO.levels_read p (GPIO.trace (world s2)) =
               polls ++ GPIO.levels_read p (GPIO.trace (world s))).
  { intros p. apply (prepare_to_read_levels p _ _ _ E2). }
  destruct Hrun2 as (_ & _ & Hf2).
  unfold s1 in Hf2. cbn [self world _adcs set_adcs] in Hf2.
  apply Forall2_map_left in Hf2.
  set (lv := GPIO.levels (world s)) in *.
  assert (Hp : Forall2 (fun a a2 => polled lv (ADC._init_raw_read a) a2)
                       (_adcs (self s)) (_adcs (self s2))).
  { eapply Forall2_weaken; [ | exact Hf2 ]. intros a b [H _]. exact H. }
  clear Hf2.
  assert (Hnd2 : NoDup (map ADC._dout_pin (_adcs (self s2)))).
  { assert (Hpins : map ADC._dout_pin (_adcs (self s2)) =
                    map ADC._dout_pin (_adcs (self s))).
    { clear - Hp. induction Hp as [| a a2 l l2 (Hset & _) _ IH];
        [ reflexivity | ].
      cbn [map]. rewrite IH.
      apply (f_equal ADC._dout_pin) in Hset. cbn in Hset.
      rewrite Hset. reflexivity. }
    rewrite Hpins. exact Hnd. }
  destruct (negb ready && _all_or_nothing (self s2)).
  { exists false, s2. split; [ reflexivity | ].
    eapply Forall2_weaken; [ | exact Hp ].
    intros a a2 H. left.
    destruct (polled_after_init _ _ _ H) as (_ & Hraw & _).
    split; [ exact Hraw | discriminate ]. }
  unfold bind at 1.
  destruct (read_bits_lines 24 s2 Hnd2) as (ok & s3 & E3 & Hf3).
  rewrite E3.
  pose proof (Forall2_compose _ _ _ _ _ Hp Hf3) as Hf.
  destruct ok; cbn [negb].
  2:{ exists false, s3. split; [ reflexivity | ].
      eapply Forall2_weaken; [ | exact Hf ].
      intros a a3 (a2 & H1 & (bits & -> & _)). left.
      destruct (polled_after_init _ _ _ H1) as (_ & Hraw & _).
      destruct (shift_bits_history bits a2) as [Hraw3 _].
      split; [ congruence | discriminate ]. }
  unfold bind at 1, each_adc.
  set (s4 := mkState _ (world s3)).
  unfold bind at 1.
  destruct (write_channel_gain_spec s4) as (ok & s5 & E5 & Hself & _).
  destruct (pulse_times_levels (num_pulses (self s4)) s4)
    as (ok' & s5' & E5' & _ & Hl5).
  pose proof E5 as E5w.
  unfold _write_channel_gain, bind, get in E5w. rewrite E5w in E5'.
  injection E5' as <- <-. clear E5w.
  rewrite E5.
  assert (H5 : Forall2 (fun a a' =>
               (ADC.raw_reads a' = ADC.raw_reads a /\
                ADC._ready a' = false) \/
               (exists v polls,
                  0 <= v < 2 ^ 24 /\
                  ADC.raw_reads a' = ADC.raw_reads a ++ [v] /\
                  ADC._ready a' = true /\
                  GPIO.levels_read (ADC._dout_pin a)
                                   (GPIO.trace (world s5)) =
                    rev (ADC.bits24 v) ++ polls ++
                    GPIO.levels_read (ADC._dout_pin a)
                                     (GPIO.trace (world s))))
              (_adcs (self s)) (_adcs (self s5))).
  { assert (Hl53 : forall p,
               GPIO.levels_read p (GPIO.trace (world s5)) =
               GPIO.levels_read p (GPIO.trace (world s3))) by exact Hl5.
    rewrite Hself. unfold s4. cbn [self _adcs set_adcs].
    clear - Hf Hl53 Hpolls.
    induction Hf as [| a a3 l l3 (a2 & H1 & H2) _ IH];
      cbn [map]; constructor; [ | exact IH ].
    destruct (cycled_line_device _ _ _ _ _ _ H1 H2)
      as [Hkept | (v & Hv & Hraw & Hr & Ht)]; [ left; exact Hkept | ].
    right. destruct (Hpolls (ADC._dout_pin a)) as [polls Hpolls'].
    exists v, polls. split; [ exact Hv | ]. split; [ exact Hraw | ].
    split; [ exact Hr | ].
    rewrite Hl53, Ht, Hpolls'. reflexivity. }
  destruct ok; cbn [negb]; unfold ret; eexists _, s5;
    (split; [ reflexivity | ]);
    (eapply Forall2_weaken; [ | exact H5 ]);
    intros a a' [[Hk Hr] | Ht]; auto.
Qed.

Lemma cycle_reads_line_levels_witness :
  let s := mkState Examples.one_in_list (Worlds.blip 8) in
  exists s',
    _read s = (Ok true, s') /\
    map ADC.raw_reads (_adcs (self s')) = [[0x400000]] /\
    firstn 24 (GPIO.levels_read 5 (GPIO.trace (world s'))) =
      rev (ADC.bits24 0x400000).
Proof.
  cbv zeta. set (s := mkState Examples.one_in_list (Worlds.blip 8)).
  destruct (cycle_reads_line_levels s) as (r & s' & E & Hf).
  { repeat constructor. intros []. }
  assert (Hr : fst (_read s) = Ok true) by (vm_compute; reflexivity).
  assert (Hraw : map ADC.raw_reads (_adcs (self (snd (_read s)))) =
                 [[0x400000]]) by (vm_compute; reflexivity).
  rewrite E in Hr, Hraw. cbn [fst snd] in Hr, Hraw.
  injection Hr as ->. exists s'. split; [ exact E | ].
  split; [ exact Hraw | ].
  cbn [s Examples.one_in_list self _adcs] in Hf.
  destruct (_adcs (self s')) as [| a' [| a'' rest]];
    try discriminate Hraw.
  cbn [map] in Hraw. injection Hraw as Hraw.
  apply Forall2_cons_iff in Hf. destruct Hf as [Ha _].
  destruct Ha as [[Hk _] | (v & polls & Hv & Hraw' & _ & Ht)].
  - rewrite Hraw in Hk. discriminate Hk.
  - rewrite Hraw in Hraw'. cbn in Hraw'. injection Hraw' as <-.
    cbn [ADC.init ADC._dout_pin] in Ht. rewrite Ht.
    rewrite firstn_app, length_rev, bits24_length.
    change (24 - 24)%nat with 0%nat. rewrite firstn_O, app_nil_r.
    apply firstn_all2. rewrite length_rev, bits24_length. apply le_n.
Defined.

End LineLevels.

(* ------------------------------------------------------------------ *)
(** ** [zero]: merging across the retries                             *)
(* ------------------------------------------------------------------ *)

Section ZeroRetries.

Import HX711 Effects.

Lemma merge_length new old :
  length new = length old -> length (merge new old) = length old.
Proof.
  revert old. induction new as [| x new IH]; intros [| y old] H;
    cbn in *; try discriminate; [ reflexivity | ].
  rewrite IH by congruence. reflexivity.
Qed.

Lemma merge_nth new old i :
  length new = length old ->
  nth i (merge new old) None =
  match nth i new None with
  | Some x => Some x
  | None => nth i old None
  end.
Proof.
  revert old i. induction new as [| x new IH]; intros [| y old] i H;
    cbn in H; try discriminate.
  - destruct i; reflexivity.
  - destruct i as [| i]; cbn [merge nth].
    + destruct x; reflexivity.
    + apply IH. congruence.
Qed.

(** After any number of batches the reading held for a device is the
    latest one that was present. *)
Lemma merge_all_latest news :
  forall old i,
    Forall (fun new => length new = length old) news ->
    (i < length old)%nat ->
    nth_error (merge_all old news) i =
      Some (latest (map (fun b => nth i b None) (old :: news))).
Proof.
  induction news as [| new news IH]; intros old i Hlen Hi.
  - cbn. rewrite (nth_error_nth' old None Hi).
    destruct (nth i old None); reflexivity.
  - inversion Hlen as [| ? ? Hnew Hrest]; subst.
    change (merge_all old (new :: news))
      with (merge_all (merge new old) news).
    rewrite IH.
    + f_equal. cbn [map latest]. rewrite merge_nth by exact Hnew.
      destruct (latest (map (fun b => nth i b None) news));
        [ reflexivity | ].
      destruct (nth i new None); reflexivity.
    + rewrite merge_length by exact Hnew.
      eapply Forall_impl; [ | exact Hrest ]. intros b Hb. exact Hb.
    + rewrite merge_length by exact Hnew. exact Hi.
Qed.

(** A batch is as long as there are devices, before and after. *)
Lemma read_raw_length n s l s1 :
  read_raw n s = (Ok (PList l), s1) ->
  length l = length (_adcs (self s)) /\
  length (_adcs (self s1)) = length (_adcs (self s)).
Proof.
  intros Hread.
  destruct (read_raw_spec _ _ _ _ Hread) as (_ & _ & Hagg & Hret).
  apply Forall2_length_eq in Hagg.
  unfold returned, ret, raise in Hret.
  destruct (_single_adc (self s1)).
  - destruct (map ADC.measurement_from_zero (_adcs (self s1)))
      as [| [q |] rest]; discriminate.
  - injection Hret as <-. rewrite length_map. split; congruence.
Qed.

Lemma retried_lengths n old s news s' :
  retried n old s news s' ->
  length old = length (_adcs (self s)) ->
  Forall (fun new => length new = length old) news.
Proof.
  induction 1 as [| old s new s1 news s2 _ Hread _ IH]; intros Hold.
  - constructor.
  - destruct (read_raw_length _ _ _ _ Hread) as [Hl Hadcs].
    assert (Hnew : length new = length old) by congruence.
    constructor; [ exact Hnew | ].
    rewrite <- (merge_length new old Hnew). apply IH.
    rewrite merge_length by exact Hnew. congruence.
Qed.

(** The loop of [zero] from readings in hand. *)
Lemma zero_loop_retried n old s news s' :
  retried n old s news s' ->
  forall k,
    news <> [] ->
    (length news <= k)%nat ->
    existsb is_None (merge_all old news) = false \/ length news = k ->
    zero_loop k n (PList old) s = (Ok (PList (merge_all old news)), s').
Proof.
  induction 1 as [| old s new s1 news s2 _ Hread Hrest IH];
    intros k Hne Hk Hend; [ contradiction | ].
  destruct k as [| k]; [ cbn in Hk; lia | ].
  cbn [zero_loop]. unfold bind at 1. rewrite Hread.
  unfold bind at 1, lift. cbn [merge_readings].
  unfold bind at 1, lift. cbn [contains_None].
  change (merge_all old (new :: news))
    with (merge_all (merge new old) news) in *.
  destruct news as [| new2 news].
  - inversion Hrest; subst. cbn [merge_all fold_left] in *.
    destruct (existsb is_None (merge new old)) eqn:Hmiss; cbn [negb].
    + destruct Hend as [Hend | Hend]; [ discriminate | ].
      cbn in Hend. injection Hend as <-. reflexivity.
    + reflexivity.
  - assert (Hmiss : existsb is_None (merge new old) = true)
      by (inversion Hrest; assumption).
    rewrite Hmiss. cbn [negb]. apply IH.
    + discriminate.
    + cbn [length] in *. lia.
    + destruct Hend as [Hend | Hend]; [ left; exact Hend | right ].
      cbn [length] in *. lia.
Qed.

(** C5.  In [zero], the results of the batches are merged across the
    retries, however many there are.  When the first batch returns the
    list [first] and the loop, some reading being missing each time, goes
    on through the batches [news] (and then stops, no reading missing or
    the retry limit reached), the readings [zero] holds are those of
    [first] merged with every later batch in turn; and for every device
    the reading held is the latest one that was present in any of the
    batches, [None] only if none had one: a later [None] never overwrites
    an earlier value, a later value replaces what was there. *)
Theorem zero_merges_retries (n : Z) (k : nat) (s s1 s' : state)
  (first : list (option Qc)) (news : list (list (option Qc))) :
  read_raw n s = (Ok (PList first), s1) ->
  retried n first s1 news s' ->
  (length news < k)%nat ->
  existsb is_None (merge_all first news) = false \/ S (length news) = k ->
  zero_loop k n PNone s = (Ok (PList (merge_all first news)), s') /\
  forall i,
    (i < length (_adcs (self s)))%nat ->
    nth_error (merge_all first news) i =
      Some (latest (map (fun b => nth i b None) (first :: news))).
Proof.
  intros Hread Hret Hk Hend.
  destruct (read_raw_length _ _ _ _ Hread) as [Hl Hadcs].
  split.
  - destruct k as [| k]; [ lia | ].
    cbn [zero_loop]. unfold bind at 1. rewrite Hread.
    unfold bind at 1, ret. unfold bind at 1, lift. cbn [contains_None].
    destruct news as [| new news].
    + inversion Hret; subst. cbn [merge_all fold_left] in *.
      destruct (existsb is_None first) eqn:Hmiss; cbn [negb].
      * destruct Hend as [Hend | Hend]; [ discriminate | ].
        cbn in Hend. injection Hend as <-. reflexivity.
      * reflexivity.
    + assert (Hmiss : existsb is_None first = true)
        by (inversion Hret; assumption).
      rewrite Hmiss. cbn [negb].
      apply (zero_loop_retried _ _ _ _ _ Hret).
      * discriminate.
      * cbn [length] in *. lia.
      * destruct Hend as [Hend | Hend]; [ left; exact Hend | right ].
        cbn [length] in *. lia.
  - intros i Hi. apply merge_all_latest.
    + eapply retried_lengths; [ exact Hret | congruence ].
    + rewrite Hl. exact Hi.
Qed.

Lemma zero_merges_retries_witness :
  let s := mkState (Examples.two_devices false) Worlds.handover in
  exists first new,
    fst (read_raw 3 s) = Ok (PList first) /\
    map (option_map this) first = [None; Some (1 # 3)%Q] /\
    fst (read_raw 3 (snd (read_raw 3 s))) = Ok (PList new) /\
    map (option_map this) new = [Some (2 # 3)%Q; None] /\
    fst (zero_loop 2 3 PNone s) = Ok (PList (merge_all first [new])) /\
    map (option_map this) (merge_all first [new]) =
      [Some (2 # 3)%Q; Some (1 # 3)%Q].
Proof.
  cbv zeta.
  set (s := mkState (Examples.two_devices false) Worlds.handover).
  set (s1 := snd (read_raw 3 s)).
  set (s2 := snd (read_raw 3 s1)).
  destruct (fst (read_raw 3 s)) as [[| q | first] | e] eqn:E1;
    try (vm_compute in E1; discriminate E1).
  destruct (fst (read_raw 3 s1)) as [[| q | new] | e] eqn:E2;
    try (vm_compute in E2; discriminate E2).
  assert (Hfirst : map (option_map this) first = [None; Some (1 # 3)%Q]).
  { apply (f_equal (fun r => match r with
                             | Ok (PList l) => map (option_map this) l
                             | _ => []
                             end)) in E1.
    vm_compute in E1. symmetry. exact E1. }
  assert (Hnew : map (option_map this) new = [Some (2 # 3)%Q; None]).
  { apply (f_equal (fun r => match r with
                             | Ok (PList l) => map (option_map this) l
                             | _ => []
                             end)) in E2.
    vm_compute in E2. symmetry. exact E2. }
  assert (R1 : read_raw 3 s = (Ok (PList first), s1)).
  { rewrite (surjective_pairing (read_raw 3 s)) at 1.
    rewrite E1. reflexivity. }
  assert (R2 : read_raw 3 s1 = (Ok (PList new), s2)).
  { rewrite (surjective_pairing (read_raw 3 s1)) at 1.
    rewrite E2. reflexivity. }
  clearbody s1 s2. clear E1 E2. clearbody s.
  assert (Hmiss : existsb is_None first = true).
  { destruct first as [| [x |] rest]; cbn in Hfirst;
      try discriminate Hfirst.
    reflexivity. }
  destruct (zero_merges_retries 3 2 s s1 s2 first [new] R1) as [Hloop _].
  - eapply retried_more; [ exact Hmiss | exact R2 | apply retried_none ].
  - cbn. lia.
  - right. reflexivity.
  - exists first, new.
    split; [ reflexivity | ]. split; [ exact Hfirst | ].
    split; [ reflexivity | ]. split; [ exact Hnew | ].
    split; [ rewrite Hloop; reflexivity | ].
    destruct first as [| f1 [| f2 [| f3 rest]]]; try discriminate Hfirst.
    destruct new as [| n1 [| n2 [| n3 rest]]]; try discriminate Hnew.
    cbn in Hfirst, Hnew.
    destruct f1 as [f1 |]; [ discriminate Hfirst | ].
    destruct f2 as [f2 |]; [ | discriminate Hfirst ].
    destruct n1 as [n1 |]; [ | discriminate Hnew ].
    destruct n2 as [n2 |]; [ discriminate Hnew | ].
    injection Hfirst as Hf. injection Hnew as Hn.
    cbn. rewrite Hf, Hn. reflexivity.
Defined.

End ZeroRetries.

(* ------------------------------------------------------------------ *)
(** ** Aggregating the survivors again                                *)
(* ------------------------------------------------------------------ *)

Section SortedData.

Import Statistics.

Lemma of_Z_inj (x y : Z) : Num.of_Z x = Num.of_Z y -> x = y.
Proof.
  unfold Num.of_Z. intros H. apply (f_equal this) in H.
  change (Qred (inject_Z x) = Qred (inject_Z y)) in H.
  apply Qred_eq_iff in H. unfold Qeq in H. cbn in H. lia.
Qed.

Lemma of_nat_S (n : nat) : Num.of_nat (S n) = (Num.of_nat n + 1)%Qc.
Proof.
  unfold Num.of_nat, Num.of_Z. apply Qc_is_canon. cbn [this Qcplus Q2Qc].
  rewrite !Qred_correct. rewrite Nat2Z.inj_succ.
  unfold Z.succ. rewrite inject_Z_plus. reflexivity.
Qed.

Lemma of_nat_0 : Num.of_nat 0 = 0%Qc.
Proof. apply Qc_is_canon. reflexivity. Qed.

Lemma of_nat_add (n m : nat) :
  Num.of_nat (n + m) = (Num.of_nat n + Num.of_nat m)%Qc.
Proof.
  induction n as [| n IH]; cbn [Nat.add].
  - rewrite of_nat_0. ring.
  - rewrite !of_nat_S, IH. ring.
Qed.

Lemma of_nat_S_neq_0 (n : nat) : Num.of_nat (S n) <> 0%Qc.
Proof.
  rewrite of_nat_S. intros H.
  pose proof (of_nat_nonneg n) as Hn.
  assert (Hlt : (0 < Num.of_nat n + 1)%Qc).
  { apply Qclt_le_trans with (y := (0 + 1)%Qc).
    - vm_compute. reflexivity.
    - apply Qcplus_le_compat; [ exact Hn | apply Qcle_refl ]. }
  rewrite H in Hlt. exact (Qclt_not_le _ _ Hlt (Qcle_refl _)).
Qed.

Lemma sq_zero (x : Qc) : Num.sq x = 0%Qc -> x = 0%Qc.
Proof.
  unfold Num.sq. intros H. apply Qcmult_integral in H. tauto.
Qed.

(** A sum of non-negative terms is zero only if every term is. *)
Lemma sum_zero (l : list Qc) :
  Forall (fun x => (0 <= x)%Qc) l -> Num.sum l = 0%Qc ->
  Forall (fun x => x = 0%Qc) l.
Proof.
  induction 1 as [| x l Hx Hl IH]; intros Hs; constructor.
  - cbn in Hs. pose proof (sum_nonneg l Hl) as Hsum.
    apply Qcle_antisym; [ | exact Hx ].
    rewrite <- Hs.
    replace x with (x + 0)%Qc at 1 by ring.
    apply Qcplus_le_compat; [ apply Qcle_refl | exact Hsum ].
  - apply IH. cbn in Hs. pose proof (sum_nonneg l Hl) as Hsum.
    apply Qcle_antisym; [ | exact Hsum ].
    rewrite <- Hs.
    replace (Num.sum l) with (0 + Num.sum l)%Qc at 1 by ring.
    apply Qcplus_le_compat; [ exact Hx | apply Qcle_refl ].
Qed.

(** With a variance of zero, over two values or more, all values are
    equal. *)
Lemma variance_zero_equal (data : list Qc) :
  (2 <= length data)%nat -> variance data = 0%Qc ->
  exists d, Forall (fun x => x = d) data.
Proof.
  intros Hlen Hv. unfold variance in Hv.
  set (m := (Num.sum data / Num.of_nat (length data))%Qc) in *.
  exists m.
  destruct (length data) as [| [| n]] eqn:Hn; try lia.
  cbn [Nat.pred] in Hv.
  assert (Hs : Num.sum (map (fun x => Num.sq (x - m)%Qc) data) = 0%Qc).
  { unfold Qcdiv in Hv. apply Qcmult_integral in Hv.
    destruct Hv as [Hv | Hv]; [ exact Hv | ].
    exfalso. pose proof (Qcmult_inv_r _ (of_nat_S_neq_0 n)) as Hi.
    rewrite Hv in Hi.
    replace (Num.of_nat (S n) * 0)%Qc with 0%Qc in Hi by ring.
    apply (f_equal this) in Hi. discriminate Hi. }
  apply sum_zero in Hs.
  - rewrite Forall_map in Hs.
    eapply Forall_impl; [ | exact Hs ]. cbn beta.
    intros x Hx. apply sq_zero in Hx.
    replace x with (x - m + m)%Qc by ring. rewrite Hx. ring.
  - rewrite Forall_map. apply Forall_forall. intros x _. apply sq_nonneg.
Qed.

Lemma insert_sorted_in x y l :
  In y (insert_sorted x l) <-> y = x \/ In y l.
Proof.
  induction l as [| z l IH]; cbn [insert_sorted].
  - cbn. intuition.
  - destruct (x <=? z); cbn [In]; [ intuition | ].
    rewrite IH. intuition.
Qed.

Lemma sorted_in y l : In y (sorted l) <-> In y l.
Proof.
  induction l as [| x l IH]; [ reflexivity | ].
  cbn [sorted fold_right]. fold (sorted l).
  rewrite insert_sorted_in, IH. cbn. intuition.
Qed.

Lemma insert_sorted_length x l :
  length (insert_sorted x l) = S (length l).
Proof.
  induction l as [| z l IH]; [ reflexivity | ].
  cbn [insert_sorted]. destruct (x <=? z); cbn [length]; [ | rewrite IH ];
    reflexivity.
Qed.

Lemma sorted_length l : length (sorted l) = length l.
Proof.
  induction l as [| x l IH]; [ reflexivity | ].
  cbn [sorted fold_right]. fold (sorted l).
  rewrite insert_sorted_length, IH. reflexivity.
Qed.

Lemma sum_cons (x : Qc) (l : list Qc) :
  Num.sum (x :: l) = (x + Num.sum l)%Qc.
Proof. reflexivity. Qed.

Lemma insert_sorted_sum x l :
  Num.sum (map Num.of_Z (insert_sorted x l)) =
  (Num.of_Z x + Num.sum (map Num.of_Z l))%Qc.
Proof.
  induction l as [| z l IH]; [ reflexivity | ].
  cbn [insert_sorted]. destruct (x <=? z); [ reflexivity | ].
  cbn [map]. rewrite !sum_cons, IH. ring.
Qed.

Lemma sorted_sum l :
  Num.sum (map Num.of_Z (sorted l)) = Num.sum (map Num.of_Z l).
Proof.
  induction l as [| x l IH]; [ reflexivity | ].
  cbn [sorted fold_right]. fold (sorted l).
  rewrite insert_sorted_sum, IH. reflexivity.
Qed.

Lemma insert_sorted_ordered x l :
  ForallOrdPairs Z.le l -> ForallOrdPairs Z.le (insert_sorted x l).
Proof.
  induction 1 as [| z l Hz Hl IH]; cbn [insert_sorted].
  - repeat constructor.
  - destruct (x <=? z) eqn:Hxz.
    + apply Z.leb_le in Hxz. constructor; [ | constructor; assumption ].
      constructor; [ exact Hxz | ].
      eapply Forall_impl; [ | exact Hz ]. cbn beta. intros; lia.
    + apply Z.leb_gt in Hxz. constructor; [ | exact IH ].
      apply Forall_forall. intros y Hy. apply insert_sorted_in in Hy.
      destruct Hy as [-> | Hy]; [ lia | ].
      rewrite Forall_forall in Hz. apply Hz, Hy.
Qed.

Lemma sorted_ordered l : ForallOrdPairs Z.le (sorted l).
Proof.
  induction l as [| x l IH]; [ constructor | ].
  cbn [sorted fold_right]. fold (sorted l).
  apply insert_sorted_ordered, IH.
Qed.

Lemma ordered_app (l1 l2 : list Z) :
  ForallOrdPairs Z.le (l1 ++ l2) ->
  forall x y, In x l1 -> In y l2 -> x <= y.
Proof.
  induction l1 as [| z l1 IH]; intros H x y Hx Hy; [ destruct Hx | ].
  cbn [app] in H. inversion H as [| ? ? Hz Hrest]; subst.
  destruct Hx as [-> | Hx].
  - rewrite Forall_forall in Hz. apply Hz, in_or_app. right. exact Hy.
  - apply (IH Hrest x y Hx Hy).
Qed.

Lemma sum_const (c : Z) (l : list Z) :
  Forall (fun x => x = c) l ->
  Num.sum (map Num.of_Z l) = (Num.of_nat (length l) * Num.of_Z c)%Qc.
Proof.
  induction 1 as [| x l -> _ IH]; cbn [map length].
  - rewrite of_nat_0. cbn. ring.
  - rewrite sum_cons, of_nat_S, IH. ring.
Qed.

Lemma sum_app (l1 l2 : list Qc) :
  Num.sum (l1 ++ l2) = (Num.sum l1 + Num.sum l2)%Qc.
Proof.
  induction l1 as [| x l1 IH]; cbn [app].
  - cbn. ring.
  - rewrite !sum_cons, IH. ring.
Qed.

(** When all the reads are equally far from the median, the median is
    their mean: with an odd number of reads they all equal the median;
    with an even number, half of them equal the lower middle value and
    half the upper one. *)
Lemma equidistant_median_mean (vals : list Z) (d : Qc) :
  vals <> [] ->
  Forall (fun r => Num.abs (Num.of_Z r - median vals)%Qc = d) vals ->
  median vals = mean vals.
Proof.
  intros Hne Hd.
  assert (Hsq : forall x y, In x (sorted vals) -> In y (sorted vals) ->
                  Num.sq (Num.of_Z x - median vals)%Qc =
                  Num.sq (Num.of_Z y - median vals)%Qc).
  { rewrite Forall_forall in Hd. intros x y Hx Hy.
    apply (proj1 (sorted_in _ _)) in Hx.
    apply (proj1 (sorted_in _ _)) in Hy.
    rewrite <- (sq_abs (Num.of_Z x - _)), <- (sq_abs (Num.of_Z y - _)).
    rewrite (Hd x Hx), (Hd y Hy). reflexivity. }
  unfold mean. rewrite <- sorted_sum, <- sorted_length.
  pose proof (sorted_ordered vals) as Hord.
  assert (Hlen : length (sorted vals) <> 0%nat).
  { rewrite sorted_length. destruct vals; [ congruence | discriminate ]. }
  revert Hsq. unfold median. cbv zeta.
  set (s := sorted vals) in *. clearbody s. clear Hd Hne vals.
  destruct (Nat.even (length s)) eqn:Hev.
  - (* an even number of reads *)
    apply Nat.even_spec in Hev. destruct Hev as [i Hi].
    assert (Hdiv : (length s / 2)%nat = i).
    { rewrite Hi, Nat.mul_comm. apply Nat.div_mul. discriminate. }
    rewrite Hdiv.
    assert (Hi0 : (0 < i)%nat) by lia.
    destruct (nth_split s 0 (n := Nat.pred i)) as (l0 & rest & Hs & Hl0);
      [ lia | ].
    set (p := nth (Nat.pred i) s 0) in *.
    destruct rest as [| q l2].
    { exfalso. rewrite Hs, length_app in Hi. cbn in Hi. lia. }
    assert (Hq : nth i s 0 = q).
    { rewrite Hs at 1. rewrite app_nth2 by lia.
      replace (i - length l0)%nat with 1%nat by lia. reflexivity. }
    rewrite Hq. clearbody p. subst s. intros Hsq.
    assert (Hl2 : length l2 = length l0).
    { rewrite !length_app in Hi. cbn [length] in Hi. lia. }
    set (P := Num.of_Z p) in *. set (Q := Num.of_Z q) in *.
    assert (Hpq : p <= q).
    { apply (ordered_app (l0 ++ [p]) (q :: l2)).
      - rewrite <- app_assoc. exact Hord.
      - apply in_or_app. right. left. reflexivity.
      - left. reflexivity. }
    assert (Hcase : forall x, In x (l0 ++ p :: q :: l2) -> x = p \/ x = q).
    { intros x Hx.
      assert (Hp : In p (l0 ++ p :: q :: l2))
        by (apply in_or_app; right; left; reflexivity).
      pose proof (Hsq x p Hx Hp) as H. fold P Q in H.
      assert (Hprod : ((Num.of_Z x - P) * (Num.of_Z x - Q))%Qc = 0%Qc).
      { unfold Num.sq in H. rewrite of_Z_2 in H.
        replace ((Num.of_Z x - P) * (Num.of_Z x - Q))%Qc
          with ((Num.of_Z x - (P + Q) / (1 + 1)) *
                (Num.of_Z x - (P + Q) / (1 + 1)) -
                (P - (P + Q) / (1 + 1)) * (P - (P + Q) / (1 + 1)))%Qc
          by (field; exact two_neq_0).
        rewrite H. ring. }
      apply Qcmult_integral in Hprod.
      destruct Hprod as [Hx' | Hx']; [ left | right ]; apply of_Z_inj;
        [ fold P | fold Q ];
        (replace (Num.of_Z x) with (Num.of_Z x - 0)%Qc by ring);
        rewrite <- Hx'; ring. }
    assert (H0 : Forall (fun x => x = p) l0).
    { apply Forall_forall. intros x Hx.
      assert (Hle : x <= p).
      { apply (ordered_app l0 (p :: q :: l2) Hord); [ exact Hx | ].
        left. reflexivity. }
      destruct (Hcase x) as [-> | ->];
        [ apply in_or_app; left; exact Hx | reflexivity | lia ]. }
    assert (H2 : Forall (fun x => x = q) l2).
    { apply Forall_forall. intros x Hx.
      assert (Hle : q <= x).
      { apply (ordered_app (l0 ++ [p; q]) l2).
        - rewrite <- app_assoc. exact Hord.
        - apply in_or_app. right. right. left. reflexivity.
        - exact Hx. }
      destruct (Hcase x) as [-> | ->];
        [ apply in_or_app; right; right; right; exact Hx | lia
        | reflexivity ]. }
    rewrite map_app, sum_app. cbn [map]. rewrite !sum_cons.
    rewrite (sum_const p l0 H0), (sum_const q l2 H2).
    rewrite !length_app. cbn [length]. rewrite Hl2.
    rewrite of_nat_add, !of_nat_S, of_Z_2. fold P Q.
    pose proof (of_nat_nonneg (length l0)) as Hk.
    field. split.
    + intros H.
      assert (Hpos : (0 < Num.of_nat (length l0) +
                          (Num.of_nat (length l0) + 1 + 1))%Qc).
      { apply Qclt_le_trans with (y := 1%Qc); [ vm_compute; reflexivity | ].
        replace 1%Qc with (0 + (0 + 0 + 1))%Qc at 1 by ring.
        repeat apply Qcplus_le_compat; try exact Hk; try apply Qcle_refl.
        vm_compute. discriminate. }
      change ((Num.of_nat (length l0) +
               (Num.of_nat (length l0) + 1 + 1))%Qc = 0%Qc) in H.
      rewrite H in Hpos. exact (Qclt_not_le _ _ Hpos (Qcle_refl _)).
    + intros H. apply (f_equal this) in H. discriminate H.
  - (* an odd number of reads *)
    rewrite <- Nat.negb_odd in Hev. apply negb_false_iff in Hev.
    apply Nat.odd_spec in Hev. destruct Hev as [i Hi].
    assert (Hdiv : (length s / 2)%nat = i).
    { rewrite Hi, Nat.mul_comm, Nat.div_add_l by discriminate.
      cbn. lia. }
    rewrite Hdiv. intros Hsq.
    set (m := nth i s 0) in *.
    assert (Hm : In m s) by (apply nth_In; lia).
    assert (Hall : Forall (fun x => x = m) s).
    { apply Forall_forall. intros x Hx.
      pose proof (Hsq x m Hx Hm) as H.
      replace (Num.of_Z m - Num.of_Z m)%Qc with 0%Qc in H by ring.
      replace (Num.sq 0) with 0%Qc in H by (unfold Num.sq; ring).
      apply sq_zero in H. apply of_Z_inj.
      replace (Num.of_Z x) with (Num.of_Z x - Num.of_Z m + Num.of_Z m)%Qc
        by ring.
      rewrite H. ring. }
    rewrite (sum_const m s Hall).
    destruct (length s) as [| n] eqn:Hn; [ congruence | ].
    field. apply of_nat_S_neq_0.
Qed.

End SortedData.

Section Rerun.

Import ADC.

Ltac fields :=
  cbn [fst snd _dout_pin _zero_offset _weight_multiple _ready
       _current_raw_read raw_reads reads _max_stdev _reads_filtered
       _max_number_of_stdev_from_med _read_med _devs_from_med _read_stdev
       _ratios_to_stdev measurement measurement_from_zero weight
       set_zero_offset set_weight_multiple set_ready set_current_raw_read
       set_raw_reads set_reads set_reads_filtered set_read_med
       set_devs_from_med set_read_stdev set_ratios_to_stdev set_measurement
       set_measurement_from_zero set_weight].

Lemma mean_single (r : Z) : Statistics.mean [r] = Num.of_Z r.
Proof.
  unfold Statistics.mean. cbn [map length]. rewrite sum_cons.
  rewrite of_nat_S, of_nat_0. cbn [Num.sum fold_right]. field.
  intros H. apply (f_equal this) in H. discriminate H.
Qed.

(** The zero-spread return gives the mean as well: with a deviation of
    zero the median of the reads is their mean. *)
Lemma zero_spread_median_mean (vals : list Z) :
  (2 <= length vals)%nat ->
  Num.root_nonzero
    (Statistics.stdev (deviations (Statistics.median vals) vals)) = false ->
  Statistics.median vals = Statistics.mean vals.
Proof.
  intros Hlen Hz. unfold Num.root_nonzero, Statistics.stdev in Hz.
  cbn [Num.radicand] in Hz. apply negb_false_iff, eqb_zero_true in Hz.
  destruct (variance_zero_equal _ ltac:(unfold deviations;
                                        rewrite length_map; exact Hlen) Hz)
    as [d Hd].
  apply (equidistant_median_mean vals d).
  - destruct vals; [ cbn in Hlen; lia | discriminate ].
  - unfold deviations in Hd. rewrite Forall_map in Hd. exact Hd.
Qed.

(** On whatever path the aggregation succeeds, the measurement is the
    mean of the surviving set. *)
Lemma measurement_is_mean (a : t) :
  fst (_calculate_measurement a) = Ok true ->
  measurement (snd (_calculate_measurement a)) =
    Some (Statistics.mean (_reads_filtered (snd (_calculate_measurement a)))).
Proof.
  rewrite calculate_unfold.
  destruct (valid_reads (reads a)) as [| r1 [| r2 l]] eqn:Hv.
  - discriminate.
  - intros _. fields. rewrite mean_single. reflexivity.
  - cbv zeta.
    set (vals := r1 :: r2 :: l) in *.
    set (med := Statistics.median vals).
    set (devs := deviations med vals).
    set (sd := Statistics.stdev devs).
    set (a4 := set_read_stdev sd _).
    assert (Hfa : forall x,
               fst (filter_and_average x) = Ok true ->
               measurement (snd (filter_and_average x)) =
                 Some (Statistics.mean
                         (_reads_filtered (snd (filter_and_average x))))).
    { intros x Hok.
      destruct (filter_and_average_cases x)
        as [(_ & E) | [(_ & _ & E) | (_ & _ & E)]];
        cbv zeta in E; rewrite E in Hok |- *; try discriminate Hok.
      reflexivity. }
    destruct (Num.root_gtb sd (_max_stdev a)); [ apply Hfa | ].
    destruct (Num.root_nonzero sd) eqn:Hnz; [ apply Hfa | ].
    intros _. unfold a4. fields. f_equal.
    apply zero_spread_median_mean; [ cbn; lia | exact Hnz ].
Qed.

Lemma some_inj (x y : Qc) : Some x = Some y <-> x = y.
Proof. split; [ intros H; injection H as H; exact H | congruence ]. Qed.

(** A second run on the survivors can also fail: the batch
    [0, 300, 500, 10] aggregates to the survivors [0, 300, 10], whose own
    spread is over the ceiling of 100. *)
Example rerun_can_fail :
  let a := batch_of [0; 300; 500; 10] (init 5) in
  let a' := snd (_calculate_measurement a) in
  let b := batch_of [0; 300; 10] a' in
  fst (_calculate_measurement a) = Ok true /\
  _reads_filtered a' = [0; 300; 10] /\
  reads b = map Some (_reads_filtered a') /\
  fst (_calculate_measurement b) = Ok false.
Proof.
  cbv zeta. split; [ vm_compute; reflexivity | ].
  split; [ vm_compute; reflexivity | ].
  split; vm_compute; reflexivity.
Qed.

(** C7, amended.  On every batch on which the aggregation succeeds the
    measurement is the mean of the surviving set.  A second run on the
    surviving set, on the same device settings: succeeds with the same
    measurement when the first run excluded nothing; and whenever it
    succeeds, its measurement is the mean of what it keeps, so it is the
    measurement of the first run when it keeps every survivor, and in
    general exactly when the two means agree. *)
Theorem rerun_on_survivors (a b : t) :
  in_batch a -> in_batch b ->
  _max_stdev b = _max_stdev a ->
  _max_number_of_stdev_from_med b = _max_number_of_stdev_from_med a ->
  _zero_offset b = _zero_offset a ->
  _weight_multiple b = _weight_multiple a ->
  fst (_calculate_measurement a) = Ok true ->
  reads b = map Some (_reads_filtered (snd (_calculate_measurement a))) ->
  let a' := snd (_calculate_measurement a) in
  let b' := snd (_calculate_measurement b) in
  measurement a' = Some (Statistics.mean (_reads_filtered a')) /\
  (_reads_filtered a' = valid_reads (reads a) ->
   fst (_calculate_measurement b) = Ok true /\
   measurement b' = measurement a') /\
  (fst (_calculate_measurement b) = Ok true ->
   measurement b' = Some (Statistics.mean (_reads_filtered b')) /\
   (_reads_filtered b' = _reads_filtered a' ->
    measurement b' = measurement a') /\
   (measurement b' = measurement a' <->
    Statistics.mean (_reads_filtered b') =
      Statistics.mean (_reads_filtered a'))).
Proof.
  intros Ha Hb Hsd Hn Hzo Hwm Hok Hreads. cbv zeta.
  pose proof (measurement_is_mean a Hok) as Hma.
  split; [ exact Hma | ]. split.
  - intros Hkept.
    apply (rerun_when_nothing_excluded a b); assumption.
  - intros Hokb. pose proof (measurement_is_mean b Hokb) as Hmb.
    split; [ exact Hmb | ]. split.
    + intros Hsame. rewrite Hmb, Hma, Hsame. reflexivity.
    + rewrite Hmb, Hma. apply some_inj.
Qed.

Lemma rerun_on_survivors_witness :
  let a := batch_of [4; 5; 6; 5; 4; 6; 5; 30] (init 5) in
  let a' := snd (_calculate_measurement a) in
  let b := batch_of [4; 5; 6; 5; 4; 6; 5] a' in
  _reads_filtered a' = [4; 5; 6; 5; 4; 6; 5] /\
  fst (_calculate_measurement b) = Ok true /\
  measurement (snd (_calculate_measurement b)) = measurement a' /\
  measurement a' = Some (Num.of_Z 5).
Proof.
  cbv zeta.
  set (a := batch_of [4; 5; 6; 5; 4; 6; 5; 30] (init 5)).
  set (b := batch_of [4; 5; 6; 5; 4; 6; 5] (snd (_calculate_measurement a))).
  assert (Hkept : _reads_filtered (snd (_calculate_measurement a)) =
                  [4; 5; 6; 5; 4; 6; 5]) by (vm_compute; reflexivity).
  assert (Hokb : fst (_calculate_measurement b) = Ok true)
    by (vm_compute; reflexivity).
  assert (Hkeptb : _reads_filtered (snd (_calculate_measurement b)) =
                   [4; 5; 6; 5; 4; 6; 5]) by (vm_compute; reflexivity).
  destruct (rerun_on_survivors a b) as (Hmean & _ & Hsecond).
  - apply in_batch_batch_of.
  - apply in_batch_batch_of.
  - vm_compute; reflexivity.
  - vm_compute; reflexivity.
  - vm_compute; reflexivity.
  - vm_compute; reflexivity.
  - vm_compute; reflexivity.
  - rewrite Hkept. vm_compute; reflexivity.
  - cbv zeta in Hmean, Hsecond.
    destruct (Hsecond Hokb) as (_ & Hsame & _).
    split; [ exact Hkept | ]. split; [ exact Hokb | ].
    split; [ apply Hsame; rewrite Hkept, Hkeptb; reflexivity | ].
    rewrite Hmean, Hkept. f_equal. apply Qc_is_canon.
    vm_compute. reflexivity.
Defined.

End Rerun.
